(** * coreconsole: a shallow embedding of the CoreCLR console host

    Source: src/coreclr/hosts/coreconsole/coreconsole.cpp

    The file models, in the order of the source,
    - [StringBuffer] (the growable buffer that holds the TPA list),
    - [HostEnvironment] (runtime discovery and the TPA-list build),
    - [TryRun] and [wmain] (the orchestration of the runtime host).

    Conventions.
    - A [wchar_t] that is not the terminator is a [positive]; a C string
      value ([const wchar_t*] read up to its terminator) is a list of them.
    - A [wchar_t] array is a list of [N] cells, [0] being the terminator.
    - [size_t] is a 64-bit unsigned integer: a [Z] with its wrap-around
      written out ([size_add], [size_sub], [size_mul]).
    - A call of a secure CRT routine whose destination is too small invokes
      the invalid-parameter handler, which ends the process: [None]. *)

From Stdlib Require Import String Ascii ZArith NArith PArith List Bool Lia.
From Stdlib Require Import Permutation.
Import ListNotations.

#[local] Open Scope Z_scope.

(** ** Wide characters and C strings *)

Definition wchar : Type := positive.
Definition wstr : Type := list wchar.

Definition wchar_of_ascii (a : ascii) : wchar :=
  match N_of_ascii a with
  | N0 => 1%positive
  | Npos p => p
  end.

(** The [W("...")] macro of the source: a wide string literal. *)
Definition W (s : string) : wstr := map wchar_of_ascii (list_ascii_of_string s).

(** [W("\\")] of the source: the one-character string of a backslash
    (code unit 92). *)
Definition BACKSLASH : wstr := [92%positive].

Definition wchar_eqb (a b : wchar) : bool := Pos.eqb a b.

Fixpoint wstr_eqb (a b : wstr) : bool :=
  match a, b with
  | [], [] => true
  | x :: a', y :: b' => wchar_eqb x y && wstr_eqb a' b'
  | _, _ => false
  end.

Definition wcslen (s : wstr) : Z := Z.of_nat (length s).

(** [towlower] in the "C" locale (the host never calls [setlocale]):
    only 'A'..'Z' are mapped. *)
Definition towlower (c : wchar) : wchar :=
  if ((65 <=? c) && (c <=? 90))%positive then (c + 32)%positive else c.

(** [wcsstr(hay, needle) != NULL]. *)
Fixpoint is_prefix (p s : wstr) : bool :=
  match p, s with
  | [], _ => true
  | x :: p', y :: s' => wchar_eqb x y && is_prefix p' s'
  | _ :: _, [] => false
  end.

Fixpoint wcsstr (hay needle : wstr) : bool :=
  is_prefix needle hay ||
  match hay with
  | [] => false
  | _ :: hay' => wcsstr hay' needle
  end.

(** [wcsrchr(s, c)]: the index of the last occurrence of [c], if any. *)
Fixpoint wcsrchr (s : wstr) (c : wchar) : option nat :=
  match s with
  | [] => None
  | x :: s' =>
      match wcsrchr s' c with
      | Some i => Some (S i)
      | None => if wchar_eqb x c then Some O else None
      end
  end.

(** ** size_t arithmetic *)

Definition SIZE_MOD : Z := 2 ^ 64.
Definition size_add (a b : Z) : Z := (a + b) mod SIZE_MOD.
Definition size_sub (a b : Z) : Z := (a - b) mod SIZE_MOD.
Definition size_mul (a b : Z) : Z := (a * b) mod SIZE_MOD.

Definition MAX_PATH : Z := 260.

(** ** Arrays of wchar_t *)

Definition NUL : N := 0%N.

(** The C string stored at the start of an array. *)
Fixpoint cstr (b : list N) : wstr :=
  match b with
  | [] => []
  | N0 :: _ => []
  | Npos p :: b' => p :: cstr b'
  end.

Definition take (n : Z) {A} (l : list A) : list A := firstn (Z.to_nat n) l.
Definition drop (n : Z) {A} (l : list A) : list A := skipn (Z.to_nat n) l.

(** [wcsncpy_s(dest + off, destsz, src, count)] on the array [dest]: copies
    [min(count, wcslen(src))] characters and a terminator; the call fails
    when these do not fit in [destsz] cells. *)
Definition wcsncpy_s (dest : list N) (off destsz : Z) (src : wstr) (count : Z)
  : option (list N) :=
  let k := Z.min count (wcslen src) in
  if k <? destsz then
    Some (take off dest ++ map Npos (take k src) ++ [NUL] ++ drop (off + k + 1) dest)
  else None.

(** A copy or concatenation into a fixed array of [size] cells
    ([wcscpy_s], [wcscat_s]): the result must fit with its terminator. *)
Definition fits (size : Z) (s : wstr) : option wstr :=
  if wcslen s <? size then Some s else None.

(** [wcscat_s(dst, size, src)] on a fixed array of [size] cells. *)
Definition wcscat_s (size : Z) (dst src : wstr) : option wstr :=
  fits size (dst ++ src).

(** The error monad of the model. *)
Definition bind {A B} (m : option A) (k : A -> option B) : option B :=
  match m with
  | Some a => k a
  | None => None
  end.

Notation "x <- m ;; k" := (bind m (fun x => k))
  (at level 61, m at next level, right associativity).
Notation "' p <- m ;; k" := (bind m (fun p => k))
  (at level 61, p pattern, m at next level, right associativity).

(** ** The operating system and the runtime host, as the program sees them *)

Definition HMODULE : Type := positive.
Definition HRESULT : Type := Z.
Definition DWORD : Type := Z.

Definition FAILED (hr : HRESULT) : bool := hr <? 0.

Record WIN32_FIND_DATA : Type := mkFindData {
  dwFileAttributes : Z;
  cFileName : wstr
}.

Definition FILE_ATTRIBUTE_DIRECTORY : Z := 16.

(** The answers of the system and of the runtime host to the calls the
    program makes. An environment variable is given by what [_wgetenv_s]
    returns for it: the error code, [outSize] and the value. *)
Record OS : Type := mkOS {
  wgetenv_s : wstr -> Z * Z * wstr;
  host_module_path : wstr;
  LoadLibraryExW : wstr -> option HMODULE;
  GetModuleHandleExW_pin : wstr -> bool;
  GetModuleFileNameW : HMODULE -> wstr;
  FindFiles : wstr -> list WIN32_FIND_DATA;
  GetFullPathName_dir : wstr -> wstr;
  GetProcAddress_GetCLRRuntimeHost : HMODULE -> bool;
  hr_GetCLRRuntimeHost : HRESULT;
  hr_SetStartupFlags : HRESULT;
  hr_Authenticate : HRESULT;
  hr_Start : HRESULT;
  hr_CreateAppDomainWithManager : HRESULT;
  created_domainId : DWORD;
  hr_ExecuteAssembly : HRESULT;
  ExecuteAssembly_out : option DWORD;
  hr_UnloadAppDomain : HRESULT;
  hr_Stop : HRESULT
}.

(** The calls the program makes, in order (a record kept beside the
    program state; the program never reads it). The flag arguments, whose
    values are declared in mscoree.h, are not recorded. *)
Inductive Event : Type :=
  | EvLoadLibrary (path : wstr)
  | EvFindFirstFile (pattern : wstr)
  | EvGetCLRRuntimeHost
  | EvSetStartupFlags
  | EvAuthenticate
  | EvStart
  | EvCreateAppDomain (friendlyName : wstr) (nProperties : Z)
      (keys : list wstr) (values : list (option wstr))
  | EvExecuteAssembly (domainId : DWORD) (assembly : wstr) (argv : list wstr)
  | EvUnloadAppDomain (domainId : DWORD)
  | EvStop
  | EvRelease.

(** ** Sample worlds, used to run the program on concrete inputs *)

Definition E_FAIL : HRESULT := -2147467259.   (* 0x80004005 *)
Definition S_OK : HRESULT := 0.

Definition plain_file (name : string) : WIN32_FIND_DATA :=
  {| dwFileAttributes := 32; cFileName := W name |}.

Definition directory (name : string) : WIN32_FIND_DATA :=
  {| dwFileAttributes := FILE_ATTRIBUTE_DIRECTORY; cFileName := W name |}.

Fixpoint lookup {A} (key : wstr) (table : list (wstr * A)) : option A :=
  match table with
  | [] => None
  | (k, v) :: rest => if wstr_eqb key k then Some v else lookup key rest
  end.

(** A world, given the environment variables, the modules that load,
    the path of each loaded module, the directory listings by search
    pattern, and the answers of [ExecuteAssembly] and [UnloadAppDomain]. *)
Definition sample_os (env : list (wstr * wstr))
  (load : wstr -> option HMODULE) (runtime_path : wstr)
  (listing : list (wstr * list WIN32_FIND_DATA))
  (hrExecute : HRESULT) (out : option DWORD) (hrUnload : HRESULT) : OS :=
  {| wgetenv_s := fun name =>
       match lookup name env with
       | Some v => (0, wcslen v + 1, v)
       | None => (0, 0, [])
       end;
     host_module_path := W "c:" ++ BACKSLASH ++ W "app" ++ BACKSLASH ++ W "hello.exe";
     LoadLibraryExW := load;
     GetModuleHandleExW_pin := fun _ => true;
     GetModuleFileNameW := fun _ => runtime_path;
     FindFiles := fun pattern =>
       match lookup pattern listing with
       | Some found => found
       | None => []
       end;
     GetFullPathName_dir := fun _ => W "c:" ++ BACKSLASH ++ W "app" ++ BACKSLASH;
     GetProcAddress_GetCLRRuntimeHost := fun _ => true;
     hr_GetCLRRuntimeHost := S_OK;
     hr_SetStartupFlags := S_OK;
     hr_Authenticate := S_OK;
     hr_Start := S_OK;
     hr_CreateAppDomainWithManager := S_OK;
     created_domainId := 1;
     hr_ExecuteAssembly := hrExecute;
     ExecuteAssembly_out := out;
     hr_UnloadAppDomain := hrUnload;
     hr_Stop := S_OK |}.

Definition hello_dll : wstr :=
  W "c:" ++ BACKSLASH ++ W "app" ++ BACKSLASH ++ W "hello.dll".
Definition hello_exe : wstr :=
  W "c:" ++ BACKSLASH ++ W "app" ++ BACKSLASH ++ W "hello.exe".

Definition rt_dir : wstr := W "c:" ++ BACKSLASH ++ W "rt" ++ BACKSLASH.

Definition rt_listing : list (wstr * list WIN32_FIND_DATA) :=
  [ (rt_dir ++ W "*.ni.dll", [plain_file "mscorlib.ni.dll"]);
    (rt_dir ++ W "*.dll",
      [plain_file "CoreCLR.dll"; plain_file "mscorlib.dll";
       plain_file "mscorlib.ni.dll"]) ].

Definition world (hrExecute : HRESULT) (out : option DWORD) (hrUnload : HRESULT) : OS :=
  sample_os [] (fun _ => Some 7%positive) (rt_dir ++ W "CoreCLR.dll") rt_listing
    hrExecute out hrUnload.

(** A world whose runtime directory holds no file that matches. *)
Definition world_without_files : OS :=
  sample_os [] (fun _ => Some 7%positive) (rt_dir ++ W "CoreCLR.dll") []
    S_OK (Some 0) S_OK.

(** A world with a directory of additional libraries, CORE_LIBRARIES. *)
Definition lib_dir : wstr := W "c:" ++ BACKSLASH ++ W "lib" ++ BACKSLASH.

Definition world_with_libraries : OS :=
  sample_os [(W "CORE_LIBRARIES", W "c:" ++ BACKSLASH ++ W "lib")]
    (fun _ => Some 7%positive) (rt_dir ++ W "CoreCLR.dll")
    [ (lib_dir ++ W "*.dll", [plain_file "System.dll"; directory "old.dll"]);
      (rt_dir ++ W "*.ni.dll",
        [plain_file "mscorlib.ni.dll"; plain_file "System.ni.dll"]);
      (rt_dir ++ W "*.dll",
        [plain_file "CoreCLR.dll"; plain_file "mscorlib.dll";
         plain_file "mscorlib.ni.dll"; plain_file "System.dll";
         plain_file "System.ni.dll"]) ]
    S_OK (Some 0) S_OK.

(** A world whose runtime directory holds [a.ni.dll] and [a.dll]. *)
Definition world_with_pair : OS :=
  sample_os [] (fun _ => Some 7%positive) (rt_dir ++ W "CoreCLR.dll")
    [ (rt_dir ++ W "*.ni.dll", [plain_file "a.ni.dll"]);
      (rt_dir ++ W "*.dll", [plain_file "a.ni.dll"; plain_file "a.dll"]) ]
    S_OK (Some 0) S_OK.

(** A world whose runtime directory holds [x.dll] and [x.ni.exe]. *)
Definition world_with_ni_exe : OS :=
  sample_os [] (fun _ => Some 7%positive) (rt_dir ++ W "CoreCLR.dll")
    [ (rt_dir ++ W "*.dll", [plain_file "x.dll"]);
      (rt_dir ++ W "*.ni.exe", [plain_file "x.ni.exe"]);
      (rt_dir ++ W "*.exe", [plain_file "x.ni.exe"]) ]
    S_OK (Some 0) S_OK.

(** A world whose runtime directory holds [a.dll_old] and [a.dll], and in
    which the search of "*.dll" returns both (as [FindFirstFile] does where
    the short name of [a.dll_old] ends in ".DLL"). *)
Definition world_with_stray_name : OS :=
  sample_os [] (fun _ => Some 7%positive) (rt_dir ++ W "CoreCLR.dll")
    [ (rt_dir ++ W "*.dll", [plain_file "a.dll_old"; plain_file "a.dll"]) ]
    S_OK (Some 0) S_OK.

(** A world in which CORE_ROOT is set to the empty string. *)
Definition world_with_empty_root : OS :=
  sample_os [(W "CORE_ROOT", [])] (fun _ => Some 7%positive)
    (rt_dir ++ W "CoreCLR.dll") rt_listing S_OK (Some 0) S_OK.

(** A world in which CORE_ROOT names a directory without the runtime. *)
Definition missing_root : wstr := W "d:" ++ BACKSLASH ++ W "none".

Definition world_with_root : OS :=
  sample_os [(W "CORE_ROOT", missing_root)]
    (fun path =>
       if wstr_eqb path (missing_root ++ BACKSLASH ++ W "CoreCLR.dll")
       then None else Some 7%positive)
    (rt_dir ++ W "CoreCLR.dll") rt_listing S_OK (Some 0) S_OK.

Section Host.

(** What an uninitialised [wchar_t] cell holds: any value. *)
Variable uninit : N.

Variable os : OS.

Definition new_wchar (n : Z) : list N := repeat uninit (Z.to_nat n).

(** ** StringBuffer *)

Record StringBuffer : Type := mkStringBuffer {
  m_buffer : option (list N);
  m_capacity : Z;
  m_length : Z
}.

Definition m_defaultSize : Z := 4096.

(** The constructor. *)
Definition StringBuffer_new : StringBuffer :=
  {| m_buffer := None; m_capacity := 0; m_length := 0 |}.

(** [CStr()]: [None] is [nullptr]. *)
Definition CStr (sb : StringBuffer) : option wstr :=
  option_map cstr (m_buffer sb).

(** The buffer and capacity after the allocation on first use. *)
Definition ensure_buffer (sb : StringBuffer) : list N * Z :=
  match m_buffer sb with
  | None => (new_wchar m_defaultSize, m_defaultSize)
  | Some cells => (cells, m_capacity sb)
  end.

(** The test [m_length + strLen + 1 > m_capacity]. *)
Definition needs_growth (len strLen cap : Z) : bool :=
  size_add (size_add len strLen) 1 >? cap.

Definition Append (sb : StringBuffer) (str : wstr) (strLen : Z)
  : option StringBuffer :=
  let '(cells, cap) := ensure_buffer sb in
  let len := m_length sb in
  let grown :=
    if needs_growth len strLen cap then
      let newCapacity := size_mul cap 2 in
      match wcsncpy_s (new_wchar newCapacity) 0 newCapacity (cstr cells) len with
      | Some newBuffer => Some (newBuffer, newCapacity)
      | None => None
      end
    else Some (cells, cap) in
  match grown with
  | None => None
  | Some (cells2, cap2) =>
      match wcsncpy_s cells2 len (size_sub cap2 len) str strLen with
      | Some out =>
          Some {| m_buffer := Some out;
                  m_capacity := cap2;
                  m_length := size_add len strLen |}
      | None => None
      end
  end.

(** The string held by the buffer; empty before the first allocation. *)
Definition contents (sb : StringBuffer) : wstr :=
  match m_buffer sb with
  | None => []
  | Some cells => cstr cells
  end.

(** The invariant of the class: the array has [m_capacity] cells and holds
    a terminated string of [m_length] characters. *)
Definition buffer_ok (sb : StringBuffer) : Prop :=
  match m_buffer sb with
  | None => m_length sb = 0
  | Some cells =>
      Z.of_nat (length cells) = m_capacity sb /\
      m_capacity sb < SIZE_MOD /\
      wcslen (cstr cells) = m_length sb /\
      m_length sb < m_capacity sb
  end.

(** The capacity before the call, after the allocation on first use. *)
Definition capacity_before (sb : StringBuffer) : Z := snd (ensure_buffer sb).

(** The capacity after the call. *)
Definition capacity_after (sb : StringBuffer) (strLen : Z) : Z :=
  if needs_growth (m_length sb) strLen (capacity_before sb)
  then size_mul (capacity_before sb) 2
  else capacity_before sb.

(** ** HostEnvironment *)

Definition coreCLRDll : wstr := W "CoreCLR.dll".

(** [GetModuleFileNameW(module, buffer, MAX_PATH)]: the path, cut to the
    buffer. *)
Definition GetModuleFileName_MAX_PATH (module : HMODULE) : wstr :=
  take (MAX_PATH - 1) (GetModuleFileNameW os module).

(** [TryLoadCoreCLR]; it touches no member but the log. *)
Definition TryLoadCoreCLR (directoryPath : wstr) (evs : list Event)
  : option (option HMODULE * list Event) :=
  coreCLRPath <- fits MAX_PATH directoryPath ;;
  coreCLRPath <- wcscat_s MAX_PATH coreCLRPath coreCLRDll ;;
  let evs := evs ++ [EvLoadLibrary coreCLRPath] in
  match LoadLibraryExW os coreCLRPath with
  | None => Some (None, evs)
  | Some result =>
      if negb (GetModuleHandleExW_pin os coreCLRPath) then Some (None, evs)
      else Some (Some result, evs)
  end.

(** The loops of lines 127 and 168: the index of the last backslash, or -1. *)
Definition lastBackslashIndex (path : wstr) : Z :=
  match wcsrchr path (hd 1%positive BACKSLASH) with
  | Some i => Z.of_nat i
  | None => -1
  end.

Record HostEnvironment : Type := mkHostEnvironment {
  m_hostPath : wstr;
  m_hostDirectoryPath : wstr;
  m_hostExeName : wstr;
  m_tpaList : StringBuffer;
  m_CLRRuntimeHost : bool;
  m_coreCLRModule : option HMODULE;
  m_coreCLRDirectoryPath : wstr;
  (* kept beside the program state, never read by the program *)
  tpa_entries : list (wstr * wstr);
  events : list Event
}.

Definition log_event (e : Event) (he : HostEnvironment) : HostEnvironment :=
  {| m_hostPath := m_hostPath he;
     m_hostDirectoryPath := m_hostDirectoryPath he;
     m_hostExeName := m_hostExeName he;
     m_tpaList := m_tpaList he;
     m_CLRRuntimeHost := m_CLRRuntimeHost he;
     m_coreCLRModule := m_coreCLRModule he;
     m_coreCLRDirectoryPath := m_coreCLRDirectoryPath he;
     tpa_entries := tpa_entries he;
     events := events he ++ [e] |}.

Definition set_events (evs : list Event) (he : HostEnvironment) : HostEnvironment :=
  {| m_hostPath := m_hostPath he;
     m_hostDirectoryPath := m_hostDirectoryPath he;
     m_hostExeName := m_hostExeName he;
     m_tpaList := m_tpaList he;
     m_CLRRuntimeHost := m_CLRRuntimeHost he;
     m_coreCLRModule := m_coreCLRModule he;
     m_coreCLRDirectoryPath := m_coreCLRDirectoryPath he;
     tpa_entries := tpa_entries he;
     events := evs |}.

(** Two states of the program that differ at most in the record of calls. *)
Definition same_state (he1 he2 : HostEnvironment) : Prop :=
  set_events [] he1 = set_events [] he2.

(** The two appends of lines 273-274, with the record of the entry. *)
Definition set_tpaList (sb : StringBuffer) (entry : wstr * wstr)
  (he : HostEnvironment) : HostEnvironment :=
  {| m_hostPath := m_hostPath he;
     m_hostDirectoryPath := m_hostDirectoryPath he;
     m_hostExeName := m_hostExeName he;
     m_tpaList := sb;
     m_CLRRuntimeHost := m_CLRRuntimeHost he;
     m_coreCLRModule := m_coreCLRModule he;
     m_coreCLRDirectoryPath := m_coreCLRDirectoryPath he;
     tpa_entries := tpa_entries he ++ [entry];
     events := events he |}.

(** The loop of [TPAListContainsFile] over the extensions, on the list. *)
Fixpoint TPAListContainsFile_loop (tpa fileNameWithoutExtension : wstr)
  (rgTPAExtensions : list wstr) : option bool :=
  match rgTPAExtensions with
  | [] => Some false
  | ext :: rest =>
      fileName <- fits MAX_PATH BACKSLASH ;;
      fileName <- wcscat_s MAX_PATH fileName fileNameWithoutExtension ;;
      fileName <- wcscat_s MAX_PATH fileName (tl ext) ;;
      fileName <- wcscat_s MAX_PATH fileName (W ";") ;;
      if wcsstr tpa fileName then Some true
      else TPAListContainsFile_loop tpa fileNameWithoutExtension rest
  end.

Definition TPAListContainsFile (he : HostEnvironment)
  (fileNameWithoutExtension : wstr) (rgTPAExtensions : list wstr) : option bool :=
  match CStr (m_tpaList he) with
  | None => Some false
  | Some tpa =>
      TPAListContainsFile_loop tpa fileNameWithoutExtension rgTPAExtensions
  end.

Definition char_at (s : wstr) (i : Z) : wchar := nth (Z.to_nat i) s 1%positive.

Definition ch (c : string) : wchar := hd 1%positive (W c).

(** The test of lines 219-222. *)
Definition ends_in_ni (fileName : wstr) : bool :=
  let len := wcslen fileName in
  (len >? 3) &&
  wchar_eqb (char_at fileName (len - 1)) (ch "i") &&
  wchar_eqb (char_at fileName (len - 2)) (ch "n") &&
  wchar_eqb (char_at fileName (len - 3)) (ch ".").

Definition RemoveExtensionAndNi (fileName : wstr) : wstr :=
  match wcsrchr fileName (ch ".") with
  | None => fileName
  | Some extension =>
      let fileName := firstn extension fileName in
      if ends_in_ni fileName
      then take (wcslen fileName - 3) fileName
      else fileName
  end.

(** [!(data.dwFileAttributes & FILE_ATTRIBUTE_DIRECTORY)]. *)
Definition is_file (data : WIN32_FIND_DATA) : bool :=
  Z.land (dwFileAttributes data) FILE_ATTRIBUTE_DIRECTORY =? 0.

(** The body of the [do ... while] loop, for one found file. *)
Definition add_found_file (targetPath : wstr) (rgTPAExtensions : list wstr)
  (he : HostEnvironment) (data : WIN32_FIND_DATA) : option HostEnvironment :=
  if is_file data then
    let cFileName := map towlower (cFileName data) in
    fileNameWithoutExtension <- fits MAX_PATH cFileName ;;
    let fileNameWithoutExtension := RemoveExtensionAndNi fileNameWithoutExtension in
    present <- TPAListContainsFile he fileNameWithoutExtension rgTPAExtensions ;;
    if negb present then
      let dirLength := wcslen targetPath in
      let fileLength := wcslen cFileName in
      let assemblyPathLength := dirLength + fileLength in
      fileNameBuffer <- fits (MAX_PATH - dirLength) (take fileLength cFileName) ;;
      let assemblyPath := targetPath ++ fileNameBuffer in
      sb <- Append (m_tpaList he) assemblyPath assemblyPathLength ;;
      sb <- Append sb (W ";") 1 ;;
      Some (set_tpaList sb (targetPath, cFileName) he)
    else Some he
  else Some he.

Fixpoint add_found_files (targetPath : wstr) (rgTPAExtensions : list wstr)
  (he : HostEnvironment) (found : list WIN32_FIND_DATA) : option HostEnvironment :=
  match found with
  | [] => Some he
  | data :: rest =>
      he <- add_found_file targetPath rgTPAExtensions he data ;;
      add_found_files targetPath rgTPAExtensions he rest
  end.

(** The [for] loop of [AddFilesFromDirectoryToTPAList]; [todo] is the part
    of [rgTPAExtensions] from [iExtension] on. *)
Fixpoint AddFiles_loop (targetPath : wstr) (rgTPAExtensions todo : list wstr)
  (he : HostEnvironment) : option HostEnvironment :=
  match todo with
  | [] => Some he
  | ext :: rest =>
      assemblyPath <- fits MAX_PATH targetPath ;;
      assemblyPath <- wcscat_s MAX_PATH assemblyPath ext ;;
      let he := log_event (EvFindFirstFile assemblyPath) he in
      he <- add_found_files targetPath rgTPAExtensions he (FindFiles os assemblyPath) ;;
      AddFiles_loop targetPath rgTPAExtensions rest he
  end.

Definition AddFilesFromDirectoryToTPAList (targetPath : wstr)
  (rgTPAExtensions : list wstr) (he : HostEnvironment) : option HostEnvironment :=
  AddFiles_loop targetPath rgTPAExtensions rgTPAExtensions he.

Definition rgTPAExtensions : list wstr :=
  [ W "*.ni.dll"; W "*.dll"; W "*.ni.exe"; W "*.exe" ].

(** [_wgetenv_s(...) == 0 && outSize > 0]. *)
Definition env_is_set (name : wstr) : bool :=
  let '(rc, outSize, _) := wgetenv_s os name in
  (rc =? 0) && (outSize >? 0).

Definition env_value (name : wstr) : wstr :=
  let '(_, _, value) := wgetenv_s os name in value.

Definition GetTpaList (he : HostEnvironment)
  : option (option wstr * HostEnvironment) :=
  match CStr (m_tpaList he) with
  | None =>
      he <- (if env_is_set (W "CORE_LIBRARIES") then
               coreLibraries <- wcscat_s MAX_PATH (env_value (W "CORE_LIBRARIES")) BACKSLASH ;;
               AddFilesFromDirectoryToTPAList coreLibraries rgTPAExtensions he
             else Some he) ;;
      he <- AddFilesFromDirectoryToTPAList (m_coreCLRDirectoryPath he) rgTPAExtensions he ;;
      Some (CStr (m_tpaList he), he)
  | Some _ => Some (CStr (m_tpaList he), he)
  end.

(** What an attempt of [TryLoadCoreCLR] on [path] yields: the module, when
    it loads and is pinned. *)
Definition load_and_pin (path : wstr) : option HMODULE :=
  match LoadLibraryExW os path with
  | Some module => if GetModuleHandleExW_pin os path then Some module else None
  | None => None
  end.

(** A path up to and with its last backslash; the path itself when it has
    none (lines 168-173). *)
Definition directory_of (path : wstr) : wstr :=
  if lastBackslashIndex path >=? 0 then take (lastBackslashIndex path + 1) path
  else path.

(** The scan of several directories in order, as [GetTpaList] does for
    its two. *)
Fixpoint AddDirectories (dirs : list wstr) (rgTPAExtensions : list wstr)
  (he : HostEnvironment) : option HostEnvironment :=
  match dirs with
  | [] => Some he
  | targetPath :: rest =>
      he <- AddFilesFromDirectoryToTPAList targetPath rgTPAExtensions he ;;
      AddDirectories rest rgTPAExtensions he
  end.

(** An entry of the list: the directory and the lower-cased file name that
    were appended (lines 272-274). *)
Definition tpa_path (entry : wstr * wstr) : wstr := fst entry ++ snd entry.

(** The list as a string: every path followed by a semicolon. *)
Definition flat (entries : list (wstr * wstr)) : wstr :=
  concat (map (fun entry => tpa_path entry ++ W ";") entries).

(** The logical name of an entry: what [RemoveExtensionAndNi] leaves of
    its file name. *)
Definition logical_name (entry : wstr * wstr) : wstr :=
  RemoveExtensionAndNi (snd entry).

(** The string that [TPAListContainsFile] looks for, for one extension. *)
Definition needle (fileNameWithoutExtension ext : wstr) : wstr :=
  ((BACKSLASH ++ fileNameWithoutExtension) ++ tl ext) ++ W ";".

(** The buffer of the TPA list is well formed and holds the entries. *)
Definition tpa_ok (he : HostEnvironment) : Prop :=
  buffer_ok (m_tpaList he) /\
  contents (m_tpaList he) = flat (tpa_entries he) /\
  (m_buffer (m_tpaList he) = None -> tpa_entries he = []).

(** An entry as the build makes them: its directory ends with a
    backslash, and its file name is its logical name followed by the tail of
    one of the four patterns. *)
Definition entry_ok (entry : wstr * wstr) : Prop :=
  (exists d, fst entry = d ++ BACKSLASH) /\
  (exists ext, In ext rgTPAExtensions /\
               snd entry = logical_name entry ++ tl ext).

(** The invariant of the build. *)
Definition tpa_inv (he : HostEnvironment) : Prop :=
  tpa_ok he /\
  Forall entry_ok (tpa_entries he) /\
  NoDup (map logical_name (tpa_entries he)).

(** What is assumed of [FindFirstFile] and [FindNextFile]: a file found
    under [targetPath] and a pattern has a name that, in lower case, ends
    with the tail of the pattern. *)
Definition finds_match (targetPath : wstr) (exts : list wstr) : Prop :=
  forall ext data,
    In ext exts -> In data (FindFiles os (targetPath ++ ext)) ->
    is_file data = true ->
    exists stem, map towlower (cFileName data) = stem ++ tl ext.

Definition SEMICOLON : wchar := ch ";".

Definition no_char (c : wchar) (s : wstr) : bool :=
  negb (existsb (wchar_eqb c) s).

(** An entry whose directory holds no semicolon and whose file name holds
    neither a semicolon nor a backslash: the search of
    [TPAListContainsFile] cannot match across entries of this kind. *)
Definition clean_entry (entry : wstr * wstr) : Prop :=
  no_char SEMICOLON (fst entry) &&
  no_char SEMICOLON (snd entry) &&
  no_char (hd 1%positive BACKSLASH) (snd entry) = true.

(** A logical name that is not empty and does not itself end in ".ni":
    the name of [name.dll], [name.ni.dll], [name.exe] and [name.ni.exe]
    only. *)
Definition plain_name (name : wstr) : Prop :=
  name <> [] /\ ends_in_ni name = false.

(** The files, not directories, that the scan of a directory meets, in
    the order of the scan, with their names in lower case. *)
Definition candidates_of_pattern (targetPath ext : wstr) : list (wstr * wstr) :=
  map (fun data => (targetPath, map towlower (cFileName data)))
      (filter is_file (FindFiles os (targetPath ++ ext))).

Definition candidates_of_dir (targetPath : wstr) (exts : list wstr)
  : list (wstr * wstr) :=
  flat_map (candidates_of_pattern targetPath) exts.

Definition candidates (dirs exts : list wstr) : list (wstr * wstr) :=
  flat_map (fun targetPath => candidates_of_dir targetPath exts) dirs.

(** The state of the build when the candidates [done] have been met, for
    a candidate [c] that comes after the candidates [before]: the list is
    made of candidates met, and holds [c] once [c] has been met. *)
Definition track (before : list (wstr * wstr)) (c : wstr * wstr)
  (done : list (wstr * wstr)) (he : HostEnvironment) : Prop :=
  tpa_inv he /\
  incl (tpa_entries he) done /\
  ((length before < length done)%nat -> In c (tpa_entries he)).

(** ** The constructor of HostEnvironment *)

Definition HostEnvironment_new : option HostEnvironment :=
  let hostPath := take (MAX_PATH - 1) (host_module_path os) in
  let i := lastBackslashIndex hostPath in
  hostDirectoryPath <- fits MAX_PATH (take (i + 1) hostPath) ;;
  let hostExeName := drop (i + 1) hostPath in
  '(coreCLRModule, evs) <-
    (if env_is_set (W "CORE_ROOT") then
       coreRoot <- wcscat_s MAX_PATH (env_value (W "CORE_ROOT")) BACKSLASH ;;
       TryLoadCoreCLR coreRoot []
     else Some (None, [])) ;;
  '(coreCLRModule, evs) <-
    (match coreCLRModule with
     | None => TryLoadCoreCLR hostDirectoryPath evs
     | Some _ => Some (coreCLRModule, evs)
     end) ;;
  let coreCLRDirectoryPath :=
    match coreCLRModule with
    | Some module =>
        let path := GetModuleFileName_MAX_PATH module in
        let i := lastBackslashIndex path in
        if i >=? 0 then take (i + 1) path else path
    | None => cstr (new_wchar MAX_PATH)   (* the array is never written *)
    end in
  Some {| m_hostPath := hostPath;
          m_hostDirectoryPath := hostDirectoryPath;
          m_hostExeName := hostExeName;
          m_tpaList := StringBuffer_new;
          m_CLRRuntimeHost := false;
          m_coreCLRModule := coreCLRModule;
          m_coreCLRDirectoryPath := coreCLRDirectoryPath;
          tpa_entries := [];
          events := evs |}.

Definition set_CLRRuntimeHost (he : HostEnvironment) : HostEnvironment :=
  {| m_hostPath := m_hostPath he;
     m_hostDirectoryPath := m_hostDirectoryPath he;
     m_hostExeName := m_hostExeName he;
     m_tpaList := m_tpaList he;
     m_CLRRuntimeHost := true;
     m_coreCLRModule := m_coreCLRModule he;
     m_coreCLRDirectoryPath := m_coreCLRDirectoryPath he;
     tpa_entries := tpa_entries he;
     events := events he |}.

(** [GetCLRRuntimeHost]: [true] when the returned pointer is not null. *)
Definition GetCLRRuntimeHost (he : HostEnvironment) : bool * HostEnvironment :=
  if negb (m_CLRRuntimeHost he) then
    match m_coreCLRModule he with
    | None => (false, he)
    | Some module =>
        if negb (GetProcAddress_GetCLRRuntimeHost os module) then (false, he)
        else
          let he := log_event EvGetCLRRuntimeHost he in
          if FAILED (hr_GetCLRRuntimeHost os) then (false, he)
          else (true, set_CLRRuntimeHost he)
    end
  else (true, he).

(** ** TryRun *)

(** [exitCode = -1] on a [DWORD]. *)
Definition DWORD_minus_one : DWORD := 2 ^ 32 - 1.

(** The array of line 473. Adjacent string literals are one literal: no
    comma separates the last two. *)
Definition property_keys : list wstr :=
  [ W "TRUSTED_PLATFORM_ASSEMBLIES";
    W "APP_PATHS";
    W "APP_NI_PATHS";
    W "NATIVE_DLL_SEARCH_DIRECTORIES" ++ W "AppDomainCompatSwitch" ].

Record RunResult : Type := mkRunResult {
  run_success : bool;
  run_exitCode : DWORD;
  run_events : list Event
}.

Definition run_return (success : bool) (exitCode : DWORD) (he : HostEnvironment)
  : option RunResult :=
  Some {| run_success := success; run_exitCode := exitCode; run_events := events he |}.

(** [TryRun]. The strings built in fixed arrays here ([appNiPath],
    [nativeDllSearchDirs]) are made of parts that each come from an array
    of [MAX_PATH] cells, and fit. The wait for a debugger changes no
    variable of the function and is left out, and so is the call of
    [FreeLibrary] that the destructor of [hostEnvironment] makes at every
    return. *)
Definition TryRun (argv : list wstr) (programPath : wstr) : option RunResult :=
  let exitCode := DWORD_minus_one in
  hostEnvironment <- HostEnvironment_new ;;
  let he := log_event (EvLoadLibrary programPath) hostEnvironment in
  match LoadLibraryExW os programPath with
  | None => run_return false exitCode he
  | Some managedExeModule =>
    let managedAssemblyFullName := GetModuleFileName_MAX_PATH managedExeModule in
    let appPath := GetFullPathName_dir os managedAssemblyFullName in
    let appNiPath := appPath ++ W ";" ++ appPath in
    let nativeDllSearchDirs :=
      appPath ++
      (if env_is_set (W "CORE_LIBRARIES")
       then W ";" ++ env_value (W "CORE_LIBRARIES") else []) ++
      W ";" ++ m_coreCLRDirectoryPath he in
    let '(host, he) := GetCLRRuntimeHost he in
    if negb host then run_return false exitCode he else
    let he := log_event EvSetStartupFlags he in
    if FAILED (hr_SetStartupFlags os) then run_return false exitCode he else
    let he := log_event EvAuthenticate he in
    if FAILED (hr_Authenticate os) then run_return false exitCode he else
    let he := log_event EvStart he in
    if FAILED (hr_Start os) then run_return false exitCode he else
    '(tpa, he) <- GetTpaList he ;;
    let property_values :=
      [ tpa; Some appPath; Some appNiPath; Some nativeDllSearchDirs ] in
    let he := log_event
      (EvCreateAppDomain (m_hostExeName he) (Z.of_nat (length property_keys))
         property_keys property_values) he in
    if FAILED (hr_CreateAppDomainWithManager os) then run_return false exitCode he else
    let domainId := created_domainId os in
    let he := log_event (EvExecuteAssembly domainId managedAssemblyFullName argv) he in
    let exitCode :=
      match ExecuteAssembly_out os with
      | Some code => code
      | None => exitCode
      end in
    if FAILED (hr_ExecuteAssembly os) then run_return false exitCode he else
    let he := log_event (EvUnloadAppDomain domainId) he in
    if FAILED (hr_UnloadAppDomain os) then run_return false exitCode he else
    let he := log_event EvStop he in
    if FAILED (hr_Stop os) then run_return false exitCode he else
    let he := log_event EvRelease he in
    run_return true exitCode he
  end.

(** The calls made before the domain is created. *)
Definition pre_create_event (e : Event) : Prop :=
  match e with
  | EvLoadLibrary _ | EvFindFirstFile _ | EvGetCLRRuntimeHost
  | EvSetStartupFlags | EvAuthenticate | EvStart => True
  | _ => False
  end.

(** The calls that follow the call of [ExecuteAssembly], lines 548-591. *)
Definition post_execute (domainId : DWORD) : list Event :=
  if FAILED (hr_ExecuteAssembly os) then [] else
  EvUnloadAppDomain domainId ::
  if FAILED (hr_UnloadAppDomain os) then [] else
  EvStop ::
  if FAILED (hr_Stop os) then [] else [EvRelease].

(** The value of [exitCode] once [ExecuteAssembly] has returned. *)
Definition exit_after_execute : DWORD :=
  match ExecuteAssembly_out os with
  | Some code => code
  | None => DWORD_minus_one
  end.

Definition teardown_ok : bool :=
  negb (FAILED (hr_ExecuteAssembly os)) &&
  negb (FAILED (hr_UnloadAppDomain os)) &&
  negb (FAILED (hr_Stop os)).

Definition is_teardown_event (e : Event) : bool :=
  match e with
  | EvUnloadAppDomain _ | EvStop | EvRelease => true
  | _ => false
  end.

(** ** wmain *)

(** [_wcsicmp(a, b) == 0]. *)
Definition stringsEqual (a b : wstr) : bool :=
  wstr_eqb (map towlower a) (map towlower b).

Record Options : Type := mkOptions {
  verbose : bool;
  waitForDebugger : bool;
  helpRequested : bool
}.

(** The lambda [tryParseOption]: [None] when it returns [false]. *)
Definition tryParseOption (o : Options) (arg : wstr) : option Options :=
  if stringsEqual arg (W "/_v") || stringsEqual arg (W "-_v") then
    Some {| verbose := true; waitForDebugger := waitForDebugger o;
            helpRequested := helpRequested o |}
  else if stringsEqual arg (W "/_d") || stringsEqual arg (W "-_d") then
    Some {| verbose := verbose o; waitForDebugger := true;
            helpRequested := helpRequested o |}
  else if stringsEqual arg (W "/_h") || stringsEqual arg (W "-_h") then
    Some {| verbose := verbose o; waitForDebugger := waitForDebugger o;
            helpRequested := true |}
  else None.

(** The [while] loop of line 651: the options and the remaining arguments. *)
Fixpoint parse_options (o : Options) (newArgv : list wstr) : Options * list wstr :=
  match newArgv with
  | [] => (o, [])
  | arg :: rest =>
      match tryParseOption o arg with
      | Some o' => parse_options o' rest
      | None => (o, newArgv)
      end
  end.

(** The conversion of the [DWORD] exit code to the [int] that is returned. *)
Definition int_of_DWORD (d : DWORD) : Z :=
  let d := d mod 2 ^ 32 in
  if d <? 2 ^ 31 then d else d - 2 ^ 32.

Record MainResult : Type := mkMainResult {
  main_return : Z;
  (* what line 672 logs: "Execution succeeded" or "failed"; [None] when
     [TryRun] was not called *)
  main_success : option bool;
  main_events : list Event
}.

(** [wmain], given [argv[0]] and the other arguments. [None]: the process
    does not return from [wmain] (the pointer [wcsrchr(...) + 1] made from
    a null pointer is read at line 617, or a secure CRT routine fails). *)
Definition wmain (argv0 : wstr) (args : list wstr) : option MainResult :=
  let programPath := argv0 in
  match wcsrchr programPath (ch ".") with
  | None => None
  | Some dot =>
      let extension := skipn (S dot) programPath in
      if negb (wstr_eqb extension (W "exe")) then
        Some {| main_return := -1; main_success := None; main_events := [] |}
      else
        let programPath := firstn (S dot) programPath ++ W "dll" in
        let '(o, newArgv) :=
          parse_options
            {| verbose := false; waitForDebugger := false; helpRequested := false |}
            args in
        if helpRequested o then
          Some {| main_return := -1; main_success := None; main_events := [] |}
        else
          r <- TryRun newArgv programPath ;;
          Some {| main_return := int_of_DWORD (run_exitCode r);
                  main_success := Some (run_success r);
                  main_events := run_events r |}
  end.

(** ** Further definitions used by the properties *)

(** A sequence of calls of [Append], each with the length of its string. *)
Fixpoint Append_all (sb : StringBuffer) (strs : list wstr) : option StringBuffer :=
  match strs with
  | [] => Some sb
  | str :: rest =>
      sb <- Append sb str (wcslen str) ;;
      Append_all sb rest
  end.

(** The capacity of an allocated buffer is at least the default size and
    at most the default size plus twice the stored length: [Append] only
    doubles a capacity that the stored string has outgrown. *)
Definition capacity_ok (sb : StringBuffer) : Prop :=
  match m_buffer sb with
  | None => True
  | Some _ =>
      m_defaultSize <= m_capacity sb <= m_defaultSize + 2 * m_length sb
  end.

(** A state to run the functions of the list on: the list holds the given
    entries, in a buffer of the default size. *)
Definition host_with_list (entries : list (wstr * wstr)) : HostEnvironment :=
  {| m_hostPath := hello_exe;
     m_hostDirectoryPath := [];
     m_hostExeName := [];
     m_tpaList :=
       {| m_buffer :=
            Some (map Npos (flat entries) ++
                  repeat NUL (Z.to_nat (m_defaultSize - wcslen (flat entries))));
          m_capacity := m_defaultSize;
          m_length := wcslen (flat entries) |};
     m_CLRRuntimeHost := false;
     m_coreCLRModule := None;
     m_coreCLRDirectoryPath := rt_dir;
     tpa_entries := entries;
     events := [] |}.

(** The list that keeps, of a sequence of candidates, each one whose
    logical name no candidate kept before it has: first writer wins. *)
Definition keep_first (kept : list (wstr * wstr)) (candidate : wstr * wstr)
  : list (wstr * wstr) :=
  if existsb (wstr_eqb (logical_name candidate)) (map logical_name kept)
  then kept else kept ++ [candidate].

Definition first_writers (cs : list (wstr * wstr)) : list (wstr * wstr) :=
  fold_left keep_first cs [].

(** The searches that the scan of a list of directories makes. *)
Definition searches (dirs exts : list wstr) : list Event :=
  flat_map (fun targetPath =>
              map (fun ext => EvFindFirstFile (targetPath ++ ext)) exts) dirs.

(** The directories that [GetTpaList] scans. *)
Definition tpa_directories (he : HostEnvironment) : list wstr :=
  (if env_is_set (W "CORE_LIBRARIES")
   then [env_value (W "CORE_LIBRARIES") ++ BACKSLASH] else []) ++
  [m_coreCLRDirectoryPath he].

(** A state to run the build on: the state after the constructor, with
    the runtime in [rt_dir]. *)
Definition fresh_host : HostEnvironment :=
  {| m_hostPath := hello_exe;
     m_hostDirectoryPath := [];
     m_hostExeName := [];
     m_tpaList := StringBuffer_new;
     m_CLRRuntimeHost := false;
     m_coreCLRModule := None;
     m_coreCLRDirectoryPath := rt_dir;
     tpa_entries := [];
     events := [] |}.

(** The stages of a run: the calls of the runtime host, in the order of
    [TryRun]. *)
Inductive Stage : Type :=
  | StGetCLRRuntimeHost
  | StSetStartupFlags
  | StAuthenticate
  | StStart
  | StCreateAppDomain
  | StExecuteAssembly
  | StUnloadAppDomain
  | StStop
  | StRelease.

Definition stage_of (e : Event) : option Stage :=
  match e with
  | EvLoadLibrary _ | EvFindFirstFile _ => None
  | EvGetCLRRuntimeHost => Some StGetCLRRuntimeHost
  | EvSetStartupFlags => Some StSetStartupFlags
  | EvAuthenticate => Some StAuthenticate
  | EvStart => Some StStart
  | EvCreateAppDomain _ _ _ _ => Some StCreateAppDomain
  | EvExecuteAssembly _ _ _ => Some StExecuteAssembly
  | EvUnloadAppDomain _ => Some StUnloadAppDomain
  | EvStop => Some StStop
  | EvRelease => Some StRelease
  end.

Definition host_stages (evs : list Event) : list Stage :=
  flat_map (fun e => match stage_of e with Some s => [s] | None => [] end) evs.

(** Whether the call of a stage fails; [Release] returns no status. *)
Definition stage_fails (s : Stage) : bool :=
  match s with
  | StGetCLRRuntimeHost => FAILED (hr_GetCLRRuntimeHost os)
  | StSetStartupFlags => FAILED (hr_SetStartupFlags os)
  | StAuthenticate => FAILED (hr_Authenticate os)
  | StStart => FAILED (hr_Start os)
  | StCreateAppDomain => FAILED (hr_CreateAppDomainWithManager os)
  | StExecuteAssembly => FAILED (hr_ExecuteAssembly os)
  | StUnloadAppDomain => FAILED (hr_UnloadAppDomain os)
  | StStop => FAILED (hr_Stop os)
  | StRelease => false
  end.

Definition all_stages : list Stage :=
  [ StGetCLRRuntimeHost; StSetStartupFlags; StAuthenticate; StStart;
    StCreateAppDomain; StExecuteAssembly; StUnloadAppDomain; StStop; StRelease ].

(** The stages up to the first that fails, and with it. *)
Fixpoint until_failure (stages : list Stage) : list Stage :=
  match stages with
  | [] => []
  | s :: rest => s :: if stage_fails s then [] else until_failure rest
  end.

(** Whether [TryRun] comes to call the runtime host: the managed module
    loads, the runtime is loaded and exports [GetCLRRuntimeHost]. *)
Definition host_reachable (programPath : wstr) (he : HostEnvironment) : bool :=
  match LoadLibraryExW os programPath, m_coreCLRModule he with
  | Some _, Some module => GetProcAddress_GetCLRRuntimeHost os module
  | _, _ => false
  end.

(** The values of the properties of the domain (lines 480-489), for the
    managed module [module] and the list [tpa]. *)
Definition domain_values (he : HostEnvironment) (module : HMODULE)
  (tpa : option wstr) : list (option wstr) :=
  let appPath := GetFullPathName_dir os (GetModuleFileName_MAX_PATH module) in
  [ tpa;
    Some appPath;
    Some (appPath ++ W ";" ++ appPath);
    Some (appPath ++
          (if env_is_set (W "CORE_LIBRARIES")
           then W ";" ++ env_value (W "CORE_LIBRARIES") else []) ++
          W ";" ++ m_coreCLRDirectoryPath he) ].

(** The calls of [TryRun] from [GetCLRRuntimeHost] on, given the searches
    [found] that the build of the list makes and the list [tpa]. *)
Definition host_calls (he : HostEnvironment) (module : HMODULE)
  (argv : list wstr) (found : list wstr) (tpa : option wstr) : list Event :=
  EvGetCLRRuntimeHost ::
  if FAILED (hr_GetCLRRuntimeHost os) then [] else
  EvSetStartupFlags ::
  if FAILED (hr_SetStartupFlags os) then [] else
  EvAuthenticate ::
  if FAILED (hr_Authenticate os) then [] else
  EvStart ::
  if FAILED (hr_Start os) then [] else
  map EvFindFirstFile found ++
  EvCreateAppDomain (m_hostExeName he) 4 property_keys (domain_values he module tpa) ::
  if FAILED (hr_CreateAppDomainWithManager os) then [] else
  EvExecuteAssembly (created_domainId os) (GetModuleFileName_MAX_PATH module) argv ::
  post_execute (created_domainId os).

(** The members of the state that the build of the list leaves alone. *)
Definition other_members (he : HostEnvironment) :=
  (m_hostPath he, m_hostDirectoryPath he, m_hostExeName he,
   m_CLRRuntimeHost he, m_coreCLRModule he, m_coreCLRDirectoryPath he).

(** The tests of [tryParseOption], one for each option. *)
Definition is_verbose_option (arg : wstr) : bool :=
  stringsEqual arg (W "/_v") || stringsEqual arg (W "-_v").
Definition is_debug_option (arg : wstr) : bool :=
  stringsEqual arg (W "/_d") || stringsEqual arg (W "-_d").
Definition is_help_option (arg : wstr) : bool :=
  stringsEqual arg (W "/_h") || stringsEqual arg (W "-_h").

Definition is_option (arg : wstr) : bool :=
  is_verbose_option arg || is_debug_option arg || is_help_option arg.

Definition no_options : Options :=
  {| verbose := false; waitForDebugger := false; helpRequested := false |}.

(** * Properties *)

(** ** The error monad *)

Lemma bind_Some {A B} (m : option A) (k : A -> option B) (b : B) :
  bind m k = Some b -> exists a, m = Some a /\ k a = Some b.
Proof. destruct m as [a|]; simpl; [eauto | discriminate]. Qed.

Ltac inv_bind H :=
  let a := fresh "x" in
  let Ha := fresh "Hx" in
  apply bind_Some in H; destruct H as (a & Ha & H).

Tactic Notation "bind_inv" hyp(H) "as" simple_intropattern(a) ident(Ha) :=
  apply bind_Some in H; destruct H as (a & Ha & H).

(** ** The record of calls *)

Lemma add_found_file_events targetPath exts he data he' :
  add_found_file targetPath exts he data = Some he' -> events he' = events he.
Proof.
  unfold add_found_file. intros H.
  destruct (is_file data); [|congruence].
  inv_bind H. inv_bind H.
  destruct (negb x0); [|congruence].
  inv_bind H. inv_bind H. inv_bind H.
  injection H as <-. reflexivity.
Qed.

Lemma add_found_files_events targetPath exts found : forall he he',
  add_found_files targetPath exts he found = Some he' -> events he' = events he.
Proof.
  induction found as [|d found IH]; simpl; intros he he' H.
  - congruence.
  - inv_bind H. apply IH in H. rewrite H.
    eapply add_found_file_events; eauto.
Qed.

Lemma AddFiles_loop_events targetPath exts todo : forall he he',
  AddFiles_loop targetPath exts todo he = Some he' ->
  exists patterns, events he' = events he ++ map EvFindFirstFile patterns.
Proof.
  induction todo as [|ext todo IH]; simpl; intros he he' H.
  - exists []. simpl. rewrite app_nil_r. congruence.
  - inv_bind H. inv_bind H. inv_bind H.
    apply IH in H. destruct H as (ps & ->).
    apply add_found_files_events in Hx1. rewrite Hx1. simpl.
    exists (x0 :: ps). rewrite <- app_assoc. reflexivity.
Qed.

Lemma GetTpaList_events he tpa he' :
  GetTpaList he = Some (tpa, he') ->
  exists patterns, events he' = events he ++ map EvFindFirstFile patterns.
Proof.
  unfold GetTpaList, AddFilesFromDirectoryToTPAList. intros H.
  destruct (CStr (m_tpaList he)).
  - injection H as _ <-. exists []. simpl. now rewrite app_nil_r.
  - inv_bind H. inv_bind H. injection H as _ <-.
    apply AddFiles_loop_events in Hx0. destruct Hx0 as (ps2 & ->).
    destruct (env_is_set _).
    + inv_bind Hx. apply AddFiles_loop_events in Hx. destruct Hx as (ps1 & ->).
      exists (ps1 ++ ps2). now rewrite map_app, app_assoc.
    + injection Hx as <-. eauto.
Qed.

Lemma TryLoadCoreCLR_events dir evs m evs' :
  TryLoadCoreCLR dir evs = Some (m, evs') ->
  exists path, evs' = evs ++ [EvLoadLibrary path].
Proof.
  unfold TryLoadCoreCLR. intros H. inv_bind H. inv_bind H.
  exists x0.
  destruct (LoadLibraryExW os x0); [destruct (negb _)|]; congruence.
Qed.

Lemma HostEnvironment_new_inv he :
  HostEnvironment_new = Some he ->
  Forall pre_create_event (events he) /\
  m_tpaList he = StringBuffer_new /\ tpa_entries he = [] /\
  m_CLRRuntimeHost he = false.
Proof.
  unfold HostEnvironment_new. intros H.
  inv_bind H. inv_bind H. destruct x0 as [m1 evs1].
  inv_bind H. destruct x0 as [m2 evs2].
  injection H as <-. simpl. repeat split.
  assert (H1 : Forall pre_create_event evs1).
  { destruct (env_is_set _).
    - inv_bind Hx0. apply TryLoadCoreCLR_events in Hx0 as (p & ->).
      repeat constructor.
    - injection Hx0 as _ <-. constructor. }
  destruct m1.
  - injection Hx1 as _ <-. exact H1.
  - apply TryLoadCoreCLR_events in Hx1 as (p & ->).
    apply Forall_app. split; [exact H1 | repeat constructor].
Qed.

Lemma GetCLRRuntimeHost_events he host he' :
  GetCLRRuntimeHost he = (host, he') ->
  Forall pre_create_event (events he) ->
  Forall pre_create_event (events he') /\
  m_tpaList he' = m_tpaList he /\ tpa_entries he' = tpa_entries he /\
  m_hostExeName he' = m_hostExeName he /\
  m_coreCLRDirectoryPath he' = m_coreCLRDirectoryPath he /\
  (host = true -> m_coreCLRModule he <> None \/ m_CLRRuntimeHost he = true).
Proof.
  unfold GetCLRRuntimeHost. intros H F.
  destruct (m_CLRRuntimeHost he) eqn:E; simpl in H.
  - injection H as <- <-. auto 10.
  - destruct (m_coreCLRModule he) eqn:M.
    + destruct (negb _).
      * injection H as <- <-. repeat split; auto; discriminate.
      * destruct (FAILED _); injection H as <- <-; simpl;
          (repeat split; auto; try (left; discriminate));
          apply Forall_app; split; auto; repeat constructor.
    + injection H as <- <-. repeat split; auto; discriminate.
Qed.

Lemma Forall_snoc {A} (P : A -> Prop) l x :
  Forall P l -> P x -> Forall P (l ++ [x]).
Proof. intros. apply Forall_app. split; auto. Qed.

(** The shape of every run: the calls before the creation of the domain,
    then either a stop (an earlier stage failed), or the failed creation,
    or the creation followed by the execution and what follows it. *)
Lemma TryRun_shape argv programPath r :
  TryRun argv programPath = Some r ->
  exists pre, Forall pre_create_event pre /\
    ((run_events r = pre /\ run_success r = false /\
      run_exitCode r = DWORD_minus_one) \/
     (exists name values,
        run_events r = pre ++ [EvCreateAppDomain name 4 property_keys values] /\
        FAILED (hr_CreateAppDomainWithManager os) = true /\
        run_success r = false /\ run_exitCode r = DWORD_minus_one) \/
     (exists name values assembly,
        run_events r =
          pre ++ EvCreateAppDomain name 4 property_keys values ::
                 EvExecuteAssembly (created_domainId os) assembly argv ::
                 post_execute (created_domainId os) /\
        FAILED (hr_CreateAppDomainWithManager os) = false /\
        run_success r = teardown_ok /\ run_exitCode r = exit_after_execute)).
Proof.
  unfold TryRun, run_return. intros H. inv_bind H.
  apply HostEnvironment_new_inv in Hx as (F & _).
  assert (F1 : Forall pre_create_event (events (log_event (EvLoadLibrary programPath) x)))
    by (simpl; apply Forall_snoc; simpl; auto).
  destruct (LoadLibraryExW os programPath) as [module|].
  2:{ injection H as <-. eexists; split; [exact F1|]. left. auto. }
  destruct (GetCLRRuntimeHost _) as [host he] eqn:G.
  apply GetCLRRuntimeHost_events in G as (F2 & _); [|exact F1].
  destruct host; simpl in H.
  2:{ injection H as <-. eexists; split; [exact F2|]. left. auto. }
  destruct (FAILED (hr_SetStartupFlags os)).
  { injection H as <-. eexists; split; [|left; simpl; eauto].
    apply Forall_snoc; simpl; auto. }
  destruct (FAILED (hr_Authenticate os)).
  { injection H as <-. eexists; split; [|left; simpl; eauto].
    repeat (apply Forall_snoc; simpl; auto). }
  destruct (FAILED (hr_Start os)).
  { injection H as <-. eexists; split; [|left; simpl; eauto].
    repeat (apply Forall_snoc; simpl; auto). }
  inv_bind H. destruct x0 as [tpa he2].
  apply GetTpaList_events in Hx as (ps & E). simpl in E.
  exists (events he2). split.
  { rewrite E. apply Forall_app. split.
    - repeat (apply Forall_snoc; simpl; auto).
    - clear. induction ps; simpl; constructor; simpl; auto. }
  unfold post_execute, teardown_ok, exit_after_execute.
  destruct (FAILED (hr_CreateAppDomainWithManager os)).
  { injection H as <-. right. left. simpl. eauto 10. }
  right. right.
  destruct (FAILED (hr_ExecuteAssembly os)).
  { injection H as <-. simpl. do 3 eexists. split; [|auto].
    rewrite <- app_assoc. reflexivity. }
  destruct (FAILED (hr_UnloadAppDomain os)).
  { injection H as <-. simpl. do 3 eexists. split; [|auto].
    rewrite <- !app_assoc. reflexivity. }
  destruct (FAILED (hr_Stop os)).
  { injection H as <-. simpl. do 3 eexists. split; [|auto].
    rewrite <- !app_assoc. reflexivity. }
  injection H as <-. simpl. do 3 eexists. split; [|auto].
  rewrite <- !app_assoc. reflexivity.
Qed.

Lemma filter_pre_create pre :
  Forall pre_create_event pre -> filter is_teardown_event pre = [].
Proof.
  induction 1 as [|e pre He _ IH]; simpl; [reflexivity|].
  destruct e; simpl in *; tauto.
Qed.

Lemma filter_post_execute id :
  filter is_teardown_event (post_execute id) = post_execute id.
Proof.
  unfold post_execute.
  destruct (FAILED (hr_ExecuteAssembly os)), (FAILED (hr_UnloadAppDomain os)),
    (FAILED (hr_Stop os)); reflexivity.
Qed.

Lemma pre_create_not_create pre name n keys values :
  Forall pre_create_event pre -> ~ In (EvCreateAppDomain name n keys values) pre.
Proof.
  intros F HIn. rewrite Forall_forall in F. apply F in HIn. exact HIn.
Qed.


(** C2 (as amended). Once the domain has been created, the calls of the
    teardown (unload, stop, release) that the run makes are exactly those of
    [post_execute]: none when [ExecuteAssembly] fails, the unload alone when
    the unload fails, the unload and the stop when the stop fails; and the
    run succeeds only when the execution, the unload and the stop all
    succeed, so a failure of the teardown is reported. *)
Theorem teardown_follows_successful_execute argv programPath r name n keys values
  (Hrun : TryRun argv programPath = Some r)
  (Hcreated : In (EvCreateAppDomain name n keys values) (run_events r))
  (Hok : FAILED (hr_CreateAppDomainWithManager os) = false) :
  filter is_teardown_event (run_events r) = post_execute (created_domainId os) /\
  run_success r = teardown_ok.
Proof.
  apply TryRun_shape in Hrun as (pre & F & [C | [C | C]]).
  - destruct C as (E & _). rewrite E in Hcreated.
    now apply pre_create_not_create in Hcreated.
  - destruct C as (? & ? & _ & Hf & _). congruence.
  - destruct C as (nm & vs & asm & E & _ & S & _). split; [|exact S].
    rewrite E, filter_app, (filter_pre_create _ F). simpl.
    apply filter_post_execute.
Qed.


(** The keys and the count that [CreateAppDomainWithManager] receives are
    those of [property_keys], in every run that makes the call. *)
Lemma created_domain_keys argv programPath r name n keys values :
  TryRun argv programPath = Some r ->
  In (EvCreateAppDomain name n keys values) (run_events r) ->
  n = 4 /\ keys = property_keys.
Proof.
  intros Hrun HIn.
  apply TryRun_shape in Hrun as (pre & F & [C | [C | C]]).
  - destruct C as (E & _). rewrite E in HIn.
    now apply pre_create_not_create in HIn.
  - destruct C as (? & ? & E & _). rewrite E in HIn.
    apply in_app_or in HIn as [H | [H | []]].
    + now apply pre_create_not_create in H.
    + injection H as _ <- <- _. auto.
  - destruct C as (nm & vs & asm & E & _). rewrite E in HIn.
    apply in_app_or in HIn as [H | [H | [H | H]]].
    + now apply pre_create_not_create in H.
    + injection H as _ <- <- _. auto.
    + discriminate.
    + exfalso. revert H. unfold post_execute.
      destruct (FAILED (hr_ExecuteAssembly os)), (FAILED (hr_UnloadAppDomain os)),
        (FAILED (hr_Stop os)); simpl; intuition discriminate.
Qed.

(** What [wmain] returns when it returns: -1 when the extension is not
    "exe", when help is requested and when no exit code was captured; the
    exit code of the hosted program when the run succeeds. *)
Lemma wmain_return_codes argv0 args r :
  wmain argv0 args = Some r ->
  (forall dot, wcsrchr argv0 (ch ".") = Some dot ->
     wstr_eqb (skipn (S dot) argv0) (W "exe") = false -> main_return r = -1) /\
  (helpRequested
     (fst (parse_options
             {| verbose := false; waitForDebugger := false; helpRequested := false |}
             args)) = true ->
   main_return r = -1) /\
  ((forall id assembly argv, ~ In (EvExecuteAssembly id assembly argv) (main_events r)) ->
   main_return r = -1) /\
  (main_success r = Some true ->
   main_return r = int_of_DWORD exit_after_execute).
Proof.
  unfold wmain. intros H. split.
  { intros dot Hd Hf. rewrite Hd, Hf in H. simpl in H.
    injection H as <-. reflexivity. }
  destruct (wcsrchr argv0 (ch ".")) as [dot|]; [|discriminate].
  destruct (wstr_eqb (skipn (S dot) argv0) (W "exe")) eqn:X; simpl in H.
  2:{ injection H as <-. simpl. repeat split; auto. discriminate. }
  destruct (parse_options _ args) as [o newArgv]. simpl.
  destruct (helpRequested o) eqn:Hh.
  { injection H as <-. simpl. repeat split; auto. discriminate. }
  inv_bind H. injection H as <-. simpl.
  split; [discriminate|].
  apply TryRun_shape in Hx as (pre & F & [C | [C | C]]).
  - destruct C as (_ & S & X1). rewrite S, X1.
    split; [reflexivity | discriminate].
  - destruct C as (? & ? & _ & _ & S & X1). rewrite S, X1.
    split; [reflexivity | discriminate].
  - destruct C as (nm & vs & asm & E & _ & S & X1). rewrite X1. split.
    + intros Hno. exfalso. eapply Hno. rewrite E.
      apply in_or_app. right. right. left. reflexivity.
    + reflexivity.
Qed.

(** ** Runtime discovery *)

Lemma fits_Some size s s' : fits size s = Some s' -> s' = s /\ wcslen s < size.
Proof.
  unfold fits. destruct (wcslen s <? size) eqn:E; [|discriminate].
  intros [= <-]. split; [reflexivity | lia].
Qed.

Lemma wcscat_s_Some size a b s :
  wcscat_s size a b = Some s -> s = a ++ b /\ wcslen (a ++ b) < size.
Proof. apply fits_Some. Qed.

Lemma TryLoadCoreCLR_Some dir evs m evs' :
  TryLoadCoreCLR dir evs = Some (m, evs') ->
  m = load_and_pin (dir ++ coreCLRDll) /\
  evs' = evs ++ [EvLoadLibrary (dir ++ coreCLRDll)].
Proof.
  unfold TryLoadCoreCLR, load_and_pin. intros H.
  inv_bind H. apply fits_Some in Hx as (-> & _).
  inv_bind H. apply wcscat_s_Some in Hx as (-> & _).
  destruct (LoadLibraryExW os _); [destruct (GetModuleHandleExW_pin os _)|];
    simpl in H; injection H as <- <-; auto.
Qed.

(** C8 (as amended). The constructor tries the directory of CORE_ROOT
    first, exactly when [_wgetenv_s] finds the variable (it returns 0 and
    [outSize > 0], which counts the terminator: a variable set to the empty
    string is found); it tries the directory of the host when that attempt
    fails or is not made; the runtime directory is the directory of the path
    of the module that was loaded; and when both attempts fail no module is
    kept, and the run fails before any call of the runtime host, with the
    exit code -1. *)
Theorem runtime_discovery he (Hnew : HostEnvironment_new = Some he) :
  let override := (env_value (W "CORE_ROOT") ++ BACKSLASH) ++ coreCLRDll in
  let beside_host := m_hostDirectoryPath he ++ coreCLRDll in
  events he =
    (if env_is_set (W "CORE_ROOT") then
       EvLoadLibrary override ::
       match load_and_pin override with
       | Some _ => []
       | None => [EvLoadLibrary beside_host]
       end
     else [EvLoadLibrary beside_host]) /\
  m_coreCLRModule he =
    (if env_is_set (W "CORE_ROOT") then
       match load_and_pin override with
       | Some module => Some module
       | None => load_and_pin beside_host
       end
     else load_and_pin beside_host) /\
  (forall module, m_coreCLRModule he = Some module ->
     m_coreCLRDirectoryPath he = directory_of (GetModuleFileName_MAX_PATH module)) /\
  (m_coreCLRModule he = None ->
   forall argv programPath r, TryRun argv programPath = Some r ->
     run_success r = false /\ run_exitCode r = DWORD_minus_one /\
     run_events r = events he ++ [EvLoadLibrary programPath]).
Proof.
  intros override beside_host. subst override beside_host.
  assert (Hkeep := Hnew).
  unfold HostEnvironment_new in Hnew.
  bind_inv Hnew as hostDir Hdir. apply fits_Some in Hdir as (-> & _).
  bind_inv Hnew as [m1 evs1] H1.
  bind_inv Hnew as [m2 evs2] H2.
  injection Hnew as <-. cbn [events m_coreCLRModule m_hostDirectoryPath
    m_coreCLRDirectoryPath].
  assert (Hm : (evs2, m2) =
    (if env_is_set (W "CORE_ROOT") then
       (EvLoadLibrary ((env_value (W "CORE_ROOT") ++ BACKSLASH) ++ coreCLRDll) ::
        match load_and_pin ((env_value (W "CORE_ROOT") ++ BACKSLASH) ++ coreCLRDll) with
        | Some _ => []
        | None => [EvLoadLibrary
            (take (lastBackslashIndex (take (MAX_PATH - 1) (host_module_path os)) + 1)
               (take (MAX_PATH - 1) (host_module_path os)) ++ coreCLRDll)]
        end,
        match load_and_pin ((env_value (W "CORE_ROOT") ++ BACKSLASH) ++ coreCLRDll) with
        | Some module => Some module
        | None => load_and_pin
            (take (lastBackslashIndex (take (MAX_PATH - 1) (host_module_path os)) + 1)
               (take (MAX_PATH - 1) (host_module_path os)) ++ coreCLRDll)
        end)
     else ([EvLoadLibrary
            (take (lastBackslashIndex (take (MAX_PATH - 1) (host_module_path os)) + 1)
               (take (MAX_PATH - 1) (host_module_path os)) ++ coreCLRDll)],
           load_and_pin
            (take (lastBackslashIndex (take (MAX_PATH - 1) (host_module_path os)) + 1)
               (take (MAX_PATH - 1) (host_module_path os)) ++ coreCLRDll)))).
  { destruct (env_is_set (W "CORE_ROOT")).
    - bind_inv H1 as coreRoot Hroot. apply wcscat_s_Some in Hroot as (-> & _).
      apply TryLoadCoreCLR_Some in H1 as (-> & ->).
      destruct (load_and_pin _).
      + injection H2 as <- <-. reflexivity.
      + apply TryLoadCoreCLR_Some in H2 as (-> & ->). reflexivity.
    - injection H1 as <- <-.
      apply TryLoadCoreCLR_Some in H2 as (-> & ->). reflexivity. }
  assert (He : evs2 = fst (evs2, m2)) by reflexivity.
  assert (Hmod : m2 = snd (evs2, m2)) by reflexivity.
  rewrite Hm in He, Hmod. clear Hm.
  split; [rewrite He; destruct (env_is_set _); reflexivity|].
  split; [rewrite Hmod; destruct (env_is_set _); reflexivity|].
  clear He Hmod. split.
  - intros module ->. reflexivity.
  - intros ->. intros argv programPath r Hrun.
    unfold TryRun in Hrun. rewrite Hkeep in Hrun. simpl in Hrun.
    destruct (LoadLibraryExW os programPath);
      unfold run_return in Hrun; simpl in Hrun;
      injection Hrun as <-; auto.
Qed.

(** ** StringBuffer *)

(** Linear arithmetic on lengths of wide strings. *)
Ltac zlen := unfold wcslen, wstr, wchar in *; lia.

Lemma cstr_app_nul s rest : cstr (map Npos s ++ NUL :: rest) = s.
Proof. induction s as [|c s IH]; simpl; [reflexivity | now rewrite IH]. Qed.

Lemma firstn_cstr cells : firstn (length (cstr cells)) cells = map Npos (cstr cells).
Proof.
  induction cells as [|[|p] cells IH]; simpl; try reflexivity.
  now rewrite IH.
Qed.

Lemma take_wcslen (s : wstr) : take (wcslen s) s = s.
Proof. unfold take, wcslen. rewrite Nat2Z.id. apply firstn_all. Qed.

Lemma take_app_exact {A} (a b : list A) n :
  n = Z.of_nat (length a) -> take n (a ++ b) = a.
Proof.
  intros ->. unfold take. rewrite Nat2Z.id.
  rewrite firstn_app, Nat.sub_diag, firstn_all. simpl. apply app_nil_r.
Qed.

Lemma length_take {A} (l : list A) n :
  0 <= n <= Z.of_nat (length l) -> Z.of_nat (length (take n l)) = n.
Proof. intros H. unfold take. rewrite length_firstn. lia. Qed.

Lemma length_drop {A} (l : list A) n :
  0 <= n <= Z.of_nat (length l) ->
  Z.of_nat (length (drop n l)) = Z.of_nat (length l) - n.
Proof. intros H. unfold drop. rewrite length_skipn. lia. Qed.

(** A write of [str] and its terminator at offset [len], where the array
    holds [content] in its first [len] cells. *)
Lemma wcsncpy_s_at_end cells len destsz content str :
  take len cells = map Npos content ->
  wcslen content = len ->
  len + wcslen str + 1 <= Z.of_nat (length cells) ->
  wcslen str < destsz ->
  exists out,
    wcsncpy_s cells len destsz str (wcslen str) = Some out /\
    out = map Npos (content ++ str) ++ NUL :: drop (len + wcslen str + 1) cells /\
    cstr out = content ++ str /\
    length out = length cells.
Proof.
  intros Htake Hlen Hroom Hsz. unfold wcsncpy_s.
  rewrite Z.min_id.
  destruct (wcslen str <? destsz) eqn:E; [|lia].
  eexists. split; [reflexivity|].
  rewrite Htake, take_wcslen.
  assert (Hout : map Npos content ++ map Npos str ++ [NUL] ++
                   drop (len + wcslen str + 1) cells =
                 map Npos (content ++ str) ++ NUL :: drop (len + wcslen str + 1) cells).
  { rewrite map_app, <- app_assoc. reflexivity. }
  rewrite Hout. split; [reflexivity|]. split; [apply cstr_app_nul|].
  unfold wcslen, wstr, wchar in *.
  apply Nat2Z.inj. rewrite length_app, length_map. simpl length.
  rewrite Nat2Z.inj_add, Nat2Z.inj_succ, length_drop, length_app by lia.
  lia.
Qed.

Lemma size_add_small a b : 0 <= a + b < SIZE_MOD -> size_add a b = a + b.
Proof. intros H. unfold size_add. now apply Z.mod_small. Qed.

Lemma size_sub_small a b : 0 <= a - b < SIZE_MOD -> size_sub a b = a - b.
Proof. intros H. unfold size_sub. now apply Z.mod_small. Qed.

Lemma size_mul_bound a b : 0 <= size_mul a b < SIZE_MOD.
Proof. unfold size_mul. apply Z.mod_pos_bound. reflexivity. Qed.

Lemma length_new_wchar n : 0 <= n -> Z.of_nat (length (new_wchar n)) = n.
Proof. intros H. unfold new_wchar. rewrite repeat_length. lia. Qed.

(** What the invariant gives on the array that [Append] works on. *)
Lemma ensure_buffer_facts sb :
  buffer_ok sb ->
  let cells := fst (ensure_buffer sb) in
  let cap := capacity_before sb in
  let len := m_length sb in
  take len cells = map Npos (contents sb) /\
  wcslen (contents sb) = len /\
  Z.of_nat (length cells) = cap /\
  cap < SIZE_MOD /\ len < cap /\
  Z.min len (wcslen (cstr cells)) = len /\
  take len (cstr cells) = contents sb.
Proof.
  unfold buffer_ok, capacity_before, ensure_buffer, contents.
  destruct (m_buffer sb) as [cells|]; simpl.
  - intros (Hc & Hm & Hl & Hlt). rewrite <- Hl.
    repeat split; auto; try lia.
    + unfold take, wcslen. rewrite Nat2Z.id. apply firstn_cstr.
    + apply take_wcslen.
  - intros ->. repeat split; try reflexivity.
    unfold wcslen. lia.
Qed.

(** The effect of [Append] on a well-formed buffer when the string fits in
    the capacity that the call ends with. *)
Lemma Append_spec sb str :
  buffer_ok sb ->
  m_length sb + wcslen str + 1 <= capacity_after sb (wcslen str) ->
  exists sb',
    Append sb str (wcslen str) = Some sb' /\
    m_buffer sb' <> None /\
    contents sb' = contents sb ++ str /\
    m_length sb' = m_length sb + wcslen str /\
    m_capacity sb' = capacity_after sb (wcslen str) /\
    buffer_ok sb'.
Proof.
  intros Hok Hfit.
  destruct (ensure_buffer_facts sb Hok) as (Htake & Hlen & Hcells & Hcap & Hlt & Hmin & Hsrc).
  unfold capacity_after in *. unfold Append, capacity_before in *.
  destruct (ensure_buffer sb) as [cells cap]. simpl in *.
  assert (H0 : 0 <= m_length sb) by (rewrite <- Hlen; unfold wcslen; lia).
  assert (Hs : 0 <= wcslen str) by (unfold wcslen; lia).
  assert (Hcapf : (if needs_growth (m_length sb) (wcslen str) cap
                   then size_mul cap 2 else cap) < SIZE_MOD).
  { destruct (needs_growth _ _ _); [apply size_mul_bound | exact Hcap]. }
  assert (Hbound : m_length sb + wcslen str + 1 < SIZE_MOD)
    by (eapply Z.le_lt_trans; [exact Hfit | exact Hcapf]).
  clear Hcapf.
  assert (Hsum : size_add (m_length sb) (wcslen str) = m_length sb + wcslen str)
    by (apply size_add_small; clear - H0 Hs Hbound; lia).
  destruct (needs_growth (m_length sb) (wcslen str) cap) eqn:G.
  - (* the buffer grows *)
    pose proof (size_mul_bound cap 2) as Hnew.
    set (newCap := size_mul cap 2) in *.
    unfold wcsncpy_s at 1. rewrite Hmin, Hsrc.
    destruct (m_length sb <? newCap) eqn:E; [|zlen].
    change (take 0 (new_wchar newCap)) with (@nil N). cbn [app].
    set (newBuffer := map Npos (contents sb) ++
                      NUL :: drop (0 + m_length sb + 1) (new_wchar newCap)).
    assert (Hnb : Z.of_nat (length newBuffer) = newCap).
    { subst newBuffer. rewrite length_app, length_map. simpl length.
      rewrite Nat2Z.inj_add, Nat2Z.inj_succ, length_drop;
        rewrite ?length_new_wchar; zlen. }
    destruct (wcsncpy_s_at_end newBuffer (m_length sb) (size_sub newCap (m_length sb))
                (contents sb) str) as (out & -> & _ & Hstr & Hout); auto.
    { subst newBuffer. apply take_app_exact. rewrite length_map.
      zlen. }
    { zlen. }
    { rewrite size_sub_small; zlen. }
    eexists. split; [reflexivity|]. simpl.
    split; [discriminate|]. split; [exact Hstr|]. split; [exact Hsum|].
    split; [reflexivity|].
    unfold buffer_ok. simpl. rewrite Hstr, Hout, Hsum.
    repeat split; try zlen. unfold wcslen in *. rewrite length_app. zlen.
  - (* it does not *)
    destruct (wcsncpy_s_at_end cells (m_length sb) (size_sub cap (m_length sb))
                (contents sb) str) as (out & -> & _ & Hstr & Hout); auto.
    { zlen. }
    { rewrite size_sub_small; zlen. }
    eexists. split; [reflexivity|]. simpl.
    split; [discriminate|]. split; [exact Hstr|]. split; [exact Hsum|].
    split; [reflexivity|].
    unfold buffer_ok. simpl. rewrite Hstr, Hout, Hsum.
    repeat split; try zlen. unfold wcslen in *. rewrite length_app. zlen.
Qed.


(** When [Append] returns on a well-formed buffer, the string did fit. *)
Lemma Append_Some_fit sb str sb' :
  buffer_ok sb ->
  Append sb str (wcslen str) = Some sb' ->
  m_length sb + wcslen str + 1 <= capacity_after sb (wcslen str).
Proof.
  intros Hok HA.
  destruct (ensure_buffer_facts sb Hok) as (_ & Hlen & Hcells & Hcap & Hlt & Hmin & _).
  unfold capacity_after, capacity_before in *. unfold Append in HA.
  destruct (ensure_buffer sb) as [cells cap]. simpl in *.
  assert (H0 : 0 <= m_length sb) by zlen.
  destruct (needs_growth (m_length sb) (wcslen str) cap).
  - pose proof (size_mul_bound cap 2) as Hnew.
    unfold wcsncpy_s in HA. rewrite Hmin, Z.min_id in HA.
    destruct (m_length sb <? size_mul cap 2) eqn:E1; [|discriminate].
    destruct (wcslen str <? size_sub (size_mul cap 2) (m_length sb)) eqn:E2;
      [|discriminate].
    rewrite size_sub_small in E2; lia.
  - unfold wcsncpy_s in HA. rewrite Z.min_id in HA.
    destruct (wcslen str <? size_sub cap (m_length sb)) eqn:E2; [|discriminate].
    rewrite size_sub_small in E2; lia.
Qed.

Lemma Append_Some sb str sb' :
  buffer_ok sb ->
  Append sb str (wcslen str) = Some sb' ->
  m_buffer sb' <> None /\ contents sb' = contents sb ++ str /\ buffer_ok sb'.
Proof.
  intros Hok HA.
  destruct (Append_spec sb str Hok (Append_Some_fit _ _ _ Hok HA))
    as (sb2 & HA2 & Hb & Hc & _ & _ & Hok2).
  rewrite HA in HA2. injection HA2 as <-. auto.
Qed.

(** ** The TPA list: one found file *)

Lemma wcslen_app (a b : wstr) : wcslen (a ++ b) = wcslen a + wcslen b.
Proof. unfold wcslen. rewrite length_app. lia. Qed.

Lemma flat_snoc entries entry :
  flat (entries ++ [entry]) = flat entries ++ tpa_path entry ++ W ";".
Proof.
  unfold flat. rewrite map_app, concat_app. simpl. now rewrite app_nil_r.
Qed.

(** What [add_found_file] does when it returns: nothing, for a directory
    or a name that [TPAListContainsFile] finds; otherwise it appends the
    path and a semicolon. *)
Lemma add_found_file_cases targetPath exts he data he' :
  tpa_ok he ->
  add_found_file targetPath exts he data = Some he' ->
  let name := map towlower (cFileName data) in
  (he' = he /\
   (is_file data = false \/
    TPAListContainsFile he (RemoveExtensionAndNi name) exts = Some true)) \/
  (is_file data = true /\
   TPAListContainsFile he (RemoveExtensionAndNi name) exts = Some false /\
   tpa_entries he' = tpa_entries he ++ [(targetPath, name)] /\
   m_buffer (m_tpaList he') <> None /\
   tpa_ok he' /\
   events he' = events he /\
   m_coreCLRDirectoryPath he' = m_coreCLRDirectoryPath he).
Proof.
  intros (Hok & Hflat & Hnil) H name.
  unfold add_found_file in H. fold name in H.
  destruct (is_file data); [|injection H as <-; auto].
  bind_inv H as name' Hfit. apply fits_Some in Hfit as (-> & _).
  bind_inv H as present Hpresent.
  destruct present; simpl in H; [injection H as <-; auto|].
  bind_inv H as fileNameBuffer Hbuf. apply fits_Some in Hbuf as (-> & _).
  rewrite take_wcslen in H.
  bind_inv H as sb1 HA1. bind_inv H as sb2 HA2.
  injection H as <-. right.
  rewrite <- wcslen_app in HA1.
  apply Append_Some in HA1 as (_ & Hc1 & Hok1); [|exact Hok].
  change 1 with (wcslen (W ";")) in HA2.
  apply Append_Some in HA2 as (Hb2 & Hc2 & Hok2); [|exact Hok1].
  repeat split; auto; simpl.
  - rewrite Hc2, Hc1, Hflat, flat_snoc. unfold tpa_path. simpl.
    now rewrite <- !app_assoc.
  - intros E. now rewrite E in Hb2.
Qed.

Lemma wcslen_map_towlower (s : wstr) : wcslen (map towlower s) = wcslen s.
Proof. unfold wcslen. now rewrite length_map. Qed.

Lemma fits_ok size s : wcslen s < size -> fits size s = Some s.
Proof. intros H. unfold fits. destruct (wcslen s <? size) eqn:E; [reflexivity | lia]. Qed.

Lemma capacity_after_small sb n :
  0 <= m_length sb -> 0 <= n ->
  m_length sb + n + 1 <= capacity_before sb -> capacity_before sb < SIZE_MOD ->
  capacity_after sb n = capacity_before sb.
Proof.
  intros H0 Hn Hle Hcap. unfold capacity_after, needs_growth.
  rewrite !size_add_small by (try rewrite size_add_small; lia).
  destruct (_ >? _) eqn:E; [lia | reflexivity].
Qed.

(** A directory that matches a pattern is passed over. *)
Lemma add_found_file_directory targetPath exts he data :
  is_file data = false -> add_found_file targetPath exts he data = Some he.
Proof. intros H. unfold add_found_file. now rewrite H. Qed.

(** C10. While the buffer of the list is still null, [TPAListContainsFile]
    returns false; so a matched file that is not a directory is appended:
    the call returns (the path fits in [MAX_PATH]), and the list then ends
    with the path of the file. *)
Theorem first_file_is_appended targetPath exts he data
  (Hempty : CStr (m_tpaList he) = None)
  (Hok : buffer_ok (m_tpaList he))
  (Hfile : is_file data = true)
  (Hlen : wcslen targetPath + wcslen (cFileName data) < MAX_PATH) :
  let name := map towlower (cFileName data) in
  TPAListContainsFile he (RemoveExtensionAndNi name) exts = Some false /\
  exists he',
    add_found_file targetPath exts he data = Some he' /\
    tpa_entries he' = tpa_entries he ++ [(targetPath, name)] /\
    CStr (m_tpaList he') = Some (targetPath ++ name ++ W ";").
Proof.
  intros name.
  assert (Hfalse : forall n, TPAListContainsFile he n exts = Some false)
    by (intros n; unfold TPAListContainsFile; now rewrite Hempty).
  split; [apply Hfalse|].
  assert (Hnull : m_buffer (m_tpaList he) = None)
    by (unfold CStr in Hempty; destruct (m_buffer (m_tpaList he)); [discriminate | reflexivity]).
  assert (Hzero : m_length (m_tpaList he) = 0)
    by (unfold buffer_ok in Hok; now rewrite Hnull in Hok).
  assert (Hname : wcslen name = wcslen (cFileName data))
    by apply wcslen_map_towlower.
  assert (Hd : 0 <= wcslen targetPath) by zlen.
  assert (Hn : 0 <= wcslen name) by zlen.
  assert (Hcb : capacity_before (m_tpaList he) = 4096)
    by (unfold capacity_before, ensure_buffer; now rewrite Hnull).
  unfold MAX_PATH in Hlen.
  destruct (Append_spec (m_tpaList he) (targetPath ++ name) Hok)
    as (sb1 & HA1 & Hb1 & Hc1 & Hl1 & Hcap1 & Hok1).
  { rewrite capacity_after_small; rewrite ?Hcb, ?Hzero, ?wcslen_app;
      unfold SIZE_MOD; try lia; zlen. }
  rewrite capacity_after_small in Hcap1
    by (rewrite ?Hcb, ?Hzero, ?wcslen_app; unfold SIZE_MOD; try lia; zlen).
  assert (Hcb1 : capacity_before sb1 = 4096).
  { unfold capacity_before, ensure_buffer.
    destruct (m_buffer sb1); [simpl; congruence | congruence]. }
  rewrite Hzero, wcslen_app in Hl1.
  destruct (Append_spec sb1 (W ";") Hok1)
    as (sb2 & HA2 & Hb2 & Hc2 & _ & _ & _).
  { change (wcslen (W ";")) with 1.
    rewrite capacity_after_small; rewrite ?Hcb1, ?Hl1; unfold SIZE_MOD; lia. }
  exists (set_tpaList sb2 (targetPath, name) he).
  split.
  - unfold add_found_file. rewrite Hfile. fold name.
    rewrite fits_ok by (unfold MAX_PATH; zlen). cbn [bind].
    rewrite Hfalse. cbn [bind negb].
    rewrite take_wcslen.
    rewrite fits_ok by (unfold MAX_PATH; zlen). cbn [bind].
    rewrite <- wcslen_app, HA1. cbn [bind].
    change 1 with (wcslen (W ";")). rewrite HA2. reflexivity.
  - split; [reflexivity|]. simpl. unfold CStr, contents in *.
    destruct (m_buffer sb2); [|congruence]. simpl.
    rewrite Hc2, Hc1, Hnull. simpl. now rewrite <- app_assoc.
Qed.

(** ** Searching the list *)

Lemma wchar_eqb_eq a b : wchar_eqb a b = true <-> a = b.
Proof. apply Pos.eqb_eq. Qed.

Lemma is_prefix_app p post : is_prefix p (p ++ post) = true.
Proof.
  induction p as [|c p IH]; simpl; [reflexivity|].
  rewrite IH, andb_true_r. now apply wchar_eqb_eq.
Qed.

Lemma is_prefix_elim p : forall s,
  is_prefix p s = true -> exists post, s = p ++ post.
Proof.
  induction p as [|c p IH]; intros s H; simpl in *.
  - now exists s.
  - destruct s as [|c' s]; [discriminate|].
    apply andb_true_iff in H as (Hc & Hp).
    apply wchar_eqb_eq in Hc as ->.
    destruct (IH _ Hp) as (post & ->). now exists post.
Qed.

Lemma wcsstr_intro pre needle post : wcsstr (pre ++ needle ++ post) needle = true.
Proof.
  induction pre as [|c pre IH]; simpl.
  - assert (U : forall hay, is_prefix needle hay = true -> wcsstr hay needle = true)
      by (intros [|x hay] Hp; simpl; rewrite Hp; reflexivity).
    apply U, is_prefix_app.
  - rewrite IH. apply orb_true_r.
Qed.

Lemma wcsstr_elim needle : forall hay,
  wcsstr hay needle = true -> exists pre post, hay = pre ++ needle ++ post.
Proof.
  induction hay as [|c hay IH]; simpl; intros H.
  - rewrite orb_false_r in H. apply is_prefix_elim in H as (post & ->).
    now exists [], post.
  - apply orb_true_iff in H as [H | H].
    + apply is_prefix_elim in H as (post & ->). now exists [], post.
    + destruct (IH H) as (pre & post & ->). now exists (c :: pre), post.
Qed.

Lemma TPAListContainsFile_loop_spec tpa name exts b :
  TPAListContainsFile_loop tpa name exts = Some b ->
  b = existsb (fun ext => wcsstr tpa (needle name ext)) exts.
Proof.
  revert b.
  induction exts as [|ext exts IH]; intros b H;
    cbn [TPAListContainsFile_loop existsb] in *.
  - congruence.
  - bind_inv H as f1 H1. apply fits_Some in H1 as (-> & _).
    bind_inv H as f2 H2. apply wcscat_s_Some in H2 as (-> & _).
    bind_inv H as f3 H3. apply wcscat_s_Some in H3 as (-> & _).
    bind_inv H as f4 H4. apply wcscat_s_Some in H4 as (-> & _).
    fold (needle name ext) in H.
    destruct (wcsstr tpa (needle name ext)); simpl.
    + congruence.
    + now apply IH.
Qed.

(** ** Logical names *)

Lemma wcsrchr_app_last m c x :
  wcsrchr x c = None -> wcsrchr (m ++ c :: x) c = Some (length m).
Proof.
  intros Hx. induction m as [|a m IH]; simpl.
  - rewrite Hx. unfold wchar_eqb. now rewrite Pos.eqb_refl.
  - now rewrite IH.
Qed.

Lemma ends_in_ni_true m :
  ends_in_ni m = true ->
  wcslen m > 3 /\ m = take (wcslen m - 3) m ++ W ".ni".
Proof.
  unfold ends_in_ni. intros H.
  apply andb_true_iff in H as (H & H3). apply andb_true_iff in H as (H & H2).
  apply andb_true_iff in H as (Hlen & H1).
  apply wchar_eqb_eq in H1, H2, H3.
  assert (Hl : wcslen m > 3) by lia. split; [exact Hl|].
  clear Hlen. unfold char_at, take, wcslen in *.
  set (k := Z.to_nat (Z.of_nat (length m) - 3)).
  assert (Hk : length m = (k + 3)%nat) by lia.
  replace (Z.to_nat (Z.of_nat (length m) - 1)) with (k + 2)%nat in H1 by lia.
  replace (Z.to_nat (Z.of_nat (length m) - 2)) with (k + 1)%nat in H2 by lia.
  fold k in H3.
  rewrite <- (firstn_skipn k m) in H1, H2, H3.
  assert (Hf : length (firstn k m) = k) by (rewrite length_firstn; lia).
  assert (Hs : length (skipn k m) = 3%nat) by (rewrite length_skipn; lia).
  destruct (skipn k m) as [|a [|b [|c [|]]]] eqn:E; try discriminate.
  rewrite app_nth2 in H1, H2, H3 by lia.
  rewrite Hf in H1, H2, H3.
  replace (k + 2 - k)%nat with 2%nat in H1 by lia.
  replace (k + 1 - k)%nat with 1%nat in H2 by lia.
  rewrite Nat.sub_diag in H3. simpl in H1, H2, H3.
  rewrite <- (firstn_skipn k m) at 1. rewrite E. now subst.
Qed.

(** The logical name of a name that ends in a dot and an extension without
    dots. *)
Lemma RemoveExtensionAndNi_ext m x :
  wcsrchr x (ch ".") = None ->
  RemoveExtensionAndNi (m ++ ch "." :: x) =
    if ends_in_ni m then take (wcslen m - 3) m else m.
Proof.
  intros Hx. unfold RemoveExtensionAndNi.
  rewrite (wcsrchr_app_last m (ch ".") x Hx).
  rewrite firstn_app, Nat.sub_diag, firstn_all. simpl firstn.
  rewrite app_nil_r. reflexivity.
Qed.

(** A name found under one of the four patterns is its logical name
    followed by the tail of one of the four patterns. *)
Lemma name_decomposition n stem ext :
  In ext rgTPAExtensions -> n = stem ++ tl ext ->
  exists ext', In ext' rgTPAExtensions /\ n = RemoveExtensionAndNi n ++ tl ext'.
Proof.
  intros Hext ->.
  assert (Hcases : exists m x,
    stem ++ tl ext = m ++ ch "." :: x /\ (x = W "dll" \/ x = W "exe")).
  { simpl in Hext. destruct Hext as [<- | [<- | [<- | [<- | []]]]].
    - exists (stem ++ W ".ni"), (W "dll"). split; [|auto].
      rewrite <- app_assoc. reflexivity.
    - exists stem, (W "dll"). auto.
    - exists (stem ++ W ".ni"), (W "exe"). split; [|auto].
      rewrite <- app_assoc. reflexivity.
    - exists stem, (W "exe"). auto. }
  destruct Hcases as (m & x & -> & Hx).
  rewrite RemoveExtensionAndNi_ext by (destruct Hx as [-> | ->]; reflexivity).
  destruct (ends_in_ni m) eqn:E.
  - apply ends_in_ni_true in E as (_ & E).
    destruct Hx as [-> | ->].
    + exists (W "*.ni.dll"). split; [simpl; auto|].
      rewrite E at 1. rewrite <- app_assoc. reflexivity.
    + exists (W "*.ni.exe"). split; [simpl; auto|].
      rewrite E at 1. rewrite <- app_assoc. reflexivity.
  - destruct Hx as [-> | ->].
    + exists (W "*.dll"). split; [simpl; auto|]. reflexivity.
    + exists (W "*.exe"). split; [simpl; auto 6|]. reflexivity.
Qed.

(** ** The TPA list holds each logical name once *)

Lemma flat_app l1 l2 : flat (l1 ++ l2) = flat l1 ++ flat l2.
Proof. unfold flat. now rewrite map_app, concat_app. Qed.

(** An entry of the list is found by the search for its logical name. *)
Lemma entry_found entries entry exts :
  Forall entry_ok entries -> In entry entries ->
  incl rgTPAExtensions exts ->
  existsb (fun ext => wcsstr (flat entries) (needle (logical_name entry) ext)) exts
    = true.
Proof.
  intros Hall HIn Hincl.
  rewrite Forall_forall in Hall.
  destruct (Hall _ HIn) as ((d & Hd) & (ext & Hext & Hn)).
  apply existsb_exists. exists ext. split; [now apply Hincl|].
  apply in_split in HIn as (l1 & l2 & ->).
  rewrite flat_app.
  change (flat (entry :: l2)) with ((tpa_path entry ++ W ";") ++ flat l2).
  unfold tpa_path. rewrite Hd, Hn. unfold needle.
  replace (flat l1 ++ (((d ++ BACKSLASH) ++ logical_name entry ++ tl ext) ++ W ";") ++ flat l2)
    with ((flat l1 ++ d) ++
          (((BACKSLASH ++ logical_name entry) ++ tl ext) ++ W ";") ++ flat l2)
    by (rewrite <- !app_assoc; reflexivity).
  apply wcsstr_intro.
Qed.

(** When [TPAListContainsFile] returns false, no entry has the name. *)
Lemma not_contained_fresh he name exts :
  tpa_ok he -> Forall entry_ok (tpa_entries he) ->
  incl rgTPAExtensions exts ->
  TPAListContainsFile he name exts = Some false ->
  ~ In name (map logical_name (tpa_entries he)).
Proof.
  intros (Hok & Hflat & Hnil) Hall Hincl H HIn.
  apply in_map_iff in HIn as (entry & <- & HIn).
  unfold TPAListContainsFile, CStr in H. unfold contents in Hflat.
  destruct (m_buffer (m_tpaList he)) as [cells|]; simpl in H.
  - apply TPAListContainsFile_loop_spec in H.
    rewrite Hflat, (entry_found _ _ _ Hall HIn Hincl) in H. discriminate.
  - rewrite Hnil in HIn by reflexivity. destruct HIn.
Qed.

Lemma add_found_file_inv targetPath exts he data he' :
  tpa_inv he ->
  (exists d, targetPath = d ++ BACKSLASH) ->
  incl rgTPAExtensions exts ->
  (is_file data = true ->
   exists stem ext, In ext rgTPAExtensions /\
                    map towlower (cFileName data) = stem ++ tl ext) ->
  add_found_file targetPath exts he data = Some he' ->
  tpa_inv he'.
Proof.
  intros (Hok & Hall & Hnd) Hdir Hincl Hname H.
  destruct (add_found_file_cases _ _ _ _ _ Hok H)
    as [(-> & _) | (Hfile & Hfalse & He & _ & Hok' & _)].
  - split; [exact Hok | split; assumption].
  - destruct (Hname Hfile) as (stem & ext & Hext & Hn).
    split; [exact Hok'|]. rewrite He. split.
    + apply Forall_app. split; [exact Hall|]. constructor; [|constructor].
      split; [exact Hdir|]. simpl. unfold logical_name. simpl.
      exact (name_decomposition _ stem ext Hext Hn).
    + rewrite map_app. simpl. apply NoDup_app; [exact Hnd | |].
      * constructor; [intros []|constructor].
      * intros a Ha [<- | []].
        exact (not_contained_fresh he _ exts Hok Hall Hincl Hfalse Ha).
Qed.

Lemma tpa_inv_log_event e he : tpa_inv he -> tpa_inv (log_event e he).
Proof. intros H. exact H. Qed.

Lemma add_found_files_inv targetPath exts found : forall he he',
  tpa_inv he ->
  (exists d, targetPath = d ++ BACKSLASH) ->
  incl rgTPAExtensions exts ->
  (forall data, In data found -> is_file data = true ->
     exists stem ext, In ext rgTPAExtensions /\
                      map towlower (cFileName data) = stem ++ tl ext) ->
  add_found_files targetPath exts he found = Some he' ->
  tpa_inv he'.
Proof.
  induction found as [|data found IH]; simpl; intros he he' Hinv Hdir Hincl Hnames H.
  - now injection H as <-.
  - bind_inv H as he1 H1.
    eapply IH; [| exact Hdir | exact Hincl | | exact H].
    + eapply add_found_file_inv; eauto.
    + intros d Hd. apply Hnames. now right.
Qed.

Lemma AddFiles_loop_inv targetPath exts todo : forall he he',
  tpa_inv he ->
  (exists d, targetPath = d ++ BACKSLASH) ->
  incl rgTPAExtensions exts ->
  incl todo rgTPAExtensions ->
  finds_match targetPath todo ->
  AddFiles_loop targetPath exts todo he = Some he' ->
  tpa_inv he'.
Proof.
  induction todo as [|ext todo IH]; simpl; intros he he' Hinv Hdir Hincl Htodo Hfinds H.
  - now injection H as <-.
  - bind_inv H as p1 H1. apply fits_Some in H1 as (-> & _).
    bind_inv H as p2 H2. apply wcscat_s_Some in H2 as (-> & _).
    bind_inv H as he1 H3.
    eapply IH; [| exact Hdir | exact Hincl | | | exact H].
    + eapply add_found_files_inv; [apply tpa_inv_log_event; exact Hinv
                                  | exact Hdir | exact Hincl | | exact H3].
      intros data Hdata Hfile.
      destruct (Hfinds ext data (or_introl eq_refl) Hdata Hfile) as (stem & Hstem).
      exists stem, ext. split; [apply Htodo; now left | exact Hstem].
    + intros x Hx. apply Htodo. now right.
    + intros x data Hx. apply Hfinds. now right.
Qed.

Lemma AddDirectories_inv dirs exts : forall he he',
  tpa_inv he ->
  Forall (fun targetPath => exists d, targetPath = d ++ BACKSLASH) dirs ->
  incl rgTPAExtensions exts -> incl exts rgTPAExtensions ->
  Forall (fun targetPath => finds_match targetPath exts) dirs ->
  AddDirectories dirs exts he = Some he' ->
  tpa_inv he'.
Proof.
  induction dirs as [|d dirs IH]; simpl; intros he he' Hinv Hdirs Hi1 Hi2 Hfinds H.
  - now injection H as <-.
  - bind_inv H as he1 H1.
    inversion Hdirs as [|? ? Hd Hdirs']; subst.
    inversion Hfinds as [|? ? Hf Hfinds']; subst.
    eapply IH; [| exact Hdirs' | exact Hi1 | exact Hi2 | exact Hfinds' | exact H].
    eapply AddFiles_loop_inv; eauto.
Qed.

Lemma tpa_inv_empty he :
  m_tpaList he = StringBuffer_new -> tpa_entries he = [] -> tpa_inv he.
Proof.
  intros Hb He. unfold tpa_inv, tpa_ok. rewrite Hb, He. simpl.
  repeat split; auto; constructor.
Qed.


(** ** The TPA list is built once *)

Lemma add_found_file_set_events targetPath exts evs he data :
  add_found_file targetPath exts (set_events evs he) data =
  option_map (set_events evs) (add_found_file targetPath exts he data).
Proof.
  unfold add_found_file, TPAListContainsFile. simpl.
  destruct (is_file data); [|reflexivity].
  destruct (fits MAX_PATH _); [|reflexivity]. simpl.
  destruct (match CStr (m_tpaList he) with Some _ => _ | None => _ end)
    as [[|]|]; try reflexivity. simpl.
  destruct (fits _ _); [|reflexivity]. simpl.
  destruct (Append _ _ _); [|reflexivity]. simpl.
  destruct (Append _ _ _); reflexivity.
Qed.

Lemma add_found_files_set_events targetPath exts evs found : forall he,
  add_found_files targetPath exts (set_events evs he) found =
  option_map (set_events evs) (add_found_files targetPath exts he found).
Proof.
  induction found as [|data found IH]; intros he; simpl; [reflexivity|].
  rewrite add_found_file_set_events.
  destruct (add_found_file targetPath exts he data); simpl; [apply IH | reflexivity].
Qed.

Lemma same_state_log_event e he1 he2 :
  same_state he1 he2 -> same_state (log_event e he1) (log_event e he2).
Proof. intros H. exact H. Qed.

Lemma same_state_set_events evs he : same_state (set_events evs he) he.
Proof. reflexivity. Qed.

Lemma same_state_sym he1 he2 : same_state he1 he2 -> same_state he2 he1.
Proof. unfold same_state. congruence. Qed.

Lemma same_state_trans he1 he2 he3 :
  same_state he1 he2 -> same_state he2 he3 -> same_state he1 he3.
Proof. unfold same_state. congruence. Qed.

Lemma same_state_fields he1 he2 :
  same_state he1 he2 ->
  m_tpaList he1 = m_tpaList he2 /\
  m_coreCLRDirectoryPath he1 = m_coreCLRDirectoryPath he2.
Proof. unfold same_state, set_events. intros H. now injection H. Qed.

(** The scans give the same list from two states that differ only in the
    record of calls. *)
Lemma add_found_files_same targetPath exts found he1 he2 he1' :
  same_state he1 he2 ->
  add_found_files targetPath exts he1 found = Some he1' ->
  exists he2', add_found_files targetPath exts he2 found = Some he2' /\
               same_state he1' he2'.
Proof.
  intros Hs H.
  assert (E : forall h, h = set_events (events h) (set_events [] h))
    by (intros []; reflexivity).
  rewrite (E he1), add_found_files_set_events in H.
  rewrite (E he2), add_found_files_set_events.
  unfold same_state in Hs. rewrite <- Hs.
  destruct (add_found_files targetPath exts (set_events [] he1) found) as [x|];
    [|discriminate].
  simpl in *. injection H as <-. eexists. split; [reflexivity|].
  eapply same_state_trans; [apply same_state_set_events|].
  apply same_state_sym, same_state_set_events.
Qed.

Lemma AddFiles_loop_same targetPath exts todo : forall he1 he2 he1',
  same_state he1 he2 ->
  AddFiles_loop targetPath exts todo he1 = Some he1' ->
  exists he2', AddFiles_loop targetPath exts todo he2 = Some he2' /\
               same_state he1' he2'.
Proof.
  induction todo as [|ext todo IH]; simpl; intros he1 he2 he1' Hs H.
  - injection H as <-. eauto.
  - bind_inv H as p1 H1. rewrite H1. simpl.
    bind_inv H as p2 H2. rewrite H2. simpl.
    bind_inv H as x H3.
    destruct (add_found_files_same _ _ _ _ (log_event (EvFindFirstFile p2) he2) _
                (same_state_log_event _ _ _ Hs) H3) as (y & -> & Hxy).
    simpl. eapply IH; eauto.
Qed.

Lemma GetTpaList_same he1 he2 tpa he1' :
  same_state he1 he2 ->
  GetTpaList he1 = Some (tpa, he1') ->
  exists he2', GetTpaList he2 = Some (tpa, he2') /\ same_state he1' he2'.
Proof.
  intros Hs H. unfold GetTpaList, AddFilesFromDirectoryToTPAList in *.
  destruct (same_state_fields _ _ Hs) as (Ht & _). rewrite <- Ht.
  destruct (CStr (m_tpaList he1)).
  - injection H as <- <-. eauto.
  - bind_inv H as x H1. bind_inv H as y H2. injection H as <- <-.
    assert (Hx : exists x2,
      (if env_is_set (W "CORE_LIBRARIES")
       then coreLibraries <- wcscat_s MAX_PATH (env_value (W "CORE_LIBRARIES")) BACKSLASH ;;
            AddFiles_loop coreLibraries rgTPAExtensions rgTPAExtensions he2
       else Some he2) = Some x2 /\ same_state x x2).
    { destruct (env_is_set _).
      - bind_inv H1 as c Hc. rewrite Hc. cbn [bind].
        eapply AddFiles_loop_same; eauto.
      - injection H1 as <-. eauto. }
    destruct Hx as (x2 & -> & Hxx). cbn [bind].
    destruct (same_state_fields _ _ Hxx) as (_ & Hd). rewrite <- Hd.
    destruct (AddFiles_loop_same _ _ _ _ _ _ Hxx H2) as (y2 & -> & Hyy).
    cbn [bind]. destruct (same_state_fields _ _ Hyy) as (-> & _). eauto.
Qed.

Lemma Append_buffer sb str strLen sb' :
  Append sb str strLen = Some sb' -> m_buffer sb' <> None.
Proof.
  unfold Append. destruct (ensure_buffer sb) as [cells cap].
  destruct (needs_growth _ _ _).
  - destruct (wcsncpy_s _ 0 _ _ _); [|discriminate].
    destruct (wcsncpy_s _ _ _ _ _); [|discriminate].
    intros [= <-]. discriminate.
  - destruct (wcsncpy_s _ _ _ _ _); [|discriminate].
    intros [= <-]. discriminate.
Qed.

(** A step of the build leaves a null buffer only by changing nothing, and
    never makes a buffer null. *)
Lemma add_found_file_null targetPath exts he data he' :
  add_found_file targetPath exts he data = Some he' ->
  (m_buffer (m_tpaList he') = None -> he' = he) /\
  (m_buffer (m_tpaList he) <> None -> m_buffer (m_tpaList he') <> None).
Proof.
  unfold add_found_file. intros H.
  destruct (is_file data); [|injection H as <-; auto].
  bind_inv H as n Hn. bind_inv H as present Hp.
  destruct (negb present); [|injection H as <-; auto].
  bind_inv H as f Hf. bind_inv H as sb1 H1. bind_inv H as sb2 H2.
  injection H as <-. apply Append_buffer in H2. simpl. tauto.
Qed.

Lemma add_found_files_null targetPath exts found : forall he he',
  add_found_files targetPath exts he found = Some he' ->
  (m_buffer (m_tpaList he') = None -> he' = he) /\
  (m_buffer (m_tpaList he) <> None -> m_buffer (m_tpaList he') <> None).
Proof.
  induction found as [|data found IH]; simpl; intros he he' H.
  - injection H as <-. auto.
  - bind_inv H as he1 H1.
    apply add_found_file_null in H1 as (A1 & B1).
    apply IH in H as (A2 & B2). split.
    + intros Hn.
      assert (E : m_buffer (m_tpaList he1) = None).
      { destruct (m_buffer (m_tpaList he1)) eqn:E; [|reflexivity].
        exfalso. apply B2; [discriminate | exact Hn]. }
      rewrite (A2 Hn). exact (A1 E).
    + auto.
Qed.

Lemma AddFiles_loop_null targetPath exts todo : forall he he',
  AddFiles_loop targetPath exts todo he = Some he' ->
  (m_buffer (m_tpaList he') = None -> same_state he he') /\
  (m_buffer (m_tpaList he) <> None -> m_buffer (m_tpaList he') <> None).
Proof.
  induction todo as [|ext todo IH]; simpl; intros he he' H.
  - injection H as <-. split; [reflexivity | auto].
  - bind_inv H as p1 H1. bind_inv H as p2 H2. bind_inv H as he1 H3.
    apply add_found_files_null in H3 as (A1 & B1).
    apply IH in H as (A2 & B2). split.
    + intros Hn. specialize (A2 Hn).
      assert (E : m_buffer (m_tpaList he1) = None).
      { destruct (m_buffer (m_tpaList he1)) eqn:E; [|reflexivity].
        exfalso. apply B2; [discriminate | exact Hn]. }
      rewrite (A1 E) in A2. exact A2.
    + intros Hn. apply B2, B1. exact Hn.
Qed.

(** C7 (as amended). A call of [GetTpaList] on a buffer that is not null
    changes nothing and scans nothing; and after any call, a second call
    returns the same list, without a scan when the list is not null. *)
Theorem GetTpaList_is_cached he tpa he1
  (Hfirst : GetTpaList he = Some (tpa, he1)) :
  (CStr (m_tpaList he) <> None -> he1 = he /\ tpa = CStr (m_tpaList he)) /\
  exists he2,
    GetTpaList he1 = Some (tpa, he2) /\
    (tpa <> None -> he2 = he1).
Proof.
  split.
  - unfold GetTpaList in Hfirst. intros Hn.
    destruct (CStr (m_tpaList he)); [|congruence].
    injection Hfirst as <- <-. auto.
  - assert (Htpa : tpa = CStr (m_tpaList he1)).
    { unfold GetTpaList in Hfirst.
      destruct (CStr (m_tpaList he)) eqn:E.
      - injection Hfirst as <- <-. now rewrite E.
      - bind_inv Hfirst as x Hx. bind_inv Hfirst as y Hy.
        now injection Hfirst as <- <-. }
    destruct tpa as [l|].
    + exists he1. split; [|reflexivity].
      unfold GetTpaList. now rewrite <- Htpa.
    + assert (Hs : same_state he he1).
      { unfold GetTpaList, AddFilesFromDirectoryToTPAList in Hfirst.
        assert (Hnull : m_buffer (m_tpaList he1) = None)
          by (unfold CStr in Htpa; destruct (m_buffer (m_tpaList he1));
              [discriminate | reflexivity]).
        destruct (CStr (m_tpaList he)).
        - injection Hfirst as _ <-. reflexivity.
        - bind_inv Hfirst as x Hx. bind_inv Hfirst as y Hy.
          injection Hfirst as _ <-.
          apply AddFiles_loop_null in Hy as (A2 & B2).
          specialize (A2 Hnull).
          assert (Hxn : m_buffer (m_tpaList x) = None).
          { destruct (m_buffer (m_tpaList x)) eqn:E; [|reflexivity].
            exfalso. apply B2; [discriminate | exact Hnull]. }
          eapply same_state_trans; [|exact A2].
          destruct (env_is_set _).
          + bind_inv Hx as c Hc.
            apply AddFiles_loop_null in Hx as (A1 & _). auto.
          + injection Hx as <-. reflexivity. }
      destruct (GetTpaList_same he he1 None he1 Hs Hfirst) as (he2 & H2 & _).
      exists he2. split; [exact H2 | congruence].
Qed.

(** ** First writer wins *)

(** Two ways of cutting a string at an occurrence of [c], the first cut
    being at the first occurrence. *)
Lemma split_at_first (c : wchar) a : forall b a' b',
  ~ In c a -> a ++ c :: b = a' ++ c :: b' ->
  (a = a' /\ b = b') \/ (exists r, a' = a ++ c :: r /\ b = r ++ c :: b').
Proof.
  induction a as [|x a IH]; intros b a' b' Hc E.
  - destruct a' as [|y a']; simpl in E.
    + injection E as ->. auto.
    + injection E as <- ->. right. now exists a'.
  - destruct a' as [|y a']; simpl in E.
    + injection E as -> _. exfalso. apply Hc. now left.
    + injection E as <- E.
      destruct (IH b a' b') as [(-> & ->) | (r & -> & ->)]; auto.
      * intros H. apply Hc. now right.
      * right. now exists r.
Qed.

Lemma cut_before_suffix (c : wchar) s : forall pre K r,
  ~ In c K -> pre ++ K = s ++ c :: r ->
  exists r1, pre = s ++ c :: r1 /\ r = r1 ++ K.
Proof.
  induction s as [|x s IH]; intros pre K r Hc E.
  - destruct pre as [|y pre]; simpl in E.
    + exfalso. apply Hc. rewrite E. now left.
    + injection E as -> <-. now exists pre.
  - destruct pre as [|y pre]; simpl in E.
    + exfalso. apply Hc. rewrite E. right. apply in_or_app. right. now left.
    + injection E as -> E.
      destruct (IH pre K r Hc E) as (r1 & -> & ->). now exists r1.
Qed.

(** Two cuts at the last occurrence of [c] give the same tail. *)
Lemma same_tail_after_last (c : wchar) x M d n :
  ~ In c M -> ~ In c n -> x ++ c :: M = d ++ c :: n -> M = n.
Proof.
  intros HM Hn E.
  apply (f_equal (@rev wchar)) in E.
  rewrite !rev_app_distr in E. simpl in E. rewrite <- !app_assoc in E. simpl in E.
  destruct (split_at_first c (rev M) (rev x) (rev n) (rev d)) as [(H & _) | (r & H & _)].
  - now rewrite <- in_rev.
  - exact E.
  - rewrite <- (rev_involutive M), H. apply rev_involutive.
  - exfalso. apply Hn. apply in_rev. rewrite H. apply in_or_app. right. now left.
Qed.

(** An occurrence in the list of a string without semicolons, followed by
    one, lies at the end of the path of an entry. *)
Lemma flat_segment entries K : forall pre post,
  (forall entry, In entry entries -> ~ In SEMICOLON (tpa_path entry)) ->
  ~ In SEMICOLON K ->
  flat entries = pre ++ K ++ SEMICOLON :: post ->
  exists entry x, In entry entries /\ tpa_path entry = x ++ K.
Proof.
  induction entries as [|e entries IH]; intros pre post Hclean HK E.
  - exfalso. destruct pre; [destruct K|]; discriminate.
  - change (flat (e :: entries)) with ((tpa_path e ++ [SEMICOLON]) ++ flat entries) in E.
    rewrite <- app_assoc in E. simpl in E. rewrite app_assoc in E.
    destruct (split_at_first SEMICOLON (tpa_path e) (flat entries) (pre ++ K) post)
      as [(H & _) | (r & H & Hf)].
    + apply Hclean. now left.
    + exact E.
    + exists e, pre. split; [now left | exact H].
    + apply cut_before_suffix in H as (r1 & _ & ->); [|exact HK].
      destruct (IH r1 post) as (entry & x & HIn & Hp).
      * intros entry HIn. apply Hclean. now right.
      * exact HK.
      * rewrite Hf, <- app_assoc. reflexivity.
      * exists entry, x. split; [now right | exact Hp].
Qed.

Lemma no_char_In c s : no_char c s = true -> ~ In c s.
Proof.
  unfold no_char. intros H HIn.
  apply negb_true_iff in H.
  assert (E : existsb (wchar_eqb c) s = true).
  { apply existsb_exists. exists c. split; [exact HIn | now apply wchar_eqb_eq]. }
  congruence.
Qed.

Lemma clean_entry_In entry :
  clean_entry entry ->
  ~ In SEMICOLON (fst entry) /\ ~ In SEMICOLON (snd entry) /\
  ~ In (hd 1%positive BACKSLASH) (snd entry).
Proof.
  unfold clean_entry. intros H.
  apply andb_true_iff in H as (H & H3). apply andb_true_iff in H as (H1 & H2).
  auto using no_char_In.
Qed.

Lemma ends_in_ni_app L :
  L <> [] ->
  ends_in_ni (L ++ W ".ni") = true /\
  take (wcslen (L ++ W ".ni") - 3) (L ++ W ".ni") = L.
Proof.
  intros HL.
  assert (Hlen : wcslen (L ++ W ".ni") = wcslen L + 3) by apply wcslen_app.
  assert (Hpos : wcslen L > 0) by (destruct L; [congruence | unfold wcslen; simpl; lia]).
  split.
  - unfold ends_in_ni. rewrite Hlen. unfold char_at, wcslen in *.
    replace (Z.to_nat (Z.of_nat (length L) + 3 - 1)) with (length L + 2)%nat by lia.
    replace (Z.to_nat (Z.of_nat (length L) + 3 - 2)) with (length L + 1)%nat by lia.
    replace (Z.to_nat (Z.of_nat (length L) + 3 - 3)) with (length L + 0)%nat by lia.
    rewrite !app_nth2_plus. simpl nth.
    destruct (Z.of_nat (length L) + 3 >? 3) eqn:E; [reflexivity | lia].
  - rewrite Hlen. apply take_app_exact. unfold wcslen. lia.
Qed.

(** The logical name of a plain name followed by the tail of a pattern. *)
Lemma logical_of_plain L ext :
  plain_name L -> In ext rgTPAExtensions ->
  RemoveExtensionAndNi (L ++ tl ext) = L.
Proof.
  intros (HL & Hni) Hext.
  destruct (ends_in_ni_app L HL) as (Hni' & Htake).
  simpl in Hext. destruct Hext as [<- | [<- | [<- | [<- | []]]]].
  - change (L ++ tl (W "*.ni.dll")) with (L ++ W ".ni" ++ ch "." :: W "dll").
    rewrite app_assoc, RemoveExtensionAndNi_ext by reflexivity.
    now rewrite Hni'.
  - change (L ++ tl (W "*.dll")) with (L ++ ch "." :: W "dll").
    rewrite RemoveExtensionAndNi_ext by reflexivity. now rewrite Hni.
  - change (L ++ tl (W "*.ni.exe")) with (L ++ W ".ni" ++ ch "." :: W "exe").
    rewrite app_assoc, RemoveExtensionAndNi_ext by reflexivity.
    now rewrite Hni'.
  - change (L ++ tl (W "*.exe")) with (L ++ ch "." :: W "exe").
    rewrite RemoveExtensionAndNi_ext by reflexivity. now rewrite Hni.
Qed.

Lemma In_firstn {A} (x : A) k l : In x (firstn k l) -> In x l.
Proof. intros H. rewrite <- (firstn_skipn k l). apply in_or_app. now left. Qed.

(** The characters of a logical name are characters of the name. *)
Lemma RemoveExtensionAndNi_In c n : In c (RemoveExtensionAndNi n) -> In c n.
Proof.
  unfold RemoveExtensionAndNi.
  destruct (wcsrchr n (ch ".")) as [i|]; [|auto].
  destruct (ends_in_ni (firstn i n)); intros H.
  - unfold take in H. now apply In_firstn, In_firstn in H.
  - now apply In_firstn in H.
Qed.

Lemma pattern_tail_clean ext :
  In ext rgTPAExtensions ->
  ~ In SEMICOLON (tl ext) /\ ~ In (hd 1%positive BACKSLASH) (tl ext).
Proof.
  intros H. simpl in H.
  destruct H as [<- | [<- | [<- | [<- | []]]]];
    split; apply no_char_In; reflexivity.
Qed.

(** When [TPAListContainsFile] returns true for a plain name, on a list of
    clean entries, an entry has this logical name. *)
Lemma contained_exact he L exts :
  tpa_ok he ->
  Forall entry_ok (tpa_entries he) -> Forall clean_entry (tpa_entries he) ->
  incl exts rgTPAExtensions ->
  plain_name L -> ~ In SEMICOLON L -> ~ In (hd 1%positive BACKSLASH) L ->
  TPAListContainsFile he L exts = Some true ->
  exists entry, In entry (tpa_entries he) /\ logical_name entry = L.
Proof.
  intros (Hok & Hflat & Hnil) Hall Hclean Hincl Hplain HLs HLb H.
  unfold TPAListContainsFile, CStr in H. unfold contents in Hflat.
  destruct (m_buffer (m_tpaList he)) as [cells|]; simpl in H; [|discriminate].
  apply TPAListContainsFile_loop_spec in H. symmetry in H.
  apply existsb_exists in H as (ext & Hext & Hfound).
  apply Hincl in Hext.
  destruct (pattern_tail_clean ext Hext) as (Hts & Htb).
  rewrite Hflat in Hfound.
  apply wcsstr_elim in Hfound as (pre & post & E).
  unfold needle in E. rewrite <- app_assoc in E.
  change (W ";" ++ post) with (SEMICOLON :: post) in E.
  rewrite Forall_forall in Hall, Hclean.
  destruct (flat_segment (tpa_entries he) ((BACKSLASH ++ L) ++ tl ext) pre post)
    as (entry & x & HIn & Hp); [| | exact E |].
  { intros e He. destruct (clean_entry_In e (Hclean e He)) as (C1 & C2 & _).
    unfold tpa_path. intros HI. apply in_app_or in HI. tauto. }
  { intros HI. apply in_app_or in HI as [HI | HI]; [|tauto].
    apply in_app_or in HI as [[HI | []] | HI]; [discriminate | tauto]. }
  exists entry. split; [exact HIn|].
  destruct (Hall _ HIn) as ((d & Hd) & _).
  destruct (clean_entry_In _ (Hclean _ HIn)) as (_ & _ & C3).
  unfold tpa_path in Hp. rewrite Hd, <- !app_assoc in Hp.
  apply same_tail_after_last in Hp; [| exact C3 |].
  - unfold logical_name. rewrite Hp. now apply logical_of_plain.
  - intros HI. apply in_app_or in HI. tauto.
Qed.

Lemma app_same_length {A} (a a' b b' : list A) :
  length a = length a' -> a ++ b = a' ++ b' -> a = a' /\ b = b'.
Proof.
  revert a'. induction a as [|x a IH]; intros [|y a'] Hl E; try discriminate.
  - auto.
  - simpl in *. injection E as -> E. injection Hl as Hl.
    destruct (IH a' Hl E) as (-> & ->). auto.
Qed.

Section FirstWriter.

(** The candidates of a build, cut at the candidate [c]; no candidate
    before [c] has the logical name of [c], a plain name. *)
Variables (exts : list wstr) (before after : list (wstr * wstr)) (c : wstr * wstr).
Hypothesis Hclean : Forall clean_entry (before ++ c :: after).
Hypothesis Hfirst : forall c', In c' before -> logical_name c' <> logical_name c.
Hypothesis Hplain : plain_name (logical_name c).
Hypothesis Hexts1 : incl rgTPAExtensions exts.
Hypothesis Hexts2 : incl exts rgTPAExtensions.

Lemma track_clean done rest he :
  before ++ c :: after = done ++ rest -> track before c done he ->
  Forall clean_entry (tpa_entries he).
Proof.
  intros E (_ & Hincl & _). rewrite Forall_forall in *.
  intros e He. apply Hclean. rewrite E. apply in_or_app. left. now apply Hincl.
Qed.

Lemma add_found_file_track targetPath he data he' done rest :
  (exists d, targetPath = d ++ BACKSLASH) ->
  (is_file data = true ->
   exists stem ext, In ext rgTPAExtensions /\
                    map towlower (cFileName data) = stem ++ tl ext) ->
  let seg := if is_file data
             then [(targetPath, map towlower (cFileName data))] else [] in
  before ++ c :: after = done ++ seg ++ rest ->
  track before c done he ->
  add_found_file targetPath exts he data = Some he' ->
  track before c (done ++ seg) he'.
Proof.
  intros Hdir Hname seg E Htrack H.
  assert (Hcl : Forall clean_entry (tpa_entries he))
    by (eapply track_clean; eauto).
  destruct Htrack as (Hinv & Hincl & Hc).
  assert (Hinv' : tpa_inv he') by (eapply add_found_file_inv; eauto).
  destruct Hinv as (Hok & Hall & Hnd).
  destruct (add_found_file_cases _ _ _ _ _ Hok H)
    as [(-> & Hwhy) | (Hfile & _ & He & _)]; subst seg.
  - destruct (is_file data) eqn:Hfile.
    + destruct Hwhy as [Hwhy | Hwhy]; [discriminate|].
      split; [exact Hinv'|]. split; [now apply incl_appl|].
      rewrite length_app. simpl. intros Hlt.
      destruct (Nat.eq_dec (length before) (length done)) as [Heq | Hne];
        [|apply Hc; zlen].
      exfalso. simpl in E.
      destruct (app_same_length _ _ _ _ Heq E) as (<- & Ec).
      injection Ec as Ec _.
      assert (HL : RemoveExtensionAndNi (map towlower (cFileName data)) =
                   logical_name c) by (now rewrite Ec).
      rewrite HL in Hwhy.
      rewrite Forall_forall in Hclean.
      destruct (clean_entry_In c) as (_ & C2 & C3).
      { apply Hclean. apply in_or_app. right. now left. }
      destruct (contained_exact he (logical_name c) exts Hok Hall Hcl Hexts2 Hplain)
        as (entry & HIn & Hsame); [| | exact Hwhy |].
      * intros HI. now apply RemoveExtensionAndNi_In in HI.
      * intros HI. now apply RemoveExtensionAndNi_In in HI.
      * exact (Hfirst entry (Hincl _ HIn) Hsame).
    + rewrite app_nil_r. split; [exact Hinv' | split; assumption].
  - rewrite Hfile in *. split; [exact Hinv'|]. rewrite He. split.
    + apply incl_app; [now apply incl_appl | apply incl_appr, incl_refl].
    + rewrite length_app. simpl. intros Hlt. apply in_or_app.
      destruct (Nat.eq_dec (length before) (length done)) as [Heq | Hne];
        [|left; apply Hc; zlen].
      simpl in E. destruct (app_same_length _ _ _ _ Heq E) as (_ & Ec).
      injection Ec as -> _. right. now left.
Qed.

Lemma add_found_files_track targetPath found : forall he he' done rest,
  (exists d, targetPath = d ++ BACKSLASH) ->
  (forall data, In data found -> is_file data = true ->
     exists stem ext, In ext rgTPAExtensions /\
                      map towlower (cFileName data) = stem ++ tl ext) ->
  let met := map (fun data => (targetPath, map towlower (cFileName data)))
                 (filter is_file found) in
  before ++ c :: after = done ++ met ++ rest ->
  track before c done he ->
  add_found_files targetPath exts he found = Some he' ->
  track before c (done ++ met) he'.
Proof.
  induction found as [|data found IH]; intros he he' done rest Hdir Hnames met E Ht H;
    subst met; simpl in *.
  - injection H as <-. now rewrite app_nil_r.
  - bind_inv H as he1 H1.
    assert (Hstep : track before c
              (done ++ (if is_file data
                        then [(targetPath, map towlower (cFileName data))] else []))
              he1).
    { eapply add_found_file_track; [exact Hdir | | | exact Ht | exact H1].
      - apply Hnames. now left.
      - rewrite E. destruct (is_file data); simpl; reflexivity. }
    destruct (is_file data); simpl in *.
    + replace (done ++ (targetPath, map towlower (cFileName data)) ::
                 map (fun d => (targetPath, map towlower (cFileName d)))
                     (filter is_file found))
        with ((done ++ [(targetPath, map towlower (cFileName data))]) ++
                 map (fun d => (targetPath, map towlower (cFileName d)))
                     (filter is_file found))
        by (now rewrite <- app_assoc).
      eapply IH; [exact Hdir | | | exact Hstep | exact H].
      * intros d Hd. apply Hnames. now right.
      * rewrite E, <- app_assoc. reflexivity.
    + rewrite app_nil_r in Hstep.
      eapply IH; [exact Hdir | | exact E | exact Hstep | exact H].
      intros d Hd. apply Hnames. now right.
Qed.

Lemma AddFiles_loop_track targetPath todo : forall he he' done rest,
  (exists d, targetPath = d ++ BACKSLASH) ->
  incl todo rgTPAExtensions ->
  finds_match targetPath todo ->
  before ++ c :: after = done ++ candidates_of_dir targetPath todo ++ rest ->
  track before c done he ->
  AddFiles_loop targetPath exts todo he = Some he' ->
  track before c (done ++ candidates_of_dir targetPath todo) he'.
Proof.
  unfold candidates_of_dir.
  induction todo as [|ext todo IH]; intros he he' done rest Hdir Htodo Hfinds E Ht H;
    simpl in *.
  - injection H as <-. now rewrite app_nil_r.
  - bind_inv H as p1 H1. apply fits_Some in H1 as (-> & _).
    bind_inv H as p2 H2. apply wcscat_s_Some in H2 as (-> & _).
    bind_inv H as he1 H3.
    rewrite <- app_assoc in E.
    assert (Hstep : track before c (done ++ candidates_of_pattern targetPath ext) he1).
    { eapply add_found_files_track; [exact Hdir | | exact E | | exact H3].
      - intros data Hdata Hfile.
        destruct (Hfinds ext data (or_introl eq_refl) Hdata Hfile) as (stem & Hstem).
        exists stem, ext. split; [apply Htodo; now left | exact Hstem].
      - exact Ht. }
    rewrite app_assoc.
    eapply IH; [exact Hdir | | | | exact Hstep | exact H].
    + intros x Hx. apply Htodo. now right.
    + intros x data Hx. apply Hfinds. now right.
    + rewrite E, <- app_assoc. reflexivity.
Qed.

Lemma AddDirectories_track dirs : forall he he' done rest,
  Forall (fun targetPath => exists d, targetPath = d ++ BACKSLASH) dirs ->
  Forall (fun targetPath => finds_match targetPath exts) dirs ->
  before ++ c :: after = done ++ candidates dirs exts ++ rest ->
  track before c done he ->
  AddDirectories dirs exts he = Some he' ->
  track before c (done ++ candidates dirs exts) he'.
Proof.
  unfold candidates.
  induction dirs as [|d dirs IH]; intros he he' done rest Hdirs Hfinds E Ht H;
    simpl in *.
  - injection H as <-. now rewrite app_nil_r.
  - bind_inv H as he1 H1.
    inversion Hdirs as [|? ? Hd Hdirs']; subst.
    inversion Hfinds as [|? ? Hf Hfinds']; subst.
    rewrite <- app_assoc in E.
    assert (Hstep : track before c (done ++ candidates_of_dir d exts) he1)
      by (eapply AddFiles_loop_track; eauto).
    rewrite app_assoc.
    eapply IH; [exact Hdirs' | exact Hfinds' | | exact Hstep | exact H].
    rewrite E, <- app_assoc. reflexivity.
Qed.

End FirstWriter.

Lemma NoDup_map_eq {A B} (f : A -> B) l a b :
  NoDup (map f l) -> In a l -> In b l -> f a = f b -> a = b.
Proof.
  induction l as [|x l IH]; simpl; intros Hnd Ha Hb E; [destruct Ha|].
  inversion Hnd as [|? ? Hx Hnd']; subst.
  destruct Ha as [-> | Ha], Hb as [-> | Hb]; auto.
  - exfalso. apply Hx. rewrite E. now apply in_map.
  - exfalso. apply Hx. rewrite <- E. now apply in_map.
Qed.

(** C4 (as amended). The build keeps, for a logical name, the first file of
    the scan that has it: when [c] is the first candidate of the scan
    (directories in order, patterns in order within a directory) with its
    logical name, [c] is in the list and is its only entry with this name.
    This is proved for searches that return only files whose names end, in
    lower case, with the tail of the pattern searched ([finds_match]), for
    plain logical names and for paths without semicolons, where the search
    of [TPAListContainsFile] is exact. *)
Theorem first_writer_wins dirs exts he he' before c after
  (Hbuffer : m_tpaList he = StringBuffer_new)
  (Hentries : tpa_entries he = [])
  (Hexts : Permutation exts rgTPAExtensions)
  (Hdirs : Forall (fun targetPath => exists d, targetPath = d ++ BACKSLASH) dirs)
  (Hfinds : Forall (fun targetPath => finds_match targetPath exts) dirs)
  (Hcands : candidates dirs exts = before ++ c :: after)
  (Hclean : Forall clean_entry (candidates dirs exts))
  (Hfirst : forall c', In c' before -> logical_name c' <> logical_name c)
  (Hplain : plain_name (logical_name c))
  (Hbuild : AddDirectories dirs exts he = Some he') :
  In c (tpa_entries he') /\
  forall entry, In entry (tpa_entries he') ->
    logical_name entry = logical_name c -> entry = c.
Proof.
  assert (Hi1 : incl rgTPAExtensions exts)
    by (intros x Hx; eapply Permutation_in; [symmetry; exact Hexts | exact Hx]).
  assert (Hi2 : incl exts rgTPAExtensions)
    by (intros x Hx; eapply Permutation_in; [exact Hexts | exact Hx]).
  rewrite Hcands in Hclean.
  destruct (AddDirectories_track exts before after c Hclean Hfirst Hplain Hi1 Hi2
              dirs he he' [] [])
    as ((_ & _ & Hnd) & _ & Hc); auto.
  - rewrite app_nil_r. symmetry. exact Hcands.
  - split; [now apply tpa_inv_empty|]. rewrite Hentries.
    split; [apply incl_refl | simpl; lia].
  - assert (HIn : In c (tpa_entries he')).
    { apply Hc. simpl. rewrite Hcands, length_app. simpl. lia. }
    split; [exact HIn|].
    intros entry He Hsame. eapply NoDup_map_eq; eauto.
Qed.

(** ** The build of GetTpaList *)

Lemma add_found_file_dir targetPath exts he data he' :
  add_found_file targetPath exts he data = Some he' ->
  m_coreCLRDirectoryPath he' = m_coreCLRDirectoryPath he.
Proof.
  unfold add_found_file. intros H.
  destruct (is_file data); [|now injection H as <-].
  bind_inv H as n Hn. bind_inv H as present Hp.
  destruct (negb present); [|now injection H as <-].
  bind_inv H as f Hf. bind_inv H as sb1 H1. bind_inv H as sb2 H2.
  now injection H as <-.
Qed.

Lemma add_found_files_dir targetPath exts found : forall he he',
  add_found_files targetPath exts he found = Some he' ->
  m_coreCLRDirectoryPath he' = m_coreCLRDirectoryPath he.
Proof.
  induction found as [|data found IH]; simpl; intros he he' H.
  - now injection H as <-.
  - bind_inv H as he1 H1. apply IH in H. apply add_found_file_dir in H1. congruence.
Qed.

Lemma AddFiles_loop_dir targetPath exts todo : forall he he',
  AddFiles_loop targetPath exts todo he = Some he' ->
  m_coreCLRDirectoryPath he' = m_coreCLRDirectoryPath he.
Proof.
  induction todo as [|ext todo IH]; simpl; intros he he' H.
  - now injection H as <-.
  - bind_inv H as p1 H1. bind_inv H as p2 H2. bind_inv H as he1 H3.
    apply IH in H. apply add_found_files_dir in H3. simpl in H3. congruence.
Qed.

(** On a null buffer, [GetTpaList] scans the directory of CORE_LIBRARIES,
    when the variable is found, then the directory of the runtime, with the
    four patterns in their order, and returns the buffer. *)
Lemma GetTpaList_builds he tpa he' :
  CStr (m_tpaList he) = None ->
  GetTpaList he = Some (tpa, he') ->
  AddDirectories
    ((if env_is_set (W "CORE_LIBRARIES")
      then [env_value (W "CORE_LIBRARIES") ++ BACKSLASH] else []) ++
     [m_coreCLRDirectoryPath he])
    rgTPAExtensions he = Some he' /\
  tpa = CStr (m_tpaList he').
Proof.
  unfold GetTpaList. intros -> H.
  bind_inv H as he1 H1. bind_inv H as he2 H2. injection H as <- <-.
  split; [|reflexivity].
  destruct (env_is_set (W "CORE_LIBRARIES")).
  - bind_inv H1 as coreLibraries Hc. apply wcscat_s_Some in Hc as (-> & _).
    cbn [app AddDirectories]. rewrite H1. cbn [bind].
    apply AddFiles_loop_dir in H1. rewrite <- H1, H2. reflexivity.
  - injection H1 as <-. cbn [app AddDirectories]. rewrite H2. reflexivity.
Qed.

(** ** More on StringBuffer *)

(** X1. On a well-formed buffer, [Append] fails (the copy of line 55 or of
    line 50 does not fit) exactly when the string and its terminator do not
    fit in the capacity the call ends with: one doubling is all it does. *)
Theorem Append_faults_exactly sb str (Hok : buffer_ok sb) :
  Append sb str (wcslen str) = None <->
  capacity_after sb (wcslen str) < m_length sb + wcslen str + 1.
Proof.
  split.
  - intros HA.
    destruct (Z_lt_le_dec (capacity_after sb (wcslen str))
                (m_length sb + wcslen str + 1)) as [Hlt | Hle]; [exact Hlt|].
    destruct (Append_spec sb str Hok Hle) as (sb' & HA' & _). congruence.
  - intros Hlt. destruct (Append sb str (wcslen str)) as [sb'|] eqn:HA;
      [|reflexivity].
    apply Append_Some_fit in HA; [|exact Hok].
    exfalso. clear - Hlt HA. lia.
Qed.

Lemma Append_all_spec strs : forall sb sb',
  buffer_ok sb ->
  Append_all sb strs = Some sb' ->
  contents sb' = contents sb ++ concat strs /\
  m_length sb' = m_length sb + wcslen (concat strs) /\
  buffer_ok sb'.
Proof.
  induction strs as [|str strs IH]; simpl; intros sb sb' Hok H.
  - injection H as <-. rewrite app_nil_r. unfold wcslen. simpl.
    repeat split; auto. lia.
  - bind_inv H as sb1 H1.
    destruct (Append_spec sb str Hok (Append_Some_fit _ _ _ Hok H1))
      as (sb2 & H2 & _ & Hc & Hl & _ & Hok2).
    rewrite H1 in H2. injection H2 as <-.
    destruct (IH sb1 sb' Hok2 H) as (Hc' & Hl' & Hok').
    rewrite Hc', Hl', Hc, Hl, wcslen_app, <- app_assoc.
    repeat split; auto. lia.
Qed.

(** X2. Calls of [Append] compose: after a sequence of calls that return,
    the buffer holds its first contents followed by the strings in order,
    and [m_length] is the sum of the lengths. *)
Theorem Append_all_concatenates sb strs sb'
  (Hok : buffer_ok sb)
  (Hall : Append_all sb strs = Some sb') :
  contents sb' = contents sb ++ concat strs /\
  m_length sb' = m_length sb + wcslen (concat strs) /\
  buffer_ok sb'.
Proof. exact (Append_all_spec strs sb sb' Hok Hall). Qed.

(** A string shorter than the default size is appended without failure,
    whatever the buffer holds (below 2^61 characters). *)
Lemma Append_short sb str :
  buffer_ok sb -> capacity_ok sb ->
  wcslen str < m_defaultSize ->
  m_length sb < 2 ^ 61 ->
  exists sb',
    Append sb str (wcslen str) = Some sb' /\
    m_buffer sb' <> None /\
    contents sb' = contents sb ++ str /\
    m_length sb' = m_length sb + wcslen str /\
    buffer_ok sb' /\ capacity_ok sb'.
Proof.
  intros Hok Hcap Hshort Hlen.
  destruct (ensure_buffer_facts sb Hok) as (_ & Hl & _ & Hb & Hlt & _).
  assert (H0 : 0 <= m_length sb) by zlen.
  assert (Hs : 0 <= wcslen str) by zlen.
  assert (Hcb : m_defaultSize <= capacity_before sb <= m_defaultSize + 2 * m_length sb).
  { unfold capacity_ok in Hcap. unfold capacity_before, ensure_buffer.
    destruct (m_buffer sb); cbn [snd]; [exact Hcap | clear - H0; unfold m_defaultSize; lia]. }
  unfold m_defaultSize in *.
  assert (Hfit : m_length sb + wcslen str + 1 <= capacity_after sb (wcslen str)
                 /\ 4096 <= capacity_after sb (wcslen str)
                       <= 4096 + 2 * (m_length sb + wcslen str)).
  { unfold capacity_after, needs_growth.
    rewrite !size_add_small
      by (try rewrite size_add_small; unfold SIZE_MOD; clear - H0 Hs Hshort Hlen; lia).
    destruct (m_length sb + wcslen str + 1 >? capacity_before sb) eqn:G.
    - unfold size_mul. rewrite Z.mod_small
        by (unfold SIZE_MOD; clear - Hcb Hlen H0; lia).
      clear - G Hcb Hlt Hshort H0 Hs. lia.
    - clear - G Hcb Hlt Hshort H0 Hs. lia. }
  destruct Hfit as (Hfit & Hnew).
  destruct (Append_spec sb str Hok Hfit) as (sb' & HA & Hbuf & Hc & Hl' & Hcap' & Hok').
  exists sb'. repeat split; auto.
  unfold capacity_ok. destruct (m_buffer sb'); [|exact I].
  rewrite Hcap', Hl'. exact Hnew.
Qed.

(** X3. [Append] never fails on a string shorter than 4096 characters (a
    path and its semicolon are), on a buffer that holds less than 2^61
    characters: the capacity stays between 4096 and 4096 plus twice the
    length, so that its double is a [size_t] and holds the string. *)
Theorem Append_never_fails_on_paths sb str
  (Hok : buffer_ok sb) (Hcap : capacity_ok sb)
  (Hshort : wcslen str < m_defaultSize)
  (Hlen : m_length sb < 2 ^ 61) :
  exists sb',
    Append sb str (wcslen str) = Some sb' /\
    CStr sb' = Some (contents sb ++ str) /\
    buffer_ok sb' /\ capacity_ok sb'.
Proof.
  destruct (Append_short sb str Hok Hcap Hshort Hlen)
    as (sb' & HA & Hb & Hc & _ & Hok' & Hcap').
  exists sb'. repeat split; auto.
  unfold CStr, contents in *. destruct (m_buffer sb'); [|congruence].
  simpl. now rewrite Hc.
Qed.

(** ** More on logical names *)

Lemma wcsrchr_Some s c : forall i,
  wcsrchr s c = Some i ->
  exists a b, s = a ++ c :: b /\ length a = i /\ wcsrchr b c = None.
Proof.
  induction s as [|x s IH]; simpl; intros i H; [discriminate|].
  destruct (wcsrchr s c) as [j|] eqn:E.
  - injection H as <-. destruct (IH j eq_refl) as (a & b & -> & <- & Hb).
    now exists (x :: a), b.
  - destruct (wchar_eqb x c) eqn:Ex; [|discriminate].
    injection H as <-. apply wchar_eqb_eq in Ex as ->. now exists [], s.
Qed.

Lemma wcsrchr_None s c : wcsrchr s c = None <-> ~ In c s.
Proof.
  induction s as [|x s IH]; simpl; [tauto|].
  destruct (wcsrchr s c) as [j|].
  - split; [discriminate|]. intros H. exfalso. apply H. right.
    destruct (in_dec Pos.eq_dec c s) as [Hin | Hin]; [exact Hin|].
    apply IH in Hin. discriminate.
  - destruct (wchar_eqb x c) eqn:Ex.
    + apply wchar_eqb_eq in Ex as ->. split; [discriminate|]. intros H. tauto.
    + split; [|reflexivity]. intros _ [-> | Hin].
      * unfold wchar_eqb in Ex. rewrite Pos.eqb_refl in Ex. discriminate.
      * now apply IH.
Qed.

(** X4. [RemoveExtensionAndNi] cuts the name at its last dot and takes
    ".ni" off the rest only when more than three characters come before
    that dot: a stem of at most three characters, such as ".ni" itself or
    "ni", is kept whole; and a name without a dot is not changed. *)
Theorem RemoveExtensionAndNi_keeps_short_stems stem extension
  (Hext : ~ In (ch ".") extension)
  (Hshort : wcslen stem <= 3) :
  RemoveExtensionAndNi (stem ++ ch "." :: extension) = stem /\
  RemoveExtensionAndNi extension = extension.
Proof.
  apply wcsrchr_None in Hext. split.
  - rewrite RemoveExtensionAndNi_ext by exact Hext.
    unfold ends_in_ni. destruct (wcslen stem >? 3) eqn:E; [lia | reflexivity].
  - unfold RemoveExtensionAndNi. now rewrite Hext.
Qed.

(** X5. A name, the same name with ".ni" before its extension, and both
    under any other extension have one logical name: the name itself, when
    it is not empty and does not end in ".ni" after more than three
    characters. *)
Theorem optimized_and_plain_share_a_logical_name name extension
  (Hname : plain_name name)
  (Hext : ~ In (ch ".") extension) :
  RemoveExtensionAndNi (name ++ ch "." :: extension) = name /\
  RemoveExtensionAndNi ((name ++ W ".ni") ++ ch "." :: extension) = name.
Proof.
  destruct Hname as (Hne & Hni). apply wcsrchr_None in Hext.
  destruct (ends_in_ni_app name Hne) as (Hni' & Htake).
  split; rewrite RemoveExtensionAndNi_ext by exact Hext.
  - now rewrite Hni.
  - now rewrite Hni'.
Qed.

(** X6. [RemoveExtensionAndNi] only cuts the name: the name is the result
    followed by nothing or by a suffix that starts with a dot. *)
Theorem RemoveExtensionAndNi_is_a_prefix fileName :
  exists suffix,
    fileName = RemoveExtensionAndNi fileName ++ suffix /\
    (suffix = [] \/ exists rest, suffix = ch "." :: rest).
Proof.
  unfold RemoveExtensionAndNi.
  destruct (wcsrchr fileName (ch ".")) as [i|] eqn:E.
  - apply wcsrchr_Some in E as (a & b & -> & <- & _).
    rewrite firstn_app, Nat.sub_diag, firstn_all. simpl firstn. rewrite app_nil_r.
    destruct (ends_in_ni a) eqn:Hni.
    + apply ends_in_ni_true in Hni as (_ & Ha).
      exists (W ".ni" ++ ch "." :: b). split.
      * rewrite app_assoc, <- Ha. reflexivity.
      * right. now exists (W "ni" ++ ch "." :: b).
    + exists (ch "." :: b). split; [reflexivity|]. right. now exists b.
  - exists []. split; [now rewrite app_nil_r | now left].
Qed.

(** ** More on the search of the list *)

Lemma wcslen_needle name ext :
  wcslen (needle name ext) = wcslen name + wcslen (tl ext) + 2.
Proof.
  unfold needle. rewrite !wcslen_app.
  change (wcslen BACKSLASH) with 1. change (wcslen (W ";")) with 1. lia.
Qed.

(** One turn of the loop of [TPAListContainsFile]: the string searched is
    built in an array of [MAX_PATH] cells. *)
Lemma TPAListContainsFile_loop_step tpa name ext rest :
  TPAListContainsFile_loop tpa name (ext :: rest) =
    if wcslen (needle name ext) <? MAX_PATH then
      if wcsstr tpa (needle name ext) then Some true
      else TPAListContainsFile_loop tpa name rest
    else None.
Proof.
  rewrite wcslen_needle.
  assert (Hn : 0 <= wcslen name) by zlen.
  assert (Ht : 0 <= wcslen (tl ext)) by zlen.
  cbn [TPAListContainsFile_loop]. unfold wcscat_s, fits.
  change (wcslen BACKSLASH <? MAX_PATH) with true. cbn [bind].
  fold (needle name ext).
  destruct (wcslen (BACKSLASH ++ name) <? MAX_PATH) eqn:E2; cbn [bind];
    [destruct (wcslen ((BACKSLASH ++ name) ++ tl ext) <? MAX_PATH) eqn:E3; cbn [bind];
     [fold (needle name ext);
      destruct (wcslen (needle name ext) <? MAX_PATH) eqn:E4; cbn [bind];
      rewrite wcslen_needle in E4 | ] | ];
    rewrite ?wcslen_app in *; change (wcslen BACKSLASH) with 1 in *;
    destruct (wcslen name + wcslen (tl ext) + 2 <? MAX_PATH) eqn:E;
    try reflexivity; exfalso; lia.
Qed.

(** X7. Once the list is not null, [TPAListContainsFile] with the four
    patterns fails (the string searched does not fit in [fileName]) exactly
    for the names of 251 characters or more: a backslash, the name,
    ".ni.dll", a semicolon and the terminator are then more than [MAX_PATH]
    cells. For shorter names it returns. *)
Theorem TPAListContainsFile_fails_on_long_names he name tpa
  (Hlist : CStr (m_tpaList he) = Some tpa) :
  TPAListContainsFile he name rgTPAExtensions = None <->
  MAX_PATH <= wcslen name + 9.
Proof.
  unfold TPAListContainsFile. rewrite Hlist. unfold rgTPAExtensions.
  rewrite !TPAListContainsFile_loop_step, !wcslen_needle.
  change (wcslen (tl (W "*.ni.dll"))) with 7.
  change (wcslen (tl (W "*.dll"))) with 4.
  change (wcslen (tl (W "*.ni.exe"))) with 7.
  change (wcslen (tl (W "*.exe"))) with 4.
  cbn [TPAListContainsFile_loop]. unfold MAX_PATH.
  assert (Hn : 0 <= wcslen name) by zlen.
  destruct (wcslen name + 7 + 2 <? 260) eqn:E1.
  - destruct (wcslen name + 4 + 2 <? 260) eqn:E2; [|lia].
    split; [|lia]. intros H. exfalso.
    destruct (wcsstr tpa _); [discriminate|].
    destruct (wcsstr tpa _); [discriminate|].
    destruct (wcsstr tpa _); [discriminate|].
    destruct (wcsstr tpa _); discriminate.
  - split; [lia | reflexivity].
Qed.

(** X8. [TPAListContainsFile] does not miss an entry: when the list holds
    an entry of a given logical name (its directory ending with a backslash,
    its file name ending as one of the four patterns), the function, when it
    returns, returns true for that name. *)
Theorem TPAListContainsFile_finds_every_entry he entry exts
  (Hok : tpa_ok he)
  (Hall : Forall entry_ok (tpa_entries he))
  (Hexts : incl rgTPAExtensions exts)
  (HIn : In entry (tpa_entries he)) :
  TPAListContainsFile he (logical_name entry) exts <> Some false.
Proof.
  intros H. apply (not_contained_fresh he _ exts Hok Hall Hexts H).
  now apply in_map.
Qed.

(** X9. [TPAListContainsFile] does not take a file for another whose name
    ends or begins with its name (the backslash and the semicolon of lines
    196 and 199): when it returns true for a plain name, on a list whose
    paths hold no other semicolon, an entry of the list has exactly this
    logical name. *)
Theorem TPAListContainsFile_matches_whole_names he name exts
  (Hok : tpa_ok he)
  (Hall : Forall entry_ok (tpa_entries he))
  (Hclean : Forall clean_entry (tpa_entries he))
  (Hexts : incl exts rgTPAExtensions)
  (Hplain : plain_name name)
  (Hsemi : ~ In SEMICOLON name)
  (Hback : ~ In (hd 1%positive BACKSLASH) name)
  (Hfound : TPAListContainsFile he name exts = Some true) :
  exists entry, In entry (tpa_entries he) /\ logical_name entry = name.
Proof. exact (contained_exact he name exts Hok Hall Hclean Hexts Hplain Hsemi Hback Hfound). Qed.

(** ** The scan, in general *)

Section ScanInvariant.

(** A property [P done he] of the candidates met and of the state, kept by
    the step for one found file, is kept by the scan. [all] is the whole
    sequence of candidates. *)
Variables (exts : list wstr) (all : list (wstr * wstr)).
Variable P : list (wstr * wstr) -> HostEnvironment -> Prop.
Hypothesis P_log : forall done he e, P done he -> P done (log_event e he).
Hypothesis P_step : forall targetPath he data he' done rest,
  (exists d, targetPath = d ++ BACKSLASH) ->
  (is_file data = true ->
   exists stem ext, In ext rgTPAExtensions /\
                    map towlower (cFileName data) = stem ++ tl ext) ->
  all = done ++ (if is_file data
                 then [(targetPath, map towlower (cFileName data))] else []) ++ rest ->
  P done he ->
  add_found_file targetPath exts he data = Some he' ->
  P (done ++ (if is_file data
              then [(targetPath, map towlower (cFileName data))] else [])) he'.
Hypothesis Hsub : incl exts rgTPAExtensions.

Lemma scan_found_files targetPath found : forall he he' done rest,
  (exists d, targetPath = d ++ BACKSLASH) ->
  (forall data, In data found -> is_file data = true ->
     exists stem ext, In ext rgTPAExtensions /\
                      map towlower (cFileName data) = stem ++ tl ext) ->
  let met := map (fun data => (targetPath, map towlower (cFileName data)))
                 (filter is_file found) in
  all = done ++ met ++ rest ->
  P done he ->
  add_found_files targetPath exts he found = Some he' ->
  P (done ++ met) he'.
Proof.
  induction found as [|data found IH]; intros he he' done rest Hdir Hnames met E Hp H;
    subst met; simpl in *.
  - injection H as <-. now rewrite app_nil_r.
  - bind_inv H as he1 H1.
    assert (Hstep : P (done ++ (if is_file data
                                then [(targetPath, map towlower (cFileName data))]
                                else [])) he1).
    { eapply P_step; [exact Hdir | | | exact Hp | exact H1].
      - apply Hnames. now left.
      - rewrite E. destruct (is_file data); simpl; reflexivity. }
    destruct (is_file data); simpl in *.
    + replace (done ++ (targetPath, map towlower (cFileName data)) ::
                 map (fun d => (targetPath, map towlower (cFileName d)))
                     (filter is_file found))
        with ((done ++ [(targetPath, map towlower (cFileName data))]) ++
                 map (fun d => (targetPath, map towlower (cFileName d)))
                     (filter is_file found))
        by (now rewrite <- app_assoc).
      eapply IH; [exact Hdir | | | exact Hstep | exact H].
      * intros d Hd. apply Hnames. now right.
      * rewrite E, <- app_assoc. reflexivity.
    + rewrite app_nil_r in Hstep.
      eapply IH; [exact Hdir | | exact E | exact Hstep | exact H].
      intros d Hd. apply Hnames. now right.
Qed.

Lemma scan_patterns targetPath todo : forall he he' done rest,
  (exists d, targetPath = d ++ BACKSLASH) ->
  incl todo rgTPAExtensions ->
  finds_match targetPath todo ->
  all = done ++ candidates_of_dir targetPath todo ++ rest ->
  P done he ->
  AddFiles_loop targetPath exts todo he = Some he' ->
  P (done ++ candidates_of_dir targetPath todo) he'.
Proof.
  unfold candidates_of_dir.
  induction todo as [|ext todo IH]; intros he he' done rest Hdir Htodo Hfinds E Hp H;
    simpl in *.
  - injection H as <-. now rewrite app_nil_r.
  - bind_inv H as p1 H1. apply fits_Some in H1 as (-> & _).
    bind_inv H as p2 H2. apply wcscat_s_Some in H2 as (-> & _).
    bind_inv H as he1 H3.
    rewrite <- app_assoc in E.
    assert (Hstep : P (done ++ candidates_of_pattern targetPath ext) he1).
    { eapply scan_found_files; [exact Hdir | | exact E | | exact H3].
      - intros data Hdata Hfile.
        destruct (Hfinds ext data (or_introl eq_refl) Hdata Hfile) as (stem & Hstem).
        exists stem, ext. split; [apply Htodo; now left | exact Hstem].
      - apply P_log. exact Hp. }
    rewrite app_assoc.
    eapply IH; [exact Hdir | | | | exact Hstep | exact H].
    + intros x Hx. apply Htodo. now right.
    + intros x data Hx. apply Hfinds. now right.
    + rewrite E, <- app_assoc. reflexivity.
Qed.

Lemma scan_directories dirs : forall he he' done rest,
  Forall (fun targetPath => exists d, targetPath = d ++ BACKSLASH) dirs ->
  Forall (fun targetPath => finds_match targetPath exts) dirs ->
  all = done ++ candidates dirs exts ++ rest ->
  P done he ->
  AddDirectories dirs exts he = Some he' ->
  P (done ++ candidates dirs exts) he'.
Proof.
  unfold candidates.
  induction dirs as [|d dirs IH]; intros he he' done rest Hdirs Hfinds E Hp H;
    simpl in *.
  - injection H as <-. now rewrite app_nil_r.
  - bind_inv H as he1 H1.
    apply Forall_cons_iff in Hdirs as (Hd & Hdirs').
    apply Forall_cons_iff in Hfinds as (Hf & Hfinds').
    rewrite <- app_assoc in E.
    assert (Hstep : P (done ++ candidates_of_dir d exts) he1)
      by (eapply scan_patterns; eauto).
    rewrite app_assoc.
    eapply IH; [exact Hdirs' | exact Hfinds' | | exact Hstep | exact H].
    rewrite E, <- app_assoc. reflexivity.
Qed.

End ScanInvariant.

(** ** The list is the list of the first writers *)

Lemma wstr_eqb_eq a : forall b, wstr_eqb a b = true <-> a = b.
Proof.
  induction a as [|x a IH]; intros [|y b]; simpl; split; try congruence; auto.
  - intros H. apply andb_true_iff in H as (Hx & Ha).
    apply wchar_eqb_eq in Hx as ->. apply IH in Ha as ->. reflexivity.
  - intros [= -> ->]. apply andb_true_iff. split.
    + now apply wchar_eqb_eq.
    + now apply IH.
Qed.

Lemma existsb_wstr_eqb x l : existsb (wstr_eqb x) l = true <-> In x l.
Proof.
  rewrite existsb_exists. split.
  - intros (y & Hy & E). apply wstr_eqb_eq in E as ->. exact Hy.
  - intros H. exists x. split; [exact H | now apply wstr_eqb_eq].
Qed.

Lemma first_writers_snoc cs c :
  first_writers (cs ++ [c]) = keep_first (first_writers cs) c.
Proof. unfold first_writers. now rewrite fold_left_app. Qed.

Lemma fold_keep_first_incl cs : forall kept,
  incl (fold_left keep_first cs kept) (kept ++ cs).
Proof.
  induction cs as [|c cs IH]; intros kept; simpl.
  - rewrite app_nil_r. apply incl_refl.
  - intros x Hx. apply IH in Hx. unfold keep_first in Hx.
    destruct (existsb _ _).
    + apply in_app_or in Hx as [Hx | Hx]; apply in_or_app; [now left|].
      right. now right.
    + rewrite <- app_assoc in Hx. exact Hx.
Qed.

Lemma first_writers_incl cs : incl (first_writers cs) cs.
Proof. exact (fold_keep_first_incl cs []). Qed.

Lemma first_writers_step exts all targetPath he data he' done rest :
  Forall clean_entry all ->
  Forall (fun c => plain_name (logical_name c)) all ->
  incl rgTPAExtensions exts -> incl exts rgTPAExtensions ->
  (exists d, targetPath = d ++ BACKSLASH) ->
  (is_file data = true ->
   exists stem ext, In ext rgTPAExtensions /\
                    map towlower (cFileName data) = stem ++ tl ext) ->
  let seg := if is_file data
             then [(targetPath, map towlower (cFileName data))] else [] in
  all = done ++ seg ++ rest ->
  tpa_inv he /\ tpa_entries he = first_writers done ->
  add_found_file targetPath exts he data = Some he' ->
  tpa_inv he' /\ tpa_entries he' = first_writers (done ++ seg).
Proof.
  intros Hclean Hplain Hi1 Hi2 Hdir Hname seg E (Hinv & Hfw) H.
  assert (Hinv' : tpa_inv he') by (eapply add_found_file_inv; eauto).
  split; [exact Hinv'|].
  destruct Hinv as (Hok & Hall & Hnd).
  rewrite Forall_forall in Hclean, Hplain.
  destruct (add_found_file_cases _ _ _ _ _ Hok H)
    as [(-> & Hwhy) | (Hfile & Hfalse & He & _)]; subst seg.
  - destruct (is_file data) eqn:Hfile; [|now rewrite app_nil_r].
    destruct Hwhy as [Hwhy | Hwhy]; [discriminate|].
    set (x := (targetPath, map towlower (cFileName data))) in *.
    assert (Hx : In x all) by (rewrite E; apply in_or_app; right; now left).
    destruct (clean_entry_In x (Hclean x Hx)) as (_ & C2 & C3).
    destruct (contained_exact he (logical_name x) exts Hok Hall) as (entry & HIn & Hsame);
      [ | exact Hi2 | exact (Hplain x Hx) | | | exact Hwhy | ].
    + apply Forall_forall. intros e He. apply Hclean. rewrite E.
      apply in_or_app. left. apply first_writers_incl. now rewrite <- Hfw.
    + intros HI. now apply RemoveExtensionAndNi_In in HI.
    + intros HI. now apply RemoveExtensionAndNi_In in HI.
    + rewrite first_writers_snoc, <- Hfw. unfold keep_first.
      replace (existsb (wstr_eqb (logical_name x)) (map logical_name (tpa_entries he)))
        with true; [reflexivity|].
      symmetry. apply existsb_wstr_eqb. rewrite <- Hsame. now apply in_map.
  - rewrite Hfile in *. rewrite He, first_writers_snoc, <- Hfw. unfold keep_first.
    replace (existsb (wstr_eqb (logical_name (targetPath, map towlower (cFileName data))))
               (map logical_name (tpa_entries he)))
      with false; [reflexivity|].
    symmetry. apply not_true_is_false. intros Hex.
    apply existsb_wstr_eqb in Hex.
    exact (not_contained_fresh he _ exts Hok Hall Hi1 Hfalse Hex).
Qed.

(** X10. The list that the build produces is the list of the first writers
    of the scan: each candidate whose logical name none of the candidates
    kept before it has, in the order of the scan. This is proved for
    searches that return only files whose names end, in lower case, with the
    tail of the pattern searched ([finds_match]), and where the search of
    [TPAListContainsFile] is exact: plain logical names, paths without
    semicolons. *)
Theorem tpa_entries_are_the_first_writers dirs exts he he'
  (Hbuffer : m_tpaList he = StringBuffer_new)
  (Hentries : tpa_entries he = [])
  (Hexts : Permutation exts rgTPAExtensions)
  (Hdirs : Forall (fun targetPath => exists d, targetPath = d ++ BACKSLASH) dirs)
  (Hfinds : Forall (fun targetPath => finds_match targetPath exts) dirs)
  (Hclean : Forall clean_entry (candidates dirs exts))
  (Hplain : Forall (fun c => plain_name (logical_name c)) (candidates dirs exts))
  (Hbuild : AddDirectories dirs exts he = Some he') :
  tpa_entries he' = first_writers (candidates dirs exts) /\
  contents (m_tpaList he') = flat (first_writers (candidates dirs exts)).
Proof.
  assert (Hi1 : incl rgTPAExtensions exts)
    by (intros x Hx; eapply Permutation_in; [symmetry; exact Hexts | exact Hx]).
  assert (Hi2 : incl exts rgTPAExtensions)
    by (intros x Hx; eapply Permutation_in; [exact Hexts | exact Hx]).
  destruct (scan_directories exts (candidates dirs exts)
              (fun done h => tpa_inv h /\ tpa_entries h = first_writers done))
    with (dirs := dirs) (he := he) (he' := he') (done := @nil (wstr * wstr))
         (rest := @nil (wstr * wstr))
    as (((_ & Hflat & _) & _) & Hfw); auto.
  - intros targetPath h data h' done rest Hdir Hname E Hp H.
    eapply first_writers_step; eauto.
  - now rewrite app_nil_r.
  - split; [now apply tpa_inv_empty | now rewrite Hentries].
  - simpl in Hfw. rewrite <- Hfw. auto.
Qed.

(** ** The order of the searches *)

Lemma AddFiles_loop_searches targetPath exts todo : forall he he',
  AddFiles_loop targetPath exts todo he = Some he' ->
  events he' =
    events he ++ map (fun ext => EvFindFirstFile (targetPath ++ ext)) todo.
Proof.
  induction todo as [|ext todo IH]; simpl; intros he he' H.
  - injection H as <-. now rewrite app_nil_r.
  - bind_inv H as p1 H1. apply fits_Some in H1 as (-> & _).
    bind_inv H as p2 H2. apply wcscat_s_Some in H2 as (-> & _).
    bind_inv H as he1 H3.
    apply IH in H. apply add_found_files_events in H3.
    rewrite H, H3. simpl. now rewrite <- app_assoc.
Qed.

Lemma AddDirectories_searches dirs exts : forall he he',
  AddDirectories dirs exts he = Some he' ->
  events he' = events he ++ searches dirs exts.
Proof.
  unfold searches.
  induction dirs as [|d dirs IH]; simpl; intros he he' H.
  - injection H as <-. now rewrite app_nil_r.
  - bind_inv H as he1 H1. apply AddFiles_loop_searches in H1.
    apply IH in H. rewrite H, H1. now rewrite <- app_assoc.
Qed.

(** X11. On a null buffer, [GetTpaList] makes the searches of the directory
    of CORE_LIBRARIES first (when the variable is found), then those of the
    directory of the runtime; for each directory it searches "*.ni.dll",
    "*.dll", "*.ni.exe" and "*.exe" in this order, each once, whatever the
    files found; it makes no other call. *)
Theorem GetTpaList_search_order he tpa he'
  (Hnull : CStr (m_tpaList he) = None)
  (Hget : GetTpaList he = Some (tpa, he')) :
  events he' = events he ++ searches (tpa_directories he) rgTPAExtensions.
Proof.
  apply GetTpaList_builds in Hget as (Hbuild & _); [|exact Hnull].
  exact (AddDirectories_searches _ _ _ _ Hbuild).
Qed.

(** ** The paths of the constructor *)

Lemma take_drop {A} n (l : list A) : take n l ++ drop n l = l.
Proof. apply firstn_skipn. Qed.

Lemma lastBackslashIndex_Some (path : wstr) :
  In (hd 1%positive BACKSLASH) path ->
  exists a b,
    path = a ++ BACKSLASH ++ b /\
    ~ In (hd 1%positive BACKSLASH) b /\
    lastBackslashIndex path = wcslen a /\
    take (lastBackslashIndex path + 1) path = a ++ BACKSLASH /\
    drop (lastBackslashIndex path + 1) path = b.
Proof.
  intros HIn. unfold lastBackslashIndex.
  destruct (wcsrchr path (hd 1%positive BACKSLASH)) as [i|] eqn:E.
  - apply wcsrchr_Some in E as (a & b & -> & <- & Hb).
    exists a, b. split; [reflexivity|]. split; [now apply wcsrchr_None|].
    split; [reflexivity|].
    unfold take, drop.
    replace (Z.to_nat (Z.of_nat (length a) + 1)) with (length (a ++ BACKSLASH))
      by (rewrite length_app; simpl; lia).
    change (a ++ hd 1%positive BACKSLASH :: b) with (a ++ BACKSLASH ++ b).
    rewrite (app_assoc a BACKSLASH b).
    split.
    + rewrite firstn_app, Nat.sub_diag, firstn_all. simpl. apply app_nil_r.
    + rewrite skipn_app, Nat.sub_diag, skipn_all. reflexivity.
  - apply wcsrchr_None in E. contradiction.
Qed.

Lemma lastBackslashIndex_None (path : wstr) :
  ~ In (hd 1%positive BACKSLASH) path -> lastBackslashIndex path = -1.
Proof.
  intros H. apply wcsrchr_None in H. unfold lastBackslashIndex. now rewrite H.
Qed.

(** X12. The constructor cuts the path of the host at its last backslash:
    the directory followed by the name is the path, the name holds no
    backslash, and the directory is empty or ends with a backslash. *)
Theorem host_path_is_directory_and_name he
  (Hnew : HostEnvironment_new = Some he) :
  m_hostPath he = m_hostDirectoryPath he ++ m_hostExeName he /\
  ~ In (hd 1%positive BACKSLASH) (m_hostExeName he) /\
  (m_hostDirectoryPath he = [] \/
   exists d, m_hostDirectoryPath he = d ++ BACKSLASH).
Proof.
  unfold HostEnvironment_new in Hnew.
  bind_inv Hnew as hostDir Hdir. apply fits_Some in Hdir as (-> & _).
  bind_inv Hnew as [m1 evs1] H1. bind_inv Hnew as [m2 evs2] H2.
  injection Hnew as <-. cbn [m_hostPath m_hostDirectoryPath m_hostExeName].
  change (MAX_PATH - 1) with 259.
  set (path := take 259 (host_module_path os)).
  split; [symmetry; apply take_drop|].
  destruct (in_dec Pos.eq_dec (hd 1%positive BACKSLASH) path) as [HIn | Hno].
  - destruct (lastBackslashIndex_Some path HIn) as (a & b & _ & Hb & _ & -> & ->).
    split; [exact Hb | right; now exists a].
  - rewrite (lastBackslashIndex_None path Hno). split; [exact Hno | now left].
Qed.

Lemma directory_of_backslash (path : wstr) :
  In (hd 1%positive BACKSLASH) path ->
  exists d, directory_of path = d ++ BACKSLASH.
Proof.
  intros HIn. unfold directory_of.
  destruct (lastBackslashIndex_Some path HIn) as (a & b & _ & _ & Hi & -> & _).
  rewrite Hi. destruct (wcslen a >=? 0) eqn:E; [now exists a | zlen].
Qed.

Lemma HostEnvironment_new_directory he module :
  HostEnvironment_new = Some he ->
  m_coreCLRModule he = Some module ->
  m_coreCLRDirectoryPath he = directory_of (GetModuleFileName_MAX_PATH module).
Proof.
  unfold HostEnvironment_new. intros Hnew.
  bind_inv Hnew as hostDir Hdir.
  bind_inv Hnew as [m1 evs1] H1. bind_inv Hnew as [m2 evs2] H2.
  injection Hnew as <-. simpl. intros ->. reflexivity.
Qed.

(** X13. The list that [GetTpaList] returns for the state the constructor
    leaves, when the runtime was loaded from a path with a backslash and
    every file that a search returns has a name that ends, in lower case,
    with the tail of the pattern searched ([finds_match]): no two entries
    have the same logical name, and the string returned is made of the
    entries, each followed by a semicolon (a null pointer when there is no
    entry). *)
Theorem GetTpaList_has_each_logical_name_once he module tpa he'
  (Hnew : HostEnvironment_new = Some he)
  (Hmodule : m_coreCLRModule he = Some module)
  (Hpath : In (hd 1%positive BACKSLASH) (GetModuleFileName_MAX_PATH module))
  (Hfinds : Forall (fun targetPath => finds_match targetPath rgTPAExtensions)
                   (tpa_directories he))
  (Hget : GetTpaList he = Some (tpa, he')) :
  NoDup (map logical_name (tpa_entries he')) /\
  match tpa with
  | Some list => list = flat (tpa_entries he')
  | None => tpa_entries he' = []
  end.
Proof.
  destruct (HostEnvironment_new_inv he Hnew) as (_ & Hb & He & _).
  assert (Hnull : CStr (m_tpaList he) = None) by (now rewrite Hb).
  apply GetTpaList_builds in Hget as (Hbuild & ->); [|exact Hnull].
  assert (Hinv : tpa_inv he').
  { apply (AddDirectories_inv (tpa_directories he) rgTPAExtensions he he');
      [now apply tpa_inv_empty | | apply incl_refl | apply incl_refl
       | exact Hfinds | exact Hbuild].
    unfold tpa_directories. apply Forall_app. split.
    - destruct (env_is_set _); repeat constructor. now eexists.
    - repeat constructor.
      rewrite (HostEnvironment_new_directory he module Hnew Hmodule).
      now apply directory_of_backslash. }
  destruct Hinv as ((_ & Hflat & Hnil) & _ & Hnd). split; [exact Hnd|].
  unfold CStr, contents in *. destruct (m_buffer (m_tpaList he')); simpl; auto.
Qed.

(** ** The runtime host is obtained once *)

(** X14. [GetCLRRuntimeHost] keeps the interface it obtained: after a call
    that returned it, every call returns it, calls nothing and leaves the
    state as it is. *)
Theorem GetCLRRuntimeHost_is_cached he he1
  (Hget : GetCLRRuntimeHost he = (true, he1)) :
  GetCLRRuntimeHost he1 = (true, he1).
Proof.
  unfold GetCLRRuntimeHost in *.
  destruct (m_CLRRuntimeHost he) eqn:E; simpl in Hget.
  - injection Hget as <-. now rewrite E.
  - destruct (m_coreCLRModule he); [|discriminate].
    destruct (negb _); [discriminate|].
    destruct (FAILED _); [discriminate|].
    injection Hget as <-. reflexivity.
Qed.

(** ** The calls of a run *)

Lemma add_found_file_members targetPath exts he data he' :
  add_found_file targetPath exts he data = Some he' ->
  other_members he' = other_members he.
Proof.
  unfold add_found_file. intros H.
  destruct (is_file data); [|now injection H as <-].
  bind_inv H as n Hn. bind_inv H as present Hp.
  destruct (negb present); [|now injection H as <-].
  bind_inv H as f Hf. bind_inv H as sb1 H1. bind_inv H as sb2 H2.
  now injection H as <-.
Qed.

Lemma add_found_files_members targetPath exts found : forall he he',
  add_found_files targetPath exts he found = Some he' ->
  other_members he' = other_members he.
Proof.
  induction found as [|data found IH]; simpl; intros he he' H.
  - now injection H as <-.
  - bind_inv H as he1 H1. apply IH in H. apply add_found_file_members in H1.
    congruence.
Qed.

Lemma AddFiles_loop_members targetPath exts todo : forall he he',
  AddFiles_loop targetPath exts todo he = Some he' ->
  other_members he' = other_members he.
Proof.
  induction todo as [|ext todo IH]; simpl; intros he he' H.
  - now injection H as <-.
  - bind_inv H as p1 H1. bind_inv H as p2 H2. bind_inv H as he1 H3.
    apply IH in H. apply add_found_files_members in H3. rewrite H, H3. reflexivity.
Qed.

Lemma GetTpaList_members he tpa he' :
  GetTpaList he = Some (tpa, he') -> other_members he' = other_members he.
Proof.
  unfold GetTpaList, AddFilesFromDirectoryToTPAList. intros H.
  destruct (CStr (m_tpaList he)); [now injection H as _ <-|].
  bind_inv H as he1 H1. bind_inv H as he2 H2. injection H as _ <-.
  apply AddFiles_loop_members in H2. rewrite H2.
  destruct (env_is_set _).
  - bind_inv H1 as c Hc. now apply AddFiles_loop_members in H1.
  - now injection H1 as <-.
Qed.

(** The record of the calls of [TryRun]: the attempts of the constructor,
    the load of the managed module, and the calls of the runtime host up to
    the first that fails. *)
Lemma TryRun_trace argv programPath r he :
  HostEnvironment_new = Some he ->
  TryRun argv programPath = Some r ->
  match LoadLibraryExW os programPath with
  | None => run_events r = events he ++ [EvLoadLibrary programPath]
  | Some module =>
      if host_reachable programPath he then
        exists found tpa,
          run_events r =
            events he ++ EvLoadLibrary programPath ::
            host_calls he module argv found tpa /\
          (until_failure [StGetCLRRuntimeHost; StSetStartupFlags; StAuthenticate; StStart]
             = [StGetCLRRuntimeHost; StSetStartupFlags; StAuthenticate; StStart] ->
           stage_fails StStart = false ->
           exists he1 he2,
             m_tpaList he1 = m_tpaList he /\ tpa_entries he1 = tpa_entries he /\
             m_coreCLRDirectoryPath he1 = m_coreCLRDirectoryPath he /\
             GetTpaList he1 = Some (tpa, he2))
      else run_events r = events he ++ [EvLoadLibrary programPath]
  end.
Proof.
  intros Hnew H.
  destruct (HostEnvironment_new_inv he Hnew) as (_ & _ & _ & Hhost).
  unfold TryRun, run_return in H. rewrite Hnew in H. cbn [bind] in H.
  unfold host_reachable, host_calls.
  destruct (LoadLibraryExW os programPath) as [module|].
  2:{ injection H as <-. reflexivity. }
  unfold GetCLRRuntimeHost in H. cbn [log_event m_CLRRuntimeHost m_coreCLRModule] in H.
  rewrite Hhost in H. cbn [negb] in H.
  destruct (m_coreCLRModule he) as [runtime|].
  2:{ injection H as <-. reflexivity. }
  destruct (GetProcAddress_GetCLRRuntimeHost os runtime); cbn [negb] in H.
  2:{ injection H as <-. reflexivity. }
  cbn [until_failure stage_fails].
  destruct (FAILED (hr_GetCLRRuntimeHost os)); cbn [negb] in H.
  { injection H as <-. exists [], None. split; [|discriminate].
    simpl. now rewrite <- app_assoc. }
  destruct (FAILED (hr_SetStartupFlags os)).
  { injection H as <-. exists [], None. split; [|discriminate].
    simpl. now rewrite <- !app_assoc. }
  destruct (FAILED (hr_Authenticate os)).
  { injection H as <-. exists [], None. split; [|discriminate].
    simpl. now rewrite <- !app_assoc. }
  destruct (FAILED (hr_Start os)).
  { injection H as <-. exists [], None. split; [|discriminate].
    simpl. now rewrite <- !app_assoc. }
  bind_inv H as [tpa he2] Hget.
  destruct (GetTpaList_events _ _ _ Hget) as (found & Hev).
  assert (Hmem := GetTpaList_members _ _ _ Hget). unfold other_members in Hmem.
  injection Hmem as _ _ Hname _ _ Hdir. simpl in Hname, Hdir, Hev.
  exists found, tpa. split.
  2:{ intros _ _. eexists _, he2. split; [|split; [|split; [|exact Hget]]];
      reflexivity. }
  unfold post_execute, domain_values.
  destruct (FAILED (hr_CreateAppDomainWithManager os)).
  { injection H as <-. simpl. rewrite Hev, Hname. now rewrite <- !app_assoc. }
  destruct (FAILED (hr_ExecuteAssembly os)).
  { injection H as <-. simpl. rewrite Hev, Hname. now rewrite <- !app_assoc. }
  destruct (FAILED (hr_UnloadAppDomain os)).
  { injection H as <-. simpl. rewrite Hev, Hname. now rewrite <- !app_assoc. }
  destruct (FAILED (hr_Stop os)).
  { injection H as <-. simpl. rewrite Hev, Hname. now rewrite <- !app_assoc. }
  injection H as <-. simpl. rewrite Hev, Hname. now rewrite <- !app_assoc.
Qed.

Lemma host_stages_app a b : host_stages (a ++ b) = host_stages a ++ host_stages b.
Proof. unfold host_stages. apply flat_map_app. Qed.

Lemma host_stages_searches found : host_stages (map EvFindFirstFile found) = [].
Proof. induction found as [|p found IH]; simpl in *; auto. Qed.

Lemma HostEnvironment_new_loads he :
  HostEnvironment_new = Some he ->
  exists paths, events he = map EvLoadLibrary paths.
Proof.
  unfold HostEnvironment_new. intros Hnew.
  bind_inv Hnew as hostDir Hdir.
  bind_inv Hnew as [m1 evs1] H1. bind_inv Hnew as [m2 evs2] H2.
  injection Hnew as <-. simpl.
  assert (E1 : exists paths, evs1 = map EvLoadLibrary paths).
  { destruct (env_is_set _).
    - bind_inv H1 as c Hc. apply TryLoadCoreCLR_events in H1 as (p & ->).
      now exists [p].
    - injection H1 as _ <-. now exists []. }
  destruct E1 as (paths & ->). destruct m1.
  - injection H2 as _ <-. now exists paths.
  - apply TryLoadCoreCLR_events in H2 as (p & ->).
    exists (paths ++ [p]). now rewrite map_app.
Qed.

Lemma host_stages_loads paths : host_stages (map EvLoadLibrary paths) = [].
Proof. induction paths as [|p paths IH]; simpl in *; auto. Qed.

Lemma host_stages_host_calls he module argv found tpa :
  host_stages (host_calls he module argv found tpa) = until_failure all_stages.
Proof.
  unfold host_calls, all_stages, post_execute. cbn [until_failure stage_fails].
  destruct (FAILED (hr_GetCLRRuntimeHost os)); [reflexivity|].
  destruct (FAILED (hr_SetStartupFlags os)); [reflexivity|].
  destruct (FAILED (hr_Authenticate os)); [reflexivity|].
  destruct (FAILED (hr_Start os)); [reflexivity|].
  change (EvGetCLRRuntimeHost :: EvSetStartupFlags :: EvAuthenticate :: EvStart ::
          map EvFindFirstFile found ++ ?x)
    with ([EvGetCLRRuntimeHost; EvSetStartupFlags; EvAuthenticate; EvStart] ++
          map EvFindFirstFile found ++ x).
  rewrite !host_stages_app, host_stages_searches. simpl.
  destruct (FAILED (hr_CreateAppDomainWithManager os)); [reflexivity|].
  destruct (FAILED (hr_ExecuteAssembly os)); [reflexivity|].
  destruct (FAILED (hr_UnloadAppDomain os)); [reflexivity|].
  destruct (FAILED (hr_Stop os)); reflexivity.
Qed.

(** X15. The calls that [TryRun] makes of the runtime host are the nine
    stages in their order (get the host, set the flags, authenticate, start,
    create the domain, execute, unload, stop, release), up to the first
    stage that fails and with it: no stage is called after a failure, none
    is skipped, none is repeated. None is called when the managed module
    does not load or the runtime is not available. *)
Theorem TryRun_stages_in_order argv programPath r he
  (Hnew : HostEnvironment_new = Some he)
  (Hrun : TryRun argv programPath = Some r) :
  host_stages (run_events r) =
    if host_reachable programPath he then until_failure all_stages else [].
Proof.
  pose proof (TryRun_trace argv programPath r he Hnew Hrun) as T.
  destruct (HostEnvironment_new_loads he Hnew) as (paths & Hloads).
  assert (Hpre : forall p, host_stages (events he ++ [EvLoadLibrary p]) = []).
  { intros p. rewrite host_stages_app, Hloads, host_stages_loads. reflexivity. }
  unfold host_reachable in *.
  destruct (LoadLibraryExW os programPath) as [module|].
  - destruct (m_coreCLRModule he) as [runtime|]; [|rewrite T; apply Hpre].
    destruct (GetProcAddress_GetCLRRuntimeHost os runtime); [|rewrite T; apply Hpre].
    destruct T as (found & tpa & -> & _).
    change (events he ++ EvLoadLibrary programPath :: ?x)
      with (events he ++ [EvLoadLibrary programPath] ++ x).
    rewrite app_assoc, host_stages_app, Hpre. simpl.
    apply host_stages_host_calls.
  - rewrite T. apply Hpre.
Qed.

(** X16. [TryRun] returns true exactly when it has released the runtime
    host, which it does only after every stage has succeeded. *)
Theorem TryRun_succeeds_iff_released argv programPath r
  (Hrun : TryRun argv programPath = Some r) :
  run_success r = true <-> In EvRelease (run_events r).
Proof.
  apply TryRun_shape in Hrun as (pre & F & [C | [C | C]]).
  - destruct C as (-> & -> & _). split; [discriminate|].
    intros HIn. rewrite Forall_forall in F. destruct (F _ HIn).
  - destruct C as (nm & vs & -> & _ & -> & _). split; [discriminate|].
    intros HIn. apply in_app_or in HIn as [HIn | [HIn | []]]; [|discriminate].
    rewrite Forall_forall in F. destruct (F _ HIn).
  - destruct C as (nm & vs & asm & -> & _ & -> & _).
    unfold teardown_ok, post_execute. split.
    + intros H. apply in_or_app. right. right. right.
      destruct (FAILED (hr_ExecuteAssembly os)); [discriminate|].
      destruct (FAILED (hr_UnloadAppDomain os)); [discriminate|].
      destruct (FAILED (hr_Stop os)); [discriminate|].
      simpl. auto.
    + intros HIn. apply in_app_or in HIn as [HIn | [HIn | [HIn | HIn]]];
        try discriminate.
      * rewrite Forall_forall in F. destruct (F _ HIn).
      * destruct (FAILED (hr_ExecuteAssembly os)); [destruct HIn|].
        destruct (FAILED (hr_UnloadAppDomain os));
          [destruct HIn as [HIn | []]; discriminate|].
        destruct (FAILED (hr_Stop os)); [|reflexivity].
        destruct HIn as [HIn | [HIn | []]]; discriminate.
Qed.

Lemma In_host_calls_create he module argv found tpa name n keys values :
  In (EvCreateAppDomain name n keys values) (host_calls he module argv found tpa) ->
  name = m_hostExeName he /\ n = 4 /\ keys = property_keys /\
  values = domain_values he module tpa /\
  until_failure [StGetCLRRuntimeHost; StSetStartupFlags; StAuthenticate; StStart]
    = [StGetCLRRuntimeHost; StSetStartupFlags; StAuthenticate; StStart] /\
  stage_fails StStart = false.
Proof.
  unfold host_calls, post_execute. cbn [until_failure stage_fails].
  destruct (FAILED (hr_GetCLRRuntimeHost os));
    [intros [H | []]; discriminate|].
  destruct (FAILED (hr_SetStartupFlags os));
    [intros [H | [H | []]]; discriminate|].
  destruct (FAILED (hr_Authenticate os));
    [intros [H | [H | [H | []]]]; discriminate|].
  destruct (FAILED (hr_Start os));
    [intros [H | [H | [H | [H | []]]]]; discriminate|].
  intros [H | [H | [H | [H | H]]]]; try discriminate.
  apply in_app_or in H as [H | [H | H]].
  - apply in_map_iff in H as (x & Hx & _). discriminate.
  - injection H as <- <- <- <-. repeat split; reflexivity.
  - exfalso.
    destruct (FAILED (hr_CreateAppDomainWithManager os)); [destruct H|].
    destruct H as [H | H]; [discriminate|].
    destruct (FAILED (hr_ExecuteAssembly os)); [destruct H|].
    destruct H as [H | H]; [discriminate|].
    destruct (FAILED (hr_UnloadAppDomain os)); [destruct H|].
    destruct H as [H | H]; [discriminate|].
    destruct (FAILED (hr_Stop os));
      [destruct H | destruct H as [H | []]; discriminate].
Qed.

(** X17. What [CreateAppDomainWithManager] receives: the name of the host
    executable as the name of the domain, and four values, one for each
    key: the list that [GetTpaList] returned, the directory of the managed
    module, this directory twice with a semicolon between, and this
    directory, the value of CORE_LIBRARIES when it is found and the
    directory of the runtime, with semicolons between. *)
Theorem domain_properties_passed argv programPath r he name n keys values
  (Hnew : HostEnvironment_new = Some he)
  (Hrun : TryRun argv programPath = Some r)
  (Hcall : In (EvCreateAppDomain name n keys values) (run_events r)) :
  name = m_hostExeName he /\
  n = Z.of_nat (length values) /\ length values = length keys /\
  exists module tpa he1 he2,
    LoadLibraryExW os programPath = Some module /\
    values = domain_values he module tpa /\
    m_tpaList he1 = StringBuffer_new /\ tpa_entries he1 = [] /\
    m_coreCLRDirectoryPath he1 = m_coreCLRDirectoryPath he /\
    GetTpaList he1 = Some (tpa, he2).
Proof.
  pose proof (TryRun_trace argv programPath r he Hnew Hrun) as T.
  destruct (HostEnvironment_new_loads he Hnew) as (paths & Hloads).
  destruct (HostEnvironment_new_inv he Hnew) as (_ & Hb & He & _).
  assert (Hpre : forall p x,
    In (EvCreateAppDomain name n keys values) (events he ++ EvLoadLibrary p :: x) ->
    In (EvCreateAppDomain name n keys values) x).
  { intros p x HIn. apply in_app_or in HIn as [HIn | [HIn | HIn]].
    - rewrite Hloads in HIn. apply in_map_iff in HIn as (y & Hy & _). discriminate.
    - discriminate.
    - exact HIn. }
  destruct (LoadLibraryExW os programPath) as [module|].
  2:{ rewrite T in Hcall. apply Hpre in Hcall. destruct Hcall. }
  destruct (host_reachable programPath he).
  2:{ rewrite T in Hcall. apply Hpre in Hcall. destruct Hcall. }
  destruct T as (found & tpa & E & Hget).
  rewrite E in Hcall. apply Hpre in Hcall.
  apply In_host_calls_create in Hcall as (-> & -> & -> & -> & H1 & H2).
  destruct (Hget H1 H2) as (he1 & he2 & Ht & Hent & Hd & Hg).
  split; [reflexivity|]. split; [reflexivity|]. split; [reflexivity|].
  exists module, tpa, he1, he2. rewrite Ht, Hent. auto 10.
Qed.

(** ** The command line *)

Lemma stringsEqual_eq a b : stringsEqual a b = true <-> map towlower a = map towlower b.
Proof. apply wstr_eqb_eq. Qed.

Lemma tryParseOption_is_option o arg :
  tryParseOption o arg <> None <-> is_option arg = true.
Proof.
  unfold tryParseOption, is_option, is_verbose_option, is_debug_option,
    is_help_option.
  destruct (stringsEqual arg (W "/_v") || stringsEqual arg (W "-_v"));
    [split; [reflexivity | discriminate]|].
  destruct (stringsEqual arg (W "/_d") || stringsEqual arg (W "-_d"));
    [split; [reflexivity | discriminate]|].
  destruct (stringsEqual arg (W "/_h") || stringsEqual arg (W "-_h"));
    [split; [reflexivity | discriminate]|].
  split; [congruence | discriminate].
Qed.

(** X18. An argument is an option exactly when, in lower case, it is one
    of "/_v", "-_v", "/_d", "-_d", "/_h", "-_h": the letters may be capitals,
    nothing may precede or follow them. *)
Theorem options_ignore_case o arg :
  tryParseOption o arg <> None <->
  In (map towlower arg)
     [W "/_v"; W "-_v"; W "/_d"; W "-_d"; W "/_h"; W "-_h"].
Proof.
  rewrite tryParseOption_is_option.
  unfold is_option, is_verbose_option, is_debug_option, is_help_option.
  rewrite !orb_true_iff, !stringsEqual_eq. simpl In.
  change (map towlower (W "/_v")) with (W "/_v").
  change (map towlower (W "-_v")) with (W "-_v").
  change (map towlower (W "/_d")) with (W "/_d").
  change (map towlower (W "-_d")) with (W "-_d").
  change (map towlower (W "/_h")) with (W "/_h").
  change (map towlower (W "-_h")) with (W "-_h").
  intuition congruence.
Qed.

Lemma tryParseOption_flags o arg o' :
  tryParseOption o arg = Some o' ->
  verbose o' = verbose o || is_verbose_option arg /\
  waitForDebugger o' = waitForDebugger o || is_debug_option arg /\
  helpRequested o' = helpRequested o || is_help_option arg.
Proof.
  unfold tryParseOption.
  assert (Hex : forall x y : wstr,
    map towlower x <> map towlower y ->
    stringsEqual arg x = true -> stringsEqual arg y = false).
  { intros x y Hne Hx. apply stringsEqual_eq in Hx.
    destruct (stringsEqual arg y) eqn:Hy; [|reflexivity].
    apply stringsEqual_eq in Hy. congruence. }
  unfold is_verbose_option, is_debug_option, is_help_option.
  destruct (stringsEqual arg (W "/_v")) eqn:V1;
    [|destruct (stringsEqual arg (W "-_v")) eqn:V2;
      [|destruct (stringsEqual arg (W "/_d")) eqn:D1;
        [|destruct (stringsEqual arg (W "-_d")) eqn:D2;
          [|destruct (stringsEqual arg (W "/_h")) eqn:H1;
            [|destruct (stringsEqual arg (W "-_h")) eqn:H2]]]]];
    cbn [orb]; intros [= <-]; cbn [verbose waitForDebugger helpRequested];
    rewrite ?orb_true_r, ?orb_false_r;
    repeat match goal with
      | Hx : stringsEqual arg ?x = true |- context [stringsEqual arg ?y] =>
          rewrite (Hex x y) by (discriminate || exact Hx)
      end;
    rewrite ?orb_true_r, ?orb_false_r; auto.
Qed.

(** X19. The loop of line 651 takes the options at the head of the
    arguments and stops at the first argument that is not one: the
    arguments are the options taken followed by what is left, what is left
    does not start with an option and is kept as it is (options among it
    too), and each flag is set when it was set or when one of the options
    taken sets it. *)
Theorem parse_options_takes_leading_options args : forall o,
  exists taken,
    args = taken ++ snd (parse_options o args) /\
    forallb is_option taken = true /\
    match snd (parse_options o args) with
    | [] => True
    | arg :: _ => is_option arg = false
    end /\
    verbose (fst (parse_options o args)) =
      verbose o || existsb is_verbose_option taken /\
    waitForDebugger (fst (parse_options o args)) =
      waitForDebugger o || existsb is_debug_option taken /\
    helpRequested (fst (parse_options o args)) =
      helpRequested o || existsb is_help_option taken.
Proof.
  induction args as [|arg args IH]; intros o; simpl.
  - exists []. simpl. rewrite !orb_false_r. repeat split.
  - destruct (tryParseOption o arg) as [o'|] eqn:E.
    + destruct (IH o') as (taken & Hargs & Hall & Hrest & Hv & Hd & Hh).
      destruct (tryParseOption_flags o arg o' E) as (Fv & Fd & Fh).
      exists (arg :: taken). simpl.
      split; [now rewrite <- Hargs|]. split.
      * rewrite Hall, andb_true_r.
        apply (tryParseOption_is_option o arg). congruence.
      * split; [exact Hrest|].
        rewrite Hv, Hd, Hh, Fv, Fd, Fh, !orb_assoc. auto.
    + exists []. simpl. rewrite !orb_false_r. repeat split; auto.
      destruct (is_option arg) eqn:Ho; [|reflexivity].
      apply (tryParseOption_is_option o arg) in Ho. congruence.
Qed.

(** X20. With help requested, or under a name whose extension is not "exe"
    (in these very letters), [wmain] returns -1 at once: it calls neither
    the loader nor the runtime host. *)
Theorem wmain_rejects_without_calls argv0 args dot
  (Hdot : wcsrchr argv0 (ch ".") = Some dot)
  (Hreject : wstr_eqb (skipn (S dot) argv0) (W "exe") = false \/
             helpRequested (fst (parse_options no_options args)) = true) :
  wmain argv0 args =
    Some {| main_return := -1; main_success := None; main_events := [] |}.
Proof.
  unfold wmain. rewrite Hdot.
  destruct (wstr_eqb (skipn (S dot) argv0) (W "exe")); [|reflexivity].
  destruct Hreject as [Hr | Hr]; [discriminate|].
  cbn [negb]. fold no_options.
  destruct (parse_options no_options args) as [o newArgv]. simpl in Hr.
  now rewrite Hr.
Qed.

Lemma In_host_calls_execute he module argv found tpa id assembly argv' :
  In (EvExecuteAssembly id assembly argv') (host_calls he module argv found tpa) ->
  id = created_domainId os /\ assembly = GetModuleFileName_MAX_PATH module /\
  argv' = argv.
Proof.
  unfold host_calls, post_execute.
  destruct (FAILED (hr_GetCLRRuntimeHost os));
    [intros [H | []]; discriminate|].
  destruct (FAILED (hr_SetStartupFlags os));
    [intros [H | [H | []]]; discriminate|].
  destruct (FAILED (hr_Authenticate os));
    [intros [H | [H | [H | []]]]; discriminate|].
  destruct (FAILED (hr_Start os));
    [intros [H | [H | [H | [H | []]]]]; discriminate|].
  intros [H | [H | [H | [H | H]]]]; try discriminate.
  apply in_app_or in H as [H | [H | H]].
  - apply in_map_iff in H as (x & Hx & _). discriminate.
  - discriminate.
  - destruct (FAILED (hr_CreateAppDomainWithManager os)); [destruct H|].
    destruct H as [H | H]; [injection H as <- <- <-; auto|].
    exfalso.
    destruct (FAILED (hr_ExecuteAssembly os)); [destruct H|].
    destruct H as [H | H]; [discriminate|].
    destruct (FAILED (hr_UnloadAppDomain os)); [destruct H|].
    destruct H as [H | H]; [discriminate|].
    destruct (FAILED (hr_Stop os));
      [destruct H | destruct H as [H | []]; discriminate].
Qed.

(** X21. When [wmain] comes to [TryRun], its name is a stem followed by
    "exe", and the managed module it has the loader look for is the stem
    followed by "dll", after the attempts to load the runtime. When the
    program is executed, it is the file the loader found for that module, in
    the domain that was created, with the arguments left after the leading
    options. *)
Theorem wmain_runs_the_dll argv0 args r success
  (Hmain : wmain argv0 args = Some r)
  (Hrun : main_success r = Some success) :
  exists stem he tail,
    argv0 = stem ++ W "exe" /\
    HostEnvironment_new = Some he /\
    main_events r = events he ++ EvLoadLibrary (stem ++ W "dll") :: tail /\
    forall id assembly argv,
      In (EvExecuteAssembly id assembly argv) (main_events r) ->
      id = created_domainId os /\
      argv = snd (parse_options no_options args) /\
      exists module,
        LoadLibraryExW os (stem ++ W "dll") = Some module /\
        assembly = GetModuleFileName_MAX_PATH module.
Proof.
  unfold wmain in Hmain.
  destruct (wcsrchr argv0 (ch ".")) as [dot|]; [|discriminate].
  destruct (wstr_eqb (skipn (S dot) argv0) (W "exe")) eqn:Hext; cbn [negb] in Hmain.
  2:{ injection Hmain as <-. discriminate. }
  apply wstr_eqb_eq in Hext. fold no_options in Hmain.
  destruct (parse_options no_options args) as [o newArgv]. cbn [snd].
  destruct (helpRequested o).
  { injection Hmain as <-. discriminate. }
  bind_inv Hmain as rr Hrr. injection Hmain as <-. cbn [main_events].
  set (stem := firstn (S dot) argv0) in *.
  assert (Hnew : exists he, HostEnvironment_new = Some he).
  { unfold TryRun in Hrr. destruct HostEnvironment_new as [he|]; [eauto | discriminate]. }
  destruct Hnew as (he & Hnew).
  destruct (HostEnvironment_new_loads he Hnew) as (paths & Hloads).
  pose proof (TryRun_trace newArgv (stem ++ W "dll") rr he Hnew Hrr) as T.
  assert (Hpre : forall id assembly argv x,
    In (EvExecuteAssembly id assembly argv)
       (events he ++ EvLoadLibrary (stem ++ W "dll") :: x) ->
    In (EvExecuteAssembly id assembly argv) x).
  { intros id assembly argv x HIn. apply in_app_or in HIn as [HIn | [HIn | HIn]].
    - rewrite Hloads in HIn. apply in_map_iff in HIn as (y & Hy & _). discriminate.
    - discriminate.
    - exact HIn. }
  assert (Hstem : argv0 = stem ++ W "exe")
    by (rewrite <- Hext; symmetry; apply firstn_skipn).
  destruct (LoadLibraryExW os (stem ++ W "dll")) as [module|] eqn:Hload.
  - destruct (host_reachable (stem ++ W "dll") he).
    + destruct T as (found & tpa & E & _).
      exists stem, he, (host_calls he module newArgv found tpa).
      split; [exact Hstem|]. split; [exact Hnew|]. split; [exact E|].
      intros id assembly argv HIn. rewrite E in HIn. apply Hpre in HIn.
      apply In_host_calls_execute in HIn as (-> & -> & ->).
      split; [reflexivity|]. split; [reflexivity|]. now exists module.
    + exists stem, he, []. split; [exact Hstem|]. split; [exact Hnew|].
      split; [exact T|].
      intros id assembly argv HIn. rewrite T in HIn. apply Hpre in HIn.
      destruct HIn.
  - exists stem, he, []. split; [exact Hstem|]. split; [exact Hnew|].
    split; [exact T|].
    intros id assembly argv HIn. rewrite T in HIn. apply Hpre in HIn.
    destruct HIn.
Qed.

(** ** The build does not fail on short paths *)

Lemma RemoveExtensionAndNi_length (fileName : wstr) :
  wcslen (RemoveExtensionAndNi fileName) <= wcslen fileName.
Proof.
  unfold RemoveExtensionAndNi.
  destruct (wcsrchr fileName (ch ".")) as [i|]; [|lia].
  assert (H : wcslen (firstn i fileName) <= wcslen fileName).
  { unfold wcslen. rewrite length_firstn. lia. }
  destruct (ends_in_ni (firstn i fileName)); [|exact H].
  unfold take, wcslen in *. rewrite length_firstn. lia.
Qed.

Lemma TPAListContainsFile_returns he name exts :
  Forall (fun ext => wcslen ext <= 8) exts ->
  wcslen name + 9 < MAX_PATH ->
  exists present, TPAListContainsFile he name exts = Some present.
Proof.
  intros Hexts Hname. unfold TPAListContainsFile.
  destruct (CStr (m_tpaList he)) as [tpa|]; [|eauto].
  induction Hexts as [|ext rest Hext _ IH]; [simpl; eauto|].
  rewrite TPAListContainsFile_loop_step, wcslen_needle.
  assert (Ht : wcslen (tl ext) <= 7).
  { destruct ext as [|c ext]; unfold wcslen in *; simpl in *; lia. }
  destruct (Z.ltb_spec (wcslen name + wcslen (tl ext) + 2) MAX_PATH) as [_|Hge];
    [|lia].
  destruct (wcsstr tpa (needle name ext)); eauto.
Qed.

Lemma add_found_file_returns targetPath exts he data :
  buffer_ok (m_tpaList he) -> capacity_ok (m_tpaList he) ->
  Forall (fun ext => wcslen ext <= 8) exts ->
  (is_file data = true ->
   wcslen (cFileName data) + 9 < MAX_PATH /\
   wcslen targetPath + wcslen (cFileName data) < MAX_PATH) ->
  m_length (m_tpaList he) + (if is_file data then MAX_PATH else 0) < 2 ^ 61 ->
  exists he',
    add_found_file targetPath exts he data = Some he' /\
    buffer_ok (m_tpaList he') /\ capacity_ok (m_tpaList he') /\
    m_length (m_tpaList he') <=
      m_length (m_tpaList he) + (if is_file data then MAX_PATH else 0).
Proof.
  intros Hok Hcap Hexts Hdata Hlen. unfold add_found_file.
  destruct (is_file data); [|exists he; repeat split; auto; lia].
  destruct (Hdata eq_refl) as (Hname & Hpath).
  pose proof (wcslen_map_towlower (cFileName data)) as Hlow.
  set (name := map towlower (cFileName data)) in *.
  assert (H0 : 0 <= wcslen targetPath) by zlen.
  rewrite (fits_ok MAX_PATH name) by lia. cbn [bind].
  pose proof (RemoveExtensionAndNi_length name) as Hstem.
  destruct (TPAListContainsFile_returns he (RemoveExtensionAndNi name) exts Hexts)
    as (present & ->); [lia|]. cbn [bind].
  destruct present; cbn [negb];
    [exists he; repeat split; auto; unfold MAX_PATH; lia|].
  rewrite take_wcslen, (fits_ok (MAX_PATH - wcslen targetPath) name) by lia.
  cbn [bind]. rewrite <- wcslen_app.
  destruct (Append_short (m_tpaList he) (targetPath ++ name) Hok Hcap)
    as (sb1 & -> & _ & _ & Hl1 & Hok1 & Hcap1).
  { rewrite wcslen_app. unfold m_defaultSize, MAX_PATH in *. lia. }
  { unfold MAX_PATH in *. lia. }
  cbn [bind]. change 1 with (wcslen (W ";")) at 1.
  destruct (Append_short sb1 (W ";") Hok1 Hcap1)
    as (sb2 & -> & _ & _ & Hl2 & Hok2 & Hcap2).
  { reflexivity. }
  { rewrite Hl1, wcslen_app. unfold MAX_PATH in *. lia. }
  cbn [bind]. eexists. split; [reflexivity|].
  cbn [set_tpaList m_tpaList]. repeat split; auto.
  rewrite Hl2, Hl1, wcslen_app. change (wcslen (W ";")) with 1. lia.
Qed.

Ltac path_lia := unfold MAX_PATH in *; lia.

Lemma add_found_files_returns targetPath exts found : forall he,
  buffer_ok (m_tpaList he) -> capacity_ok (m_tpaList he) ->
  Forall (fun ext => wcslen ext <= 8) exts ->
  Forall (fun data =>
            wcslen (cFileName data) + 9 < MAX_PATH /\
            wcslen targetPath + wcslen (cFileName data) < MAX_PATH)
         (filter is_file found) ->
  m_length (m_tpaList he) +
    MAX_PATH * Z.of_nat (length (filter is_file found)) < 2 ^ 61 ->
  exists he',
    add_found_files targetPath exts he found = Some he' /\
    buffer_ok (m_tpaList he') /\ capacity_ok (m_tpaList he') /\
    m_length (m_tpaList he') <=
      m_length (m_tpaList he) +
        MAX_PATH * Z.of_nat (length (filter is_file found)).
Proof.
  induction found as [|data rest IH]; intros he Hok Hcap Hexts Hnames Hlen.
  - exists he. simpl. repeat split; auto. path_lia.
  - cbn [add_found_files]. cbn [filter] in Hnames, Hlen |- *.
    destruct (add_found_file_returns targetPath exts he data Hok Hcap Hexts)
      as (he1 & -> & Hok1 & Hcap1 & Hl1).
    + intros F. rewrite F in Hnames. now apply Forall_cons_iff in Hnames as (H & _).
    + destruct (is_file data); cbn [length] in Hlen; unfold MAX_PATH in *; path_lia.
    + cbn [bind].
      destruct (IH he1 Hok1 Hcap1 Hexts) as (he2 & -> & Hok2 & Hcap2 & Hl2).
      * destruct (is_file data); [|exact Hnames].
        now apply Forall_cons_iff in Hnames as (_ & H).
      * destruct (is_file data); cbn [length] in Hlen; path_lia.
      * exists he2. repeat split; auto.
        destruct (is_file data); cbn [length]; path_lia.
Qed.

Lemma AddFiles_loop_returns targetPath exts todo : forall he,
  buffer_ok (m_tpaList he) -> capacity_ok (m_tpaList he) ->
  Forall (fun ext => wcslen ext <= 8) exts ->
  Forall (fun ext => wcslen ext <= 8) todo ->
  wcslen targetPath + 8 < MAX_PATH ->
  Forall (fun c => wcslen (snd c) + 9 < MAX_PATH /\
                   wcslen (fst c) + wcslen (snd c) < MAX_PATH)
         (candidates_of_dir targetPath todo) ->
  m_length (m_tpaList he) +
    MAX_PATH * Z.of_nat (length (candidates_of_dir targetPath todo)) < 2 ^ 61 ->
  exists he',
    AddFiles_loop targetPath exts todo he = Some he' /\
    buffer_ok (m_tpaList he') /\ capacity_ok (m_tpaList he') /\
    m_length (m_tpaList he') <=
      m_length (m_tpaList he) +
        MAX_PATH * Z.of_nat (length (candidates_of_dir targetPath todo)).
Proof.
  induction todo as [|ext rest IH]; intros he Hok Hcap Hexts Htodo Hdir Hnames Hlen.
  - exists he. simpl. repeat split; auto. path_lia.
  - apply Forall_cons_iff in Htodo as (Hext & Hrest).
    unfold candidates_of_dir in Hnames, Hlen |- *. cbn [flat_map] in Hnames, Hlen |- *.
    fold (candidates_of_dir targetPath rest) in Hnames, Hlen |- *.
    apply Forall_app in Hnames as (Hhere & Hnext).
    rewrite length_app, Nat2Z.inj_add in Hlen |- *.
    assert (Hcount : length (candidates_of_pattern targetPath ext) =
                     length (filter is_file (FindFiles os (targetPath ++ ext))))
      by (unfold candidates_of_pattern; apply length_map).
    rewrite Hcount in Hlen |- *. unfold candidates_of_pattern in Hhere.
    cbn [AddFiles_loop].
    rewrite (fits_ok MAX_PATH targetPath) by path_lia. cbn [bind].
    unfold wcscat_s. rewrite fits_ok by (rewrite wcslen_app; path_lia). cbn [bind].
    destruct (add_found_files_returns targetPath exts
                (FindFiles os (targetPath ++ ext))
                (log_event (EvFindFirstFile (targetPath ++ ext)) he))
      as (he1 & -> & Hok1 & Hcap1 & Hl1); auto.
    + apply Forall_forall. intros data Hdata.
      rewrite Forall_forall in Hhere.
      specialize (Hhere (targetPath, map towlower (cFileName data))).
      cbn [fst snd] in Hhere. rewrite wcslen_map_towlower in Hhere.
      apply Hhere. apply in_map_iff. now exists data.
    + cbn [log_event m_tpaList]. path_lia.
    + cbn [bind]. cbn [log_event m_tpaList] in Hl1.
      destruct (IH he1 Hok1 Hcap1 Hexts Hrest Hdir Hnext)
        as (he2 & -> & Hok2 & Hcap2 & Hl2); [path_lia|].
      exists he2. repeat split; auto. path_lia.
Qed.

Lemma AddDirectories_returns dirs : forall he,
  buffer_ok (m_tpaList he) -> capacity_ok (m_tpaList he) ->
  Forall (fun targetPath => wcslen targetPath + 8 < MAX_PATH) dirs ->
  Forall (fun c => wcslen (snd c) + 9 < MAX_PATH /\
                   wcslen (fst c) + wcslen (snd c) < MAX_PATH)
         (candidates dirs rgTPAExtensions) ->
  m_length (m_tpaList he) +
    MAX_PATH * Z.of_nat (length (candidates dirs rgTPAExtensions)) < 2 ^ 61 ->
  exists he', AddDirectories dirs rgTPAExtensions he = Some he'.
Proof.
  assert (Hexts : Forall (fun ext => wcslen ext <= 8) rgTPAExtensions).
  { repeat constructor; vm_compute; discriminate. }
  induction dirs as [|targetPath rest IH]; intros he Hok Hcap Hdirs Hnames Hlen.
  - exists he. reflexivity.
  - apply Forall_cons_iff in Hdirs as (Hdir & Hrest).
    unfold candidates in Hnames, Hlen. cbn [flat_map] in Hnames, Hlen.
    fold (candidates rest rgTPAExtensions) in Hnames, Hlen.
    apply Forall_app in Hnames as (Hhere & Hnext).
    rewrite length_app, Nat2Z.inj_add in Hlen.
    cbn [AddDirectories]. unfold AddFilesFromDirectoryToTPAList.
    destruct (AddFiles_loop_returns targetPath rgTPAExtensions rgTPAExtensions he
                Hok Hcap Hexts Hexts Hdir Hhere)
      as (he1 & -> & Hok1 & Hcap1 & Hl1); [path_lia|].
    cbn [bind]. apply (IH he1 Hok1 Hcap1 Hrest Hnext). path_lia.
Qed.

(** X22. [GetTpaList] returns, none of its copies into arrays of MAX_PATH
    characters fails, when the paths are short enough: each directory that
    it scans leaves room for a pattern, and each file found has a name of at
    most 250 characters that makes, with its directory, a path of less than
    MAX_PATH characters. (The files are fewer than 2 ^ 52: no size wraps
    around.) *)
Theorem GetTpaList_returns_on_short_paths he
  (Hok : buffer_ok (m_tpaList he))
  (Hdirs : Forall (fun targetPath => wcslen targetPath + 8 < MAX_PATH)
                  (tpa_directories he))
  (Hnames : Forall (fun c => wcslen (snd c) + 9 < MAX_PATH /\
                             wcslen (fst c) + wcslen (snd c) < MAX_PATH)
                   (candidates (tpa_directories he) rgTPAExtensions))
  (Hcount : Z.of_nat (length (candidates (tpa_directories he) rgTPAExtensions))
            < 2 ^ 52) :
  exists tpa he', GetTpaList he = Some (tpa, he').
Proof.
  unfold GetTpaList.
  destruct (CStr (m_tpaList he)) as [tpa|] eqn:Hnull; [eauto|].
  assert (Hb : m_buffer (m_tpaList he) = None).
  { unfold CStr in Hnull. destruct (m_buffer (m_tpaList he)); [discriminate | reflexivity]. }
  assert (Hcap : capacity_ok (m_tpaList he)) by (unfold capacity_ok; now rewrite Hb).
  assert (Hlen : m_length (m_tpaList he) = 0) by (unfold buffer_ok in Hok; now rewrite Hb in Hok).
  destruct (AddDirectories_returns (tpa_directories he) he Hok Hcap Hdirs Hnames)
    as (he' & Hbuild); [rewrite Hlen; path_lia|].
  unfold tpa_directories in Hbuild, Hdirs.
  destruct (env_is_set (W "CORE_LIBRARIES")).
  - cbn [app AddDirectories] in Hbuild.
    apply Forall_cons_iff in Hdirs as (Hdir & _).
    unfold wcscat_s. rewrite fits_ok by lia. cbn [bind].
    bind_inv Hbuild as he1 H1. bind_inv Hbuild as he2 H2. injection Hbuild as <-.
    rewrite H1. cbn [bind].
    apply AddFiles_loop_dir in H1 as Hsame. rewrite Hsame, H2. cbn [bind]. eauto.
  - cbn [app AddDirectories] in Hbuild.
    bind_inv Hbuild as he2 H2. injection Hbuild as <-.
    cbn [bind]. rewrite H2. cbn [bind]. eauto.
Qed.

(** X23. What [wmain] returns. It is -1 whenever [ExecuteAssembly] was not
    called: a name without the extension "exe", a request for help, a
    failure of the host before the execution. Once [ExecuteAssembly] was
    called it is what the call left in [exitCode] (the initial -1 when it
    wrote nothing) read as an int, whether the call and the calls that
    follow it succeeded or not. *)
Theorem wmain_return_value argv0 args r
  (Hmain : wmain argv0 args = Some r) :
  ((exists id assembly argv,
      In (EvExecuteAssembly id assembly argv) (main_events r)) ->
   main_return r = int_of_DWORD exit_after_execute) /\
  ((forall id assembly argv,
      ~ In (EvExecuteAssembly id assembly argv) (main_events r)) ->
   main_return r = -1).
Proof.
  split; [|exact (proj1 (proj2 (proj2 (wmain_return_codes argv0 args r Hmain))))].
  intros (id & assembly & argv & HIn).
  unfold wmain in Hmain.
  destruct (wcsrchr argv0 (ch ".")) as [dot|]; [|discriminate].
  destruct (wstr_eqb (skipn (S dot) argv0) (W "exe")); cbn [negb] in Hmain;
    [|injection Hmain as <-; destruct HIn].
  destruct (parse_options _ args) as [o newArgv].
  destruct (helpRequested o); [injection Hmain as <-; destruct HIn|].
  bind_inv Hmain as rr Hrr. injection Hmain as <-.
  cbn [main_return main_events] in *.
  apply TryRun_shape in Hrr as (pre & F & [C | [C | C]]).
  - destruct C as (E & _). rewrite E in HIn.
    rewrite Forall_forall in F. destruct (F _ HIn).
  - destruct C as (nm & vs & E & _). rewrite E in HIn.
    apply in_app_or in HIn as [HIn | [HIn | []]]; [|discriminate].
    rewrite Forall_forall in F. destruct (F _ HIn).
  - destruct C as (nm & vs & asm & _ & _ & _ & X). now rewrite X.
Qed.

End Host.

(** * Runs on the sample worlds *)

Ltac find_in := repeat first [left; reflexivity | right].

(** C2, the claim as stated fails: in a world where the domain is created
    and [ExecuteAssembly] fails, the run makes no call of the teardown. *)
Lemma teardown_skipped_when_execute_fails :
  let os := world E_FAIL None S_OK in
  exists r, TryRun 0%N os [] hello_dll = Some r /\
    FAILED (hr_CreateAppDomainWithManager os) = false /\
    (exists name n keys values,
       In (EvCreateAppDomain name n keys values) (run_events r)) /\
    FAILED (hr_ExecuteAssembly os) = true /\
    filter is_teardown_event (run_events r) = [].
Proof.
  eexists. split; [vm_compute; reflexivity|].
  split; [reflexivity|]. split; [|split; reflexivity].
  do 4 eexists. find_in.
Qed.

Lemma teardown_follows_successful_execute_witness :
  let os := world S_OK (Some 42) E_FAIL in
  exists r, TryRun 0%N os [] hello_dll = Some r /\
    filter is_teardown_event (run_events r) = [EvUnloadAppDomain 1] /\
    run_success r = false.
Proof.
  intros os. eexists. split; [vm_compute; reflexivity|].
  eapply (teardown_follows_successful_execute 0%N os [] hello_dll).
  - vm_compute. reflexivity.
  - find_in.
  - reflexivity.
Defined.


(** C3. The array [property_keys] has four elements, and the fourth is not
    "NATIVE_DLL_SEARCH_DIRECTORIES": the literal that follows it without a
    comma is part of it. A run that creates the domain passes this array. *)
Theorem fourth_property_key_is_two_literals :
  length property_keys = 4%nat /\
  nth 3 property_keys [] = W "NATIVE_DLL_SEARCH_DIRECTORIESAppDomainCompatSwitch" /\
  ~ In (W "NATIVE_DLL_SEARCH_DIRECTORIES") property_keys /\
  exists r name values,
    TryRun 0%N (world S_OK (Some 42) S_OK) [] hello_dll = Some r /\
    In (EvCreateAppDomain name 4 property_keys values) (run_events r).
Proof.
  split; [reflexivity|]. split; [reflexivity|]. split.
  - vm_compute. intros [H | [H | [H | [H | []]]]]; discriminate.
  - do 3 eexists. split; [vm_compute; reflexivity|]. find_in.
Qed.

(** C5. Started under a name without a dot, [wmain] does not return -1: the
    pointer [wcsrchr(programPath, '.') + 1] is made from a null pointer and
    read by [wcscmp]. *)
Theorem wmain_without_dot_does_not_return uninit os argv0 args
  (Hnodot : wcsrchr argv0 (ch ".") = None) :
  wmain uninit os argv0 args = None.
Proof. unfold wmain. rewrite Hnodot. reflexivity. Qed.

Lemma wmain_without_dot_does_not_return_witness :
  wmain 0%N (world S_OK (Some 0) S_OK) (W "coreconsole") [W "/_h"] = None.
Proof.
  apply (wmain_without_dot_does_not_return 0%N (world S_OK (Some 0) S_OK)
           (W "coreconsole") [W "/_h"]).
  reflexivity.
Defined.

Lemma runtime_discovery_witness :
  exists he, HostEnvironment_new 0%N world_with_root = Some he /\
    events he =
      [ EvLoadLibrary (missing_root ++ BACKSLASH ++ W "CoreCLR.dll");
        EvLoadLibrary (W "c:" ++ BACKSLASH ++ W "app" ++ BACKSLASH ++ W "CoreCLR.dll") ] /\
    m_coreCLRModule he = Some 7%positive /\
    m_coreCLRDirectoryPath he = rt_dir.
Proof.
  eexists. split; [vm_compute; reflexivity|].
  match goal with
  | |- context [events ?he] =>
      destruct (runtime_discovery 0%N world_with_root he eq_refl) as (H1 & H2 & H3 & _)
  end.
  split; [exact H1|]. split; [exact H2|].
  exact (H3 _ H2).
Defined.


(** A buffer of 4096 cells that holds 4094 characters grows to 8192 cells
    when two characters are appended. *)
Example Append_doubles :
  let full := {| m_buffer := Some (map Npos (repeat 97%positive 4094) ++ [NUL; 7%N]);
                 m_capacity := 4096; m_length := 4094 |} in
  exists sb',
    Append 7%N full (W "ab") 2 = Some sb' /\
    m_capacity sb' = 8192 /\ m_length sb' = 4096 /\
    CStr sb' = Some (repeat 97%positive 4094 ++ W "ab").
Proof.
  eexists. split; [vm_compute; reflexivity|].
  split; [reflexivity|]. split; [reflexivity|]. vm_compute. reflexivity.
Qed.

Lemma first_file_is_appended_witness :
  let he := {| m_hostPath := hello_exe;
               m_hostDirectoryPath := [];
               m_hostExeName := [];
               m_tpaList := StringBuffer_new;
               m_CLRRuntimeHost := false;
               m_coreCLRModule := None;
               m_coreCLRDirectoryPath := rt_dir;
               tpa_entries := [];
               events := [] |} in
  let name := map towlower (cFileName (plain_file "MsCorLib.dll")) in
  TPAListContainsFile he (RemoveExtensionAndNi name) rgTPAExtensions = Some false /\
  exists he',
    add_found_file 0%N rt_dir rgTPAExtensions he (plain_file "MsCorLib.dll") = Some he' /\
    tpa_entries he' = tpa_entries he ++ [(rt_dir, name)] /\
    CStr (m_tpaList he') = Some (rt_dir ++ name ++ W ";").
Proof.
  intros he.
  apply (first_file_is_appended 0%N rt_dir rgTPAExtensions he (plain_file "MsCorLib.dll")).
  - reflexivity.
  - reflexivity.
  - reflexivity.
  - reflexivity.
Defined.

Ltac stem_of_name :=
  match goal with
  | |- exists stem, ?n = stem ++ ?t =>
      exists (firstn (length n - length t) n); vm_compute; reflexivity
  end.


(** C7, the claim as stated fails: when the first build finds no file the
    buffer stays null, and the second call scans the directory again (the
    four searches are made a second time). *)
Lemma GetTpaList_scans_again_when_nothing_was_found :
  let os := world_without_files in
  let he := {| m_hostPath := hello_exe;
               m_hostDirectoryPath := [];
               m_hostExeName := [];
               m_tpaList := StringBuffer_new;
               m_CLRRuntimeHost := false;
               m_coreCLRModule := None;
               m_coreCLRDirectoryPath := rt_dir;
               tpa_entries := [];
               events := [] |} in
  let searches := map (fun ext => EvFindFirstFile (rt_dir ++ ext)) rgTPAExtensions in
  exists he1 he2,
    GetTpaList 0%N os he = Some (None, he1) /\
    events he1 = searches /\
    GetTpaList 0%N os he1 = Some (None, he2) /\
    events he2 = searches ++ searches.
Proof.
  do 2 eexists. split; [vm_compute; reflexivity|].
  split; [reflexivity|]. split; [vm_compute; reflexivity|]. reflexivity.
Qed.

Lemma GetTpaList_is_cached_witness :
  let os := world S_OK (Some 0) S_OK in
  let he := {| m_hostPath := hello_exe;
               m_hostDirectoryPath := [];
               m_hostExeName := [];
               m_tpaList := StringBuffer_new;
               m_CLRRuntimeHost := false;
               m_coreCLRModule := None;
               m_coreCLRDirectoryPath := rt_dir;
               tpa_entries := [];
               events := [] |} in
  exists tpa he1,
    GetTpaList 0%N os he = Some (Some tpa, he1) /\
    (CStr (m_tpaList he) <> None -> he1 = he /\ Some tpa = CStr (m_tpaList he)) /\
    exists he2,
      GetTpaList 0%N os he1 = Some (Some tpa, he2) /\
      (Some tpa <> None -> he2 = he1).
Proof.
  intros os he. do 2 eexists. split; [vm_compute; reflexivity|].
  apply (GetTpaList_is_cached 0%N os he).
  vm_compute. reflexivity.
Defined.


(** The same world, for the first writers: [a.dll_old] is the first file of
    its logical name and is kept, and [a.dll] is kept too. *)
Example stray_first_writer_is_not_alone :
  let os := world_with_stray_name in
  exists he',
    AddDirectories 0%N os [rt_dir] rgTPAExtensions fresh_host = Some he' /\
    first_writers (candidates os [rt_dir] rgTPAExtensions) =
      [(rt_dir, W "a.dll_old")] /\
    tpa_entries he' = [(rt_dir, W "a.dll_old"); (rt_dir, W "a.dll")].
Proof.
  eexists. split; [vm_compute; reflexivity|].
  split; vm_compute; reflexivity.
Qed.

(** C8, the claim as stated fails: CORE_ROOT is set to the empty string;
    [_wgetenv_s] returns 0 with [outSize = 1], the test of line 145 passes,
    and the first (here the only) attempt is the load of "\CoreCLR.dll", the
    empty override directory; the directory of the host is not tried. *)
Lemma empty_CORE_ROOT_is_tried :
  let os := world_with_empty_root in
  wgetenv_s os (W "CORE_ROOT") = (0, 1, []) /\
  exists he,
    HostEnvironment_new 0%N os = Some he /\
    events he = [EvLoadLibrary (BACKSLASH ++ W "CoreCLR.dll")] /\
    m_hostDirectoryPath he = W "c:" ++ BACKSLASH ++ W "app" ++ BACKSLASH.
Proof.
  split; [reflexivity|].
  eexists. split; [vm_compute; reflexivity|]. split; reflexivity.
Qed.

(** C4, the claim as stated fails: [x.ni.exe] is found under the
    optimized-image pattern "*.ni.exe" and [x.dll] under the plain pattern
    "*.dll", in the same directory and with the same logical name; the list
    keeps [x.dll], which the scan meets first. *)
Lemma plain_dll_wins_over_ni_exe :
  let os := world_with_ni_exe in
  let he := {| m_hostPath := hello_exe;
               m_hostDirectoryPath := [];
               m_hostExeName := [];
               m_tpaList := StringBuffer_new;
               m_CLRRuntimeHost := false;
               m_coreCLRModule := None;
               m_coreCLRDirectoryPath := rt_dir;
               tpa_entries := [];
               events := [] |} in
  In (plain_file "x.ni.exe") (FindFiles os (rt_dir ++ W "*.ni.exe")) /\
  In (plain_file "x.dll") (FindFiles os (rt_dir ++ W "*.dll")) /\
  logical_name (rt_dir, W "x.ni.exe") = logical_name (rt_dir, W "x.dll") /\
  exists he',
    GetTpaList 0%N os he = Some (Some (rt_dir ++ W "x.dll;"), he') /\
    tpa_entries he' = [(rt_dir, W "x.dll")].
Proof.
  split; [left; reflexivity|]. split; [left; reflexivity|].
  split; [reflexivity|].
  eexists. split; [vm_compute; reflexivity | reflexivity].
Qed.

Lemma first_writer_wins_witness :
  let os := world_with_libraries in
  let he := {| m_hostPath := hello_exe;
               m_hostDirectoryPath := [];
               m_hostExeName := [];
               m_tpaList := StringBuffer_new;
               m_CLRRuntimeHost := false;
               m_coreCLRModule := None;
               m_coreCLRDirectoryPath := rt_dir;
               tpa_entries := [];
               events := [] |} in
  let c := (rt_dir, W "mscorlib.ni.dll") in
  exists he',
    AddDirectories 0%N os [lib_dir; rt_dir] rgTPAExtensions he = Some he' /\
    In c (tpa_entries he') /\
    forall entry, In entry (tpa_entries he') ->
      logical_name entry = logical_name c -> entry = c.
Proof.
  intros os he c. eexists. split; [vm_compute; reflexivity|].
  apply (first_writer_wins 0%N os [lib_dir; rt_dir] rgTPAExtensions he _
           [(lib_dir, W "system.dll")] c
           (skipn 2 (candidates os [lib_dir; rt_dir] rgTPAExtensions))).
  - reflexivity.
  - reflexivity.
  - apply Permutation_refl.
  - repeat constructor.
    + exists (W "c:" ++ BACKSLASH ++ W "lib"). reflexivity.
    + exists (W "c:" ++ BACKSLASH ++ W "rt"). reflexivity.
  - repeat (constructor; [intros ext data Hext Hdata _|]); [| |constructor];
      (destruct Hext as [<- | [<- | [<- | [<- | []]]]]; vm_compute in Hdata;
       repeat (destruct Hdata as [<- | Hdata]; [stem_of_name|]);
       destruct Hdata).
  - vm_compute. reflexivity.
  - apply Forall_forall. intros e He. vm_compute in He.
    repeat (destruct He as [<- | He]; [reflexivity|]). destruct He.
  - intros c' [<- | []] H. vm_compute in H. discriminate.
  - split; [discriminate | reflexivity].
  - vm_compute. reflexivity.
Defined.

(** The list built in the world with additional libraries: [system.dll] of
    the library directory is kept, not the files of that name of the runtime
    directory; [mscorlib.ni.dll] is kept, not [mscorlib.dll]. *)
Example tpa_list_of_world_with_libraries :
  let he := {| m_hostPath := hello_exe;
               m_hostDirectoryPath := [];
               m_hostExeName := [];
               m_tpaList := StringBuffer_new;
               m_CLRRuntimeHost := false;
               m_coreCLRModule := None;
               m_coreCLRDirectoryPath := rt_dir;
               tpa_entries := [];
               events := [] |} in
  exists he',
    GetTpaList 0%N world_with_libraries he =
      Some (Some (lib_dir ++ W "system.dll;" ++
                  rt_dir ++ W "mscorlib.ni.dll;" ++
                  rt_dir ++ W "coreclr.dll;"), he') /\
    tpa_entries he' =
      [ (lib_dir, W "system.dll"); (rt_dir, W "mscorlib.ni.dll");
        (rt_dir, W "coreclr.dll") ].
Proof. eexists. split; [vm_compute; reflexivity | reflexivity]. Qed.

(** The four patterns go together: [AddFilesFromDirectoryToTPAList] called
    with the pattern "*.dll" alone searches the list for the name followed
    by ".dll" only, and appends [a.dll] after [a.ni.dll]. With the four
    patterns it does not. *)
Example the_four_patterns_go_together :
  let he := {| m_hostPath := hello_exe;
               m_hostDirectoryPath := [];
               m_hostExeName := [];
               m_tpaList := StringBuffer_new;
               m_CLRRuntimeHost := false;
               m_coreCLRModule := None;
               m_coreCLRDirectoryPath := rt_dir;
               tpa_entries := [];
               events := [] |} in
  (exists he',
     AddFilesFromDirectoryToTPAList 0%N world_with_pair rt_dir [W "*.dll"] he = Some he' /\
     tpa_entries he' = [(rt_dir, W "a.ni.dll"); (rt_dir, W "a.dll")]) /\
  (exists he',
     AddFilesFromDirectoryToTPAList 0%N world_with_pair rt_dir rgTPAExtensions he = Some he' /\
     tpa_entries he' = [(rt_dir, W "a.ni.dll")]).
Proof.
  split; eexists; (split; [vm_compute; reflexivity | reflexivity]).
Qed.

Lemma Append_faults_exactly_witness :
  Append 0%N StringBuffer_new (repeat 97%positive (Z.to_nat 8192))
         (wcslen (repeat 97%positive (Z.to_nat 8192))) = None.
Proof.
  apply (proj2 (Append_faults_exactly 0%N StringBuffer_new (repeat 97%positive (Z.to_nat 8192))
                  (eq_refl : buffer_ok StringBuffer_new))).
  vm_compute. reflexivity.
Defined.

Lemma Append_all_concatenates_witness :
  exists sb',
    Append_all 0%N StringBuffer_new [W "a.dll"; W ";"; W "b.dll"; W ";"] = Some sb' /\
    contents sb' = [] ++ concat [W "a.dll"; W ";"; W "b.dll"; W ";"] /\
    m_length sb' = 0 + wcslen (concat [W "a.dll"; W ";"; W "b.dll"; W ";"]) /\
    buffer_ok sb'.
Proof.
  eexists. split; [vm_compute; reflexivity|].
  apply (Append_all_concatenates 0%N StringBuffer_new
           [W "a.dll"; W ";"; W "b.dll"; W ";"]).
  - reflexivity.
  - vm_compute. reflexivity.
Defined.

Lemma Append_never_fails_on_paths_witness :
  exists sb',
    Append 0%N StringBuffer_new (W "mscorlib.dll") (wcslen (W "mscorlib.dll")) = Some sb' /\
    CStr sb' = Some ([] ++ W "mscorlib.dll") /\
    buffer_ok sb' /\ capacity_ok sb'.
Proof.
  apply (Append_never_fails_on_paths 0%N StringBuffer_new (W "mscorlib.dll")).
  - reflexivity.
  - exact I.
  - reflexivity.
  - reflexivity.
Defined.

Lemma RemoveExtensionAndNi_keeps_short_stems_witness :
  RemoveExtensionAndNi (W ".ni" ++ ch "." :: W "dll") = W ".ni" /\
  RemoveExtensionAndNi (W "dll") = W "dll".
Proof.
  apply (RemoveExtensionAndNi_keeps_short_stems (W ".ni") (W "dll")).
  - apply no_char_In. reflexivity.
  - vm_compute. discriminate.
Defined.

Lemma optimized_and_plain_share_a_logical_name_witness :
  RemoveExtensionAndNi (W "system.xml" ++ ch "." :: W "dll") = W "system.xml" /\
  RemoveExtensionAndNi ((W "system.xml" ++ W ".ni") ++ ch "." :: W "dll") = W "system.xml".
Proof.
  apply (optimized_and_plain_share_a_logical_name (W "system.xml") (W "dll")).
  - split; [discriminate | reflexivity].
  - apply no_char_In. reflexivity.
Defined.

Ltac sample_list_ok :=
  vm_compute; repeat split; try reflexivity; discriminate.

Lemma TPAListContainsFile_fails_on_long_names_witness :
  TPAListContainsFile (host_with_list [(rt_dir, W "a.dll")])
    (repeat 97%positive 251) rgTPAExtensions = None.
Proof.
  apply (proj2 (TPAListContainsFile_fails_on_long_names
                  (host_with_list [(rt_dir, W "a.dll")])
                  (repeat 97%positive 251) (rt_dir ++ W "a.dll;") eq_refl)).
  vm_compute. discriminate.
Defined.

Lemma TPAListContainsFile_finds_every_entry_witness :
  TPAListContainsFile (host_with_list [(rt_dir, W "mscorlib.ni.dll")])
    (logical_name (rt_dir, W "mscorlib.ni.dll")) rgTPAExtensions <> Some false.
Proof.
  apply (TPAListContainsFile_finds_every_entry
           (host_with_list [(rt_dir, W "mscorlib.ni.dll")])
           (rt_dir, W "mscorlib.ni.dll") rgTPAExtensions).
  - sample_list_ok.
  - constructor; [|constructor]. split.
    + exists (W "c:" ++ BACKSLASH ++ W "rt"). reflexivity.
    + exists (W "*.ni.dll"). split; [left; reflexivity | reflexivity].
  - apply incl_refl.
  - left. reflexivity.
Defined.

Lemma TPAListContainsFile_matches_whole_names_witness :
  exists entry,
    In entry (tpa_entries (host_with_list [(rt_dir, W "mscorlib.ni.dll")])) /\
    logical_name entry = W "mscorlib".
Proof.
  apply (TPAListContainsFile_matches_whole_names
           (host_with_list [(rt_dir, W "mscorlib.ni.dll")])
           (W "mscorlib") rgTPAExtensions).
  - sample_list_ok.
  - constructor; [|constructor]. split.
    + exists (W "c:" ++ BACKSLASH ++ W "rt"). reflexivity.
    + exists (W "*.ni.dll"). split; [left; reflexivity | reflexivity].
  - constructor; [reflexivity | constructor].
  - apply incl_refl.
  - split; [discriminate | reflexivity].
  - apply no_char_In. reflexivity.
  - apply no_char_In. reflexivity.
  - vm_compute. reflexivity.
Defined.

(** The search is for whole names: "corlib" is not found in a list that
    holds [mscorlib.ni.dll], nor is "mscorlib.ni.dll.old". *)
Example TPAListContainsFile_rejects_parts_of_names :
  let he := host_with_list [(rt_dir, W "mscorlib.ni.dll")] in
  TPAListContainsFile he (W "corlib") rgTPAExtensions = Some false /\
  TPAListContainsFile he (W "mscor") rgTPAExtensions = Some false /\
  TPAListContainsFile he (W "mscorlib") rgTPAExtensions = Some true.
Proof. repeat split; vm_compute; reflexivity. Qed.

Lemma tpa_entries_are_the_first_writers_witness :
  let dirs := [lib_dir; rt_dir] in
  exists he',
    AddDirectories 0%N world_with_libraries dirs rgTPAExtensions fresh_host = Some he' /\
    tpa_entries he' =
      first_writers (candidates world_with_libraries dirs rgTPAExtensions) /\
    contents (m_tpaList he') =
      flat (first_writers (candidates world_with_libraries dirs rgTPAExtensions)).
Proof.
  intros dirs. eexists. split; [vm_compute; reflexivity|].
  apply (tpa_entries_are_the_first_writers 0%N world_with_libraries dirs
           rgTPAExtensions fresh_host).
  - reflexivity.
  - reflexivity.
  - apply Permutation_refl.
  - repeat constructor.
    + exists (W "c:" ++ BACKSLASH ++ W "lib"). reflexivity.
    + exists (W "c:" ++ BACKSLASH ++ W "rt"). reflexivity.
  - repeat (constructor; [intros ext data Hext Hdata _|]); [| |constructor];
      (destruct Hext as [<- | [<- | [<- | [<- | []]]]]; vm_compute in Hdata;
       repeat (destruct Hdata as [<- | Hdata]; [stem_of_name|]);
       destruct Hdata).
  - apply Forall_forall. intros e He. vm_compute in He.
    repeat (destruct He as [<- | He]; [reflexivity|]). destruct He.
  - apply Forall_forall. intros e He. vm_compute in He.
    repeat (destruct He as [<- | He]; [split; [discriminate | reflexivity]|]).
    destruct He.
  - vm_compute. reflexivity.
Defined.

Lemma GetTpaList_search_order_witness :
  let os := world_with_libraries in
  exists tpa he',
    GetTpaList 0%N os fresh_host = Some (tpa, he') /\
    events he' =
      events fresh_host ++ searches (tpa_directories os fresh_host) rgTPAExtensions.
Proof.
  intros os. do 2 eexists. split; [vm_compute; reflexivity|].
  eapply (GetTpaList_search_order 0%N os fresh_host).
  - reflexivity.
  - vm_compute. reflexivity.
Defined.

Lemma host_path_is_directory_and_name_witness :
  let os := world S_OK (Some 0) S_OK in
  exists he,
    HostEnvironment_new 0%N os = Some he /\
    m_hostPath he = m_hostDirectoryPath he ++ m_hostExeName he /\
    ~ In (hd 1%positive BACKSLASH) (m_hostExeName he) /\
    (m_hostDirectoryPath he = [] \/
     exists d, m_hostDirectoryPath he = d ++ BACKSLASH).
Proof.
  intros os. eexists. split; [vm_compute; reflexivity|].
  apply (host_path_is_directory_and_name 0%N os).
  vm_compute. reflexivity.
Defined.

Lemma GetTpaList_has_each_logical_name_once_witness :
  let os := world_with_libraries in
  exists he tpa he',
    HostEnvironment_new 0%N os = Some he /\
    GetTpaList 0%N os he = Some (tpa, he') /\
    NoDup (map logical_name (tpa_entries he')) /\
    match tpa with
    | Some list => list = flat (tpa_entries he')
    | None => tpa_entries he' = []
    end.
Proof.
  intros os. do 3 eexists. split; [vm_compute; reflexivity|].
  split; [vm_compute; reflexivity|].
  eapply (GetTpaList_has_each_logical_name_once 0%N os).
  - vm_compute. reflexivity.
  - reflexivity.
  - vm_compute. find_in.
  - repeat (apply Forall_cons; [intros ext data Hext Hdata _|]); [| |apply Forall_nil];
      (destruct Hext as [<- | [<- | [<- | [<- | []]]]]; vm_compute in Hdata;
       repeat (destruct Hdata as [<- | Hdata]; [stem_of_name|]);
       destruct Hdata).
  - vm_compute. reflexivity.
Defined.

Lemma TryRun_stages_in_order_witness :
  let os := world S_OK (Some 0) E_FAIL in
  exists he r,
    HostEnvironment_new 0%N os = Some he /\
    TryRun 0%N os [] hello_dll = Some r /\
    host_stages (run_events r) =
      [StGetCLRRuntimeHost; StSetStartupFlags; StAuthenticate; StStart;
       StCreateAppDomain; StExecuteAssembly; StUnloadAppDomain].
Proof.
  intros os. do 2 eexists. split; [vm_compute; reflexivity|].
  split; [vm_compute; reflexivity|].
  etransitivity.
  - eapply (TryRun_stages_in_order 0%N os [] hello_dll).
    + vm_compute. reflexivity.
    + vm_compute. reflexivity.
  - vm_compute. reflexivity.
Defined.

Lemma TryRun_succeeds_iff_released_witness :
  let os := world S_OK (Some 0) S_OK in
  exists r,
    TryRun 0%N os [] hello_dll = Some r /\
    (run_success r = true <-> In EvRelease (run_events r)).
Proof.
  intros os. eexists. split; [vm_compute; reflexivity|].
  apply (TryRun_succeeds_iff_released 0%N os [] hello_dll).
  vm_compute. reflexivity.
Defined.

Lemma domain_properties_passed_witness :
  let os := world_with_libraries in
  exists he r name n keys values,
    HostEnvironment_new 0%N os = Some he /\
    TryRun 0%N os [] hello_dll = Some r /\
    In (EvCreateAppDomain name n keys values) (run_events r) /\
    name = m_hostExeName he /\
    n = Z.of_nat (length values) /\ length values = length keys /\
    exists module tpa he1 he2,
      LoadLibraryExW os hello_dll = Some module /\
      values = domain_values os he module tpa /\
      m_tpaList he1 = StringBuffer_new /\ tpa_entries he1 = [] /\
      m_coreCLRDirectoryPath he1 = m_coreCLRDirectoryPath he /\
      GetTpaList 0%N os he1 = Some (tpa, he2).
Proof.
  intros os. do 6 eexists. split; [vm_compute; reflexivity|].
  split; [vm_compute; reflexivity|].
  split; [find_in|].
  eapply (domain_properties_passed 0%N os [] hello_dll).
  - vm_compute. reflexivity.
  - vm_compute. reflexivity.
  - find_in.
Defined.

Lemma wmain_rejects_without_calls_witness :
  let os := world S_OK (Some 0) S_OK in
  wmain 0%N os hello_dll [] =
    Some {| main_return := -1; main_success := None; main_events := [] |} /\
  wmain 0%N os hello_exe [W "-_V"; W "/_H"; W "x"] =
    Some {| main_return := -1; main_success := None; main_events := [] |}.
Proof.
  intros os. split.
  - apply (wmain_rejects_without_calls 0%N os hello_dll [] 12%nat).
    + vm_compute. reflexivity.
    + left. vm_compute. reflexivity.
  - apply (wmain_rejects_without_calls 0%N os hello_exe
             [W "-_V"; W "/_H"; W "x"] 12%nat).
    + vm_compute. reflexivity.
    + right. vm_compute. reflexivity.
Defined.

Lemma wmain_runs_the_dll_witness :
  let os := world S_OK (Some 0) S_OK in
  let args := [W "-_v"; W "a"; W "/_d"] in
  exists r,
    wmain 0%N os hello_exe args = Some r /\
    exists stem he tail,
      hello_exe = stem ++ W "exe" /\
      HostEnvironment_new 0%N os = Some he /\
      main_events r = events he ++ EvLoadLibrary (stem ++ W "dll") :: tail /\
      forall id assembly argv,
        In (EvExecuteAssembly id assembly argv) (main_events r) ->
        id = created_domainId os /\
        argv = snd (parse_options no_options args) /\
        exists module,
          LoadLibraryExW os (stem ++ W "dll") = Some module /\
          assembly = GetModuleFileName_MAX_PATH os module.
Proof.
  intros os args. eexists. split; [vm_compute; reflexivity|].
  apply (wmain_runs_the_dll 0%N os hello_exe args _ true).
  - vm_compute. reflexivity.
  - reflexivity.
Defined.

Lemma GetTpaList_returns_on_short_paths_witness :
  exists tpa he',
    GetTpaList 0%N world_with_libraries fresh_host = Some (tpa, he').
Proof.
  apply (GetTpaList_returns_on_short_paths 0%N world_with_libraries fresh_host).
  - reflexivity.
  - repeat (apply Forall_cons; [vm_compute; reflexivity|]). apply Forall_nil.
  - apply Forall_forall. intros e He. vm_compute in He.
    repeat (destruct He as [<- | He]; [split; vm_compute; reflexivity|]).
    destruct He.
  - vm_compute. reflexivity.
Defined.

Lemma wmain_return_value_witness :
  let os := world E_FAIL (Some 3) S_OK in
  exists r,
    wmain 0%N os hello_exe [] = Some r /\
    ((exists id assembly argv,
        In (EvExecuteAssembly id assembly argv) (main_events r)) ->
     main_return r = int_of_DWORD (exit_after_execute os)) /\
    ((forall id assembly argv,
        ~ In (EvExecuteAssembly id assembly argv) (main_events r)) ->
     main_return r = -1).
Proof.
  intros os. eexists. split; [vm_compute; reflexivity|].
  apply (wmain_return_value 0%N os hello_exe []).
  vm_compute. reflexivity.
Defined.

Lemma GetCLRRuntimeHost_is_cached_witness :
  let os := world S_OK (Some 0) S_OK in
  exists he he1,
    HostEnvironment_new 0%N os = Some he /\
    GetCLRRuntimeHost os he = (true, he1) /\
    events he1 = events he ++ [EvGetCLRRuntimeHost] /\
    GetCLRRuntimeHost os he1 = (true, he1).
Proof.
  intros os. do 2 eexists. split; [vm_compute; reflexivity|].
  match goal with
  | |- GetCLRRuntimeHost _ ?h = _ /\ _ =>
      split; [vm_compute; reflexivity|]; split; [reflexivity|];
      apply (GetCLRRuntimeHost_is_cached os h)
  end.
  vm_compute. reflexivity.
Defined.
